(** * BThome BLE advertisement parser: a shallow embedding of
      [bthome_ble/parser.py] and the properties of its TLV decoder,
      numeric codecs and decryption path.

    The Python module is embedded function by function.  Python integers
    are [Z], [bytes] are lists of [Byte.byte], [str] values are lists of
    [ascii] characters, floats are IEEE-754 binary64 values of the
    standard library's [spec_float], exceptions are an explicit outcome,
    and the attributes of [self] together with the module logger are one
    state record threaded through the methods. *)

From Stdlib Require Import ZArith List Ascii String Strings.Byte Bool Lia SpecFloat.
From stdpp Require Import base option list gmap strings.

Local Open Scope Z_scope.

(** ** The Python runtime the parser relies on *)

Module Py.

(** Exceptions the embedded code can raise.  [UnicodeDecodeError] is a
    subclass of [ValueError] in Python. *)
Inductive exn : Set :=
| IndexError
| ValueError
| TypeError
| OverflowError
| UnicodeDecodeError.

Definition is_ValueError (e : exn) : bool :=
  match e with
  | ValueError | UnicodeDecodeError => true
  | _ => false
  end.

Definition is_TypeError (e : exn) : bool :=
  match e with
  | TypeError => true
  | _ => false
  end.

(** Result of evaluating an expression: a value or a raised exception. *)
Inductive exc (A : Type) : Type :=
| Ok (a : A)
| Err (e : exn).
Arguments Ok {A} a.
Arguments Err {A} e.

Definition exc_bind {A B} (x : exc A) (k : A -> exc B) : exc B :=
  match x with
  | Ok a => k a
  | Err e => Err e
  end.

Abbreviation bytes := (list byte) (only parsing).
Abbreviation str := (list ascii) (only parsing).

#[global] Instance byte_eq_decision : EqDecision byte := Byte.byte_eq_dec.

Definition len {A} (l : list A) : Z := Z.of_nat (length l).

Definition byte_val (b : byte) : Z := Z.of_N (Byte.to_N b).

(** [l[i]] for a Python sequence: negative indices count from the end,
    anything out of range raises [IndexError]. *)
Definition index {A} (l : list A) (i : Z) : exc A :=
  let j := if i <? 0 then i + len l else i in
  if j <? 0 then Err IndexError
  else match l !! Z.to_nat j with
       | Some a => Ok a
       | None => Err IndexError
       end.

(** Bound of a slice, clamped the way [PySlice_AdjustIndices] does for a
    step of one. *)
Definition clamp (n : Z) (i : Z) : Z :=
  if i <? 0 then Z.max 0 (i + n) else Z.min i n.

(** [l[lo:hi]]; [None] stands for an omitted bound. *)
Definition slice {A} (l : list A) (lo hi : option Z) : list A :=
  let n := len l in
  let a := match lo with Some i => clamp n i | None => 0 end in
  let b := match hi with Some i => clamp n i | None => n end in
  take (Z.to_nat (b - a)) (drop (Z.to_nat a) l).

(** [int.from_bytes(data, "little", signed=False)] *)
Fixpoint int_from_bytes_unsigned (data : bytes) : Z :=
  match data with
  | [] => 0
  | b :: rest => byte_val b + 256 * int_from_bytes_unsigned rest
  end.

(** [int.from_bytes(data, "little", signed=True)]: two's complement over
    the width of [data]. *)
Definition int_from_bytes_signed (data : bytes) : Z :=
  let u := int_from_bytes_unsigned data in
  if (0 <? len data) && (2 ^ (8 * len data - 1) <=? u)
  then u - 2 ^ (8 * len data) else u.

(** *** Floats: IEEE-754 binary64 *)

Definition prec : Z := 53.
Definition emax : Z := 1024.

Definition float := spec_float.

(** The float nearest to an integer that is known to be in range, as
    for a float literal. *)
Definition float_of_Z (n : Z) : float := binary_normalize prec emax n 0 false.

(** Conversion of an [int] operand of a float operation
    ([PyLong_AsDouble]): correctly rounded, [OverflowError] when the
    integer is too large for a float. *)
Definition float_of_int (n : Z) : exc float :=
  match float_of_Z n with
  | S754_infinity _ => Err OverflowError
  | x => Ok x
  end.

Definition float_mul (x y : float) : float := SFmul prec emax x y.

(** Truth value of a float: everything but the two zeros. *)
Definition float_bool (x : float) : bool :=
  match x with
  | S754_zero _ => false
  | _ => true
  end.

Definition is_finite (x : float) : bool :=
  match x with
  | S754_zero _ | S754_finite _ _ _ => true
  | _ => false
  end.

(** [num / den] rounded to the nearest integer, ties to the even one
    ([0 <= num], [0 < den]). *)
Definition round_half_even (num den : Z) : Z :=
  let q := num / den in
  match 2 * (num mod den) ?= den with
  | Lt => q
  | Gt => q + 1
  | Eq => if Z.even q then q else q + 1
  end.

(** The float nearest to the rational [p / q] with the sign [s]
    ([0 <= p], [0 < q]), as the correctly rounding [strtod] gives it. *)
Definition float_of_ratio (s : bool) (p q : Z) : float :=
  if p =? 0 then S754_zero s
  else
    let '(m, e, l) := SFdiv_core_binary prec emax p 0 q 0 in
    binary_round_aux prec emax s m e l.

(** [round(x, ndigits)] on a float ([float.__round__] with a second
    argument): the exact value of [x] is rounded, ties to even, to a
    multiple of [10 ^ -ndigits], and that decimal is converted back.
    Infinities and NaN round to themselves; extreme [ndigits] are cut
    off as CPython does (NDIGITS_MAX = 323, NDIGITS_MIN = -308). *)
Definition round (x : float) (ndigits : Z) : exc float :=
  match x with
  | S754_finite s m e =>
      if 323 <? ndigits then Ok x
      else if ndigits <? -308 then Ok (S754_zero s)
      else
        let num := Zpos m * 2 ^ Z.max e 0 * 10 ^ Z.max ndigits 0 in
        let den := 2 ^ Z.max (- e) 0 * 10 ^ Z.max (- ndigits) 0 in
        let n := round_half_even num den in
        match float_of_ratio s (n * 10 ^ Z.max (- ndigits) 0)
                             (10 ^ Z.max ndigits 0) with
        | S754_infinity _ => Err OverflowError
        | r => Ok r
        end
  | _ => Ok x
  end.

(** *** Formatting a float with the [e] presentation type *)

Definition digit_char (d : Z) : ascii := ascii_of_nat (48 + Z.to_nat d).

Fixpoint dec_digits (fuel : nat) (n : Z) (acc : str) : str :=
  match fuel with
  | O => acc
  | S fuel' =>
      let acc' := digit_char (n mod 10) :: acc in
      if n <? 10 then acc' else dec_digits fuel' (n / 10) acc'
  end.

(** Decimal digits of a natural number, most significant first. *)
Definition str_of_nat (n : Z) : str :=
  dec_digits (S (Z.to_nat (Z.log2 n))) n [].

(** [10 ^ k <= p / q], for any sign of [k]. *)
Definition pow10_le (k p q : Z) : bool :=
  10 ^ Z.max k 0 * q <=? p * 10 ^ Z.max (- k) 0.

Fixpoint floor_log10_from (fuel : nat) (k p q : Z) : Z :=
  match fuel with
  | O => k
  | S fuel' =>
      if pow10_le k p q then k else floor_log10_from fuel' (k - 1) p q
  end.

(** The largest [k] with [10 ^ k <= p / q] ([0 < p], [0 < q]): searched
    downwards from the number of binary digits of [p]. *)
Definition floor_log10 (p q : Z) : Z :=
  floor_log10_from (Z.to_nat (Zdigits2 p + Zdigits2 q)) (Zdigits2 p) p q.

(** Seven significant decimal digits [n] and decimal exponent [k] of
    the positive value [m * 2 ^ e], so that it prints as
    [d.dddddd e k]: correctly rounded, and renormalised when the
    digits round up to [10 ^ 7]. *)
Definition sci7 (m : positive) (e : Z) : Z * Z :=
  let p := Zpos m * 2 ^ Z.max e 0 in
  let q := 2 ^ Z.max (- e) 0 in
  let k := floor_log10 p q in
  let n := round_half_even (p * 10 ^ Z.max (6 - k) 0)
                           (q * 10 ^ Z.max (k - 6) 0) in
  if n =? 10 ^ 7 then (10 ^ 6, k + 1) else (n, k).

Definition sign_str (s : bool) : str := if s then ["-"%char] else [].

(** The exponent part: a sign and at least two digits. *)
Definition exponent_str (k : Z) : str :=
  (if k <? 0 then "-"%char else "+"%char)
    :: (if Z.abs k <? 10 then ["0"%char] else []) ++ str_of_nat (Z.abs k).

(** The mantissa part of seven digits [n]: [d.dddddd]. *)
Definition mantissa_str (n : Z) : str :=
  digit_char (n / 10 ^ 6 mod 10) :: "."%char
    :: map (fun i => digit_char (n / 10 ^ i mod 10)) [5; 4; 3; 2; 1; 0].

(** [f"{x:e}"] *)
Definition format_e (x : float) : str :=
  match x with
  | S754_nan => list_ascii_of_string "nan"
  | S754_infinity s => sign_str s ++ list_ascii_of_string "inf"
  | S754_zero s => sign_str s ++ mantissa_str 0 ++ "e"%char :: exponent_str 0
  | S754_finite s m e =>
      let '(n, k) := sci7 m e in
      sign_str s ++ mantissa_str n ++ "e"%char :: exponent_str k
  end.

(** The decimal exponent that [format_e] prints for a finite float. *)
Definition sci_exponent (x : float) : Z :=
  match x with
  | S754_finite _ m e => snd (sci7 m e)
  | _ => 0
  end.

(** *** Strings *)

(** [s.split(sep)] for a one-character separator: the pieces between
    the occurrences of [sep], never an empty list. *)
Fixpoint split (sep : ascii) (s : str) : list str :=
  match s with
  | [] => [[]]
  | c :: rest =>
      if Ascii.eqb c sep then [] :: split sep rest
      else match split sep rest with
           | piece :: pieces => (c :: piece) :: pieces
           | [] => [[c]]
           end
  end.

Definition is_digit (c : ascii) : bool :=
  (48 <=? nat_of_ascii c)%nat && (nat_of_ascii c <=? 57)%nat.

Fixpoint digits_value (acc : Z) (s : str) : option Z :=
  match s with
  | [] => Some acc
  | c :: rest =>
      if is_digit c
      then digits_value (10 * acc + (Z.of_nat (nat_of_ascii c) - 48)) rest
      else None
  end.

(** [s.replace(old, "")] for a one-character [old]. *)
Definition remove_char (old : ascii) (s : str) : str :=
  filter (fun c => c <> old) s.

(** [s.upper()] on ASCII text: the letters [a]-[z] are mapped, every
    other character is kept. *)
Definition upper_char (c : ascii) : ascii :=
  let n := nat_of_ascii c in
  if (97 <=? n)%nat && (n <=? 122)%nat then ascii_of_nat (n - 32) else c.

Definition upper (s : str) : str := map upper_char s.

Definition digits_int (s : str) : exc Z :=
  match s with
  | [] => Err ValueError
  | _ => match digits_value 0 s with
         | Some n => Ok n
         | None => Err ValueError
         end
  end.

(** [int(s)] on a decimal literal with an optional sign; anything else
    raises [ValueError].  (Surrounding blanks and underscores between
    digits, which Python also accepts, do not occur in the strings this
    is applied to and are not covered.) *)
Definition int_of_str (s : str) : exc Z :=
  match s with
  | "+"%char :: rest => digits_int rest
  | "-"%char :: rest => exc_bind (digits_int rest) (fun n => Ok (- n))
  | _ => digits_int s
  end.

(** *** [bytes.fromhex] *)

Definition is_space (c : ascii) : bool :=
  let n := nat_of_ascii c in
  (n =? 32)%nat || ((9 <=? n)%nat && (n <=? 13)%nat).

Definition hex_value (c : ascii) : option Z :=
  let n := Z.of_nat (nat_of_ascii c) in
  if (48 <=? n) && (n <=? 57) then Some (n - 48)
  else if (97 <=? n) && (n <=? 102) then Some (n - 87)
  else if (65 <=? n) && (n <=? 70) then Some (n - 55)
  else None.

Definition byte_of_Z (n : Z) : byte :=
  match Byte.of_N (Z.to_N n) with
  | Some b => b
  | None => x00
  end.

(** [bytes.fromhex(s)]: pairs of hexadecimal digits, ASCII blanks
    allowed between the pairs; [ValueError] on anything else. *)
Fixpoint fromhex (s : str) : exc bytes :=
  match s with
  | [] => Ok []
  | c :: rest =>
      if is_space c then fromhex rest
      else
        match hex_value c, rest with
        | Some hi, d :: rest' =>
            match hex_value d with
            | Some lo =>
                exc_bind (fromhex rest')
                         (fun tl => Ok (byte_of_Z (16 * hi + lo) :: tl))
            | None => Err ValueError
            end
        | _, _ => Err ValueError
        end
  end.

(** *** [bytes.decode("UTF-8")] *)

Definition is_cont (b : Z) : bool := (128 <=? b) && (b <=? 191).

Definition in_range (lo hi b : Z) : bool := (lo <=? b) && (b <=? hi).

(** Strict UTF-8: shortest forms only, no surrogates, nothing above
    U+10FFFF.  The result is the sequence of code points. *)
Fixpoint utf8_decode (data : list Z) : option (list Z) :=
  match data with
  | [] => Some []
  | b0 :: r0 =>
      if b0 <? 128 then cons b0 <$> utf8_decode r0
      else if in_range 194 223 b0 then
        match r0 with
        | b1 :: r1 =>
            if is_cont b1
            then cons ((b0 - 192) * 64 + (b1 - 128)) <$> utf8_decode r1
            else None
        | _ => None
        end
      else if in_range 224 239 b0 then
        match r0 with
        | b1 :: b2 :: r2 =>
            if in_range (if b0 =? 224 then 160 else 128)
                        (if b0 =? 237 then 159 else 191) b1
               && is_cont b2
            then cons ((b0 - 224) * 4096 + (b1 - 128) * 64 + (b2 - 128))
                   <$> utf8_decode r2
            else None
        | _ => None
        end
      else if in_range 240 244 b0 then
        match r0 with
        | b1 :: b2 :: b3 :: r3 =>
            if in_range (if b0 =? 240 then 144 else 128)
                        (if b0 =? 244 then 143 else 191) b1
               && is_cont b2 && is_cont b3
            then cons ((b0 - 240) * 262144 + (b1 - 128) * 4096
                       + (b2 - 128) * 64 + (b3 - 128))
                   <$> utf8_decode r3
            else None
        | _ => None
        end
      else None
  end.

(** Decoded text: a sequence of Unicode code points. *)
Abbreviation text := (list Z) (only parsing).

Definition decode_utf8 (data : bytes) : exc text :=
  match utf8_decode (map byte_val data) with
  | Some t => Ok t
  | None => Err UnicodeDecodeError
  end.

(** *** [struct.unpack] of one IEEE-754 number *)

(** The float with the bit pattern [bits] in the interchange format of
    [ebits] exponent bits and [mbits] fraction bits.  Every such value
    is a binary64 value, so the conversion to a Python float is exact. *)
Definition ieee_decode (ebits mbits bits : Z) : float :=
  let s := Z.testbit bits (ebits + mbits) in
  let ex := Z.land (Z.shiftr bits mbits) (2 ^ ebits - 1) in
  let frac := Z.land bits (2 ^ mbits - 1) in
  let bias := 2 ^ (ebits - 1) - 1 in
  if ex =? 2 ^ ebits - 1 then
    if frac =? 0 then S754_infinity s else S754_nan
  else if ex =? 0 then
    binary_normalize prec emax (cond_Zopp s frac) (1 - bias - mbits) s
  else
    binary_normalize prec emax (cond_Zopp s (frac + 2 ^ mbits))
                     (ex - bias - mbits) s.

(** [struct.unpack("e", data)], [("f", data)] and [("d", data)] for
    [data] of 2, 4 and 8 bytes.  The format strings carry no byte-order
    mark, so the native order is used; it is little-endian here. *)
Definition unpack_e (data : bytes) : float :=
  ieee_decode 5 10 (int_from_bytes_unsigned data).
Definition unpack_f (data : bytes) : float :=
  ieee_decode 8 23 (int_from_bytes_unsigned data).
Definition unpack_d (data : bytes) : float :=
  ieee_decode 11 52 (int_from_bytes_unsigned data).

End Py.

Import Py.

(** ** What the module imports *)

(** Modelled from the spec: [const.py], which defines [MEAS_TYPES], is
    not part of the sources.  An entry is used through its attributes
    [meas_format] (the sensor description handed to the sensor model)
    and [factor] (the scaling factor, a float). *)
Record MeasTypes (sensor : Type) : Type := {
  meas_format : sensor;
  factor : float
}.
Arguments meas_format {sensor} _.
Arguments factor {sensor} _.

(** [from .const import MEAS_TYPES]: a dict from measurement type to
    its entry, taken as a parameter. *)
Class Const : Type := {
  sensor : Type;
  MEAS_TYPES : gmap Z (MeasTypes sensor)
}.

(** What [cipher.decrypt_and_verify] can do: return the plaintext,
    return [None], or raise [ValueError] because the tag does not match. *)
Inductive verify_result : Type :=
| Plaintext (payload : bytes)
| ReturnsNone
| MacCheckFailed.

(** [from Cryptodome.Cipher import AES], used in CCM mode only.
    [AES_new key nonce mac_len] is
    [AES.new(key, AES.MODE_CCM, nonce=nonce, mac_len=mac_len)], [None]
    when the constructor raises [ValueError]; the library accepts a
    16-byte key with a 12-byte nonce and a 4-byte tag. *)
Class Cryptodome : Type := {
  cipher : Type;
  AES_new : bytes -> bytes -> Z -> option cipher;
  cipher_update : cipher -> bytes -> cipher;
  decrypt_and_verify : cipher -> bytes -> bytes -> verify_result;
  AES_new_accepts : forall key nonce,
    len key = 16 -> len nonce = 12 -> is_Some (AES_new key nonce 4)
}.

(** [home_assistant_bluetooth.BluetoothServiceInfo], with the attributes
    the parser reads. *)
Record BluetoothServiceInfo : Type := {
  name : str;
  address : str;
  service_uuids : list str
}.

(** ** Logging *)

Inductive level : Set := DEBUG | WARNING | ERROR.

(** The messages of the module, by their format string. *)
Inductive message : Set :=
| msg_float_width        (* only 2, 4 or 8 byte long floats are supported in BThome BLE *)
| msg_mac_length         (* MAC address has to be 6 bytes long *)
| msg_invalid_length     (* Invalid payload data length, payload: %s *)
| msg_string_unsupported (* String data type not supported yet! Adv: %s *)
| msg_unknown_dataobject (* UNKNOWN dataobject in BThome BLE payload! Adv: %s *)
| msg_unknown_meas_type  (* UNKNOWN measurement type in BThome BLE payload! Adv: %s *)
| msg_key_not_set        (* Encryption key not set and adv is encrypted *)
| msg_key_length         (* Encryption key should be 16 bytes (32 characters) long *)
| msg_data_length        (* Invalid data length (for decryption), adv: %s *)
| msg_decryption_failed  (* Decryption failed: %s *)
| msg_mic                (* mic: %s *)
| msg_nonce              (* nonce: %s *)
| msg_encrypted_payload  (* encrypted_payload: %s *)
| msg_payload_none.      (* Decryption failed for %s, decrypted payload is None *)

Definition log_record : Set := level * message.

(** ** Numeric codecs *)

(** [-int(f"{factor:e}".split("e")[-1])] *)
Definition decimal_places (factor : float) : exc Z :=
  exc_bind (Py.index (Py.split "e" (format_e factor)) (-1)) (fun last =>
  exc_bind (int_of_str last) (fun n =>
  Ok (- n))).

(** [1.0], the default factor. *)
Definition default_factor : float := float_of_Z 1.

Definition parse_uint (data_obj : bytes) (factor : float) : exc float :=
  exc_bind (decimal_places factor) (fun places =>
  exc_bind (float_of_int (int_from_bytes_unsigned data_obj)) (fun v =>
  Py.round (float_mul v factor) places)).

Definition parse_int (data_obj : bytes) (factor : float) : exc float :=
  exc_bind (decimal_places factor) (fun places =>
  exc_bind (float_of_int (int_from_bytes_signed data_obj)) (fun v =>
  Py.round (float_mul v factor) places)).

(** [parse_float], with the records it logs; [Ok None] is its
    [return None]. *)
Definition parse_float (data_obj : bytes) (factor : float)
  : exc (option float) * list log_record :=
  match decimal_places factor with
  | Ok places =>
      let finish (val : float) :=
        (exc_bind (Py.round (float_mul val factor) places)
                  (fun r => Ok (Some r)), []) in
      if len data_obj =? 2 then finish (unpack_e data_obj)
      else if len data_obj =? 4 then finish (unpack_f data_obj)
      else if len data_obj =? 8 then finish (unpack_d data_obj)
      else (Ok None, [(ERROR, msg_float_width)])
  | Err e => (Err e, [])
  end.

Definition parse_string (data_obj : bytes) : exc text := decode_utf8 data_obj.

(** [parse_mac], with the records it logs; [None] is its [return None]. *)
Definition parse_mac (data_obj : bytes) : option bytes * list log_record :=
  if len data_obj =? 6 then (Some (rev data_obj), [])
  else (None, [(ERROR, msg_mac_length)]).

Definition short_address (address : str) : str :=
  upper (Py.slice (remove_char ":" (remove_char "-" address)) (Some (-6)) None).

(** ** Formatting a MAC address *)

Definition hex_char_upper (d : Z) : ascii :=
  ascii_of_nat (Z.to_nat (if d <? 10 then 48 + d else 55 + d)).

Fixpoint hex_digits_upper (fuel : nat) (n : Z) (acc : str) : str :=
  match fuel with
  | O => acc
  | S fuel' =>
      let acc' := hex_char_upper (n mod 16) :: acc in
      if n <? 16 then acc' else hex_digits_upper fuel' (n / 16) acc'
  end.

(** [f"{i:02X}"] for a natural number [i]: its hexadecimal digits in
    upper case, filled with a zero to two characters. *)
Definition format_02X (i : Z) : str :=
  let digits := hex_digits_upper (S (Z.to_nat (Z.log2 i))) i [] in
  if len digits <? 2 then "0"%char :: digits else digits.

(** [sep.join(parts)] *)
Fixpoint join (sep : str) (parts : list str) : str :=
  match parts with
  | [] => []
  | [p] => p
  | p :: rest => p ++ sep ++ join sep rest
  end.

(** [to_mac]: iterating over [bytes] gives the integers of the bytes. *)
Definition to_mac (addr : bytes) : str :=
  join [":"%char] (map (fun i => format_02X (byte_val i)) addr).

(** ** The device object *)

Inductive EncryptionScheme : Set :=
| NONE             (* No encryption is needed to use this device *)
| BTHOME_BINDKEY.  (* 16 byte encryption key expected *)

Section Device.
Context `{C : Const} `{A : Cryptodome}.

(** The attributes of [self] that the parser reads or writes, what it
    hands to the inherited [BluetoothData] setters ([set_device_name],
    [set_title], [set_device_sw_version], and the calls of
    [update_predefined_sensor], oldest first), and the records received
    by the module logger, oldest first. *)
Record state : Type := {
  bindkey : option bytes;
  encryption_scheme : EncryptionScheme;
  mac_known : bool;
  bindkey_verified : bool;
  device_name : option str;
  title : option str;
  sw_version : option str;
  sensor_updates : list (sensor * float);
  log : list log_record
}.

Definition with_encryption_scheme (v : EncryptionScheme) (s : state) : state :=
  {| bindkey := bindkey s; encryption_scheme := v; mac_known := mac_known s;
     bindkey_verified := bindkey_verified s; device_name := device_name s;
     title := title s; sw_version := sw_version s;
     sensor_updates := sensor_updates s; log := log s |}.

Definition with_mac_known (v : bool) (s : state) : state :=
  {| bindkey := bindkey s; encryption_scheme := encryption_scheme s;
     mac_known := v; bindkey_verified := bindkey_verified s;
     device_name := device_name s; title := title s;
     sw_version := sw_version s; sensor_updates := sensor_updates s;
     log := log s |}.

Definition with_bindkey_verified (v : bool) (s : state) : state :=
  {| bindkey := bindkey s; encryption_scheme := encryption_scheme s;
     mac_known := mac_known s; bindkey_verified := v;
     device_name := device_name s; title := title s;
     sw_version := sw_version s; sensor_updates := sensor_updates s;
     log := log s |}.

Definition with_device_name (v : str) (s : state) : state :=
  {| bindkey := bindkey s; encryption_scheme := encryption_scheme s;
     mac_known := mac_known s; bindkey_verified := bindkey_verified s;
     device_name := Some v; title := title s; sw_version := sw_version s;
     sensor_updates := sensor_updates s; log := log s |}.

Definition with_title (v : str) (s : state) : state :=
  {| bindkey := bindkey s; encryption_scheme := encryption_scheme s;
     mac_known := mac_known s; bindkey_verified := bindkey_verified s;
     device_name := device_name s; title := Some v;
     sw_version := sw_version s; sensor_updates := sensor_updates s;
     log := log s |}.

Definition with_sw_version (v : str) (s : state) : state :=
  {| bindkey := bindkey s; encryption_scheme := encryption_scheme s;
     mac_known := mac_known s; bindkey_verified := bindkey_verified s;
     device_name := device_name s; title := title s; sw_version := Some v;
     sensor_updates := sensor_updates s; log := log s |}.

Definition with_sensor_update (d : sensor) (v : float) (s : state) : state :=
  {| bindkey := bindkey s; encryption_scheme := encryption_scheme s;
     mac_known := mac_known s; bindkey_verified := bindkey_verified s;
     device_name := device_name s; title := title s;
     sw_version := sw_version s;
     sensor_updates := sensor_updates s ++ [(d, v)]; log := log s |}.

Definition with_log (records : list log_record) (s : state) : state :=
  {| bindkey := bindkey s; encryption_scheme := encryption_scheme s;
     mac_known := mac_known s; bindkey_verified := bindkey_verified s;
     device_name := device_name s; title := title s;
     sw_version := sw_version s; sensor_updates := sensor_updates s;
     log := log s ++ records |}.

(** A method body: it runs on a state and leaves an outcome and the
    state as it is then, also when it raises.  [None] is left when a
    [while] loop was cut off by the iteration budget given to its
    embedding. *)
Definition M (R : Type) : Type := state -> option (exc R * state).

Definition ret {R} (r : R) : M R := fun s => Some (Ok r, s).

Definition bind {R T} (c : M R) (k : R -> M T) : M T :=
  fun s =>
    match c s with
    | Some (Ok r, s') => k r s'
    | Some (Err e, s') => Some (Err e, s')
    | None => None
    end.

Definition raise {R} (e : exn) : M R := fun s => Some (Err e, s).

Definition out_of_fuel {R} : M R := fun s => None.

(** A pure expression that may raise. *)
Definition eval {R} (x : exc R) : M R := fun s => Some (x, s).

(** A module function that returns a value and logs. *)
Definition logging {R} (x : R * list log_record) : M R :=
  fun s => Some (Ok (fst x), with_log (snd x) s).

Definition logging_exc {R} (x : exc R * list log_record) : M R :=
  fun s => Some (fst x, with_log (snd x) s).

Definition get : M state := fun s => Some (Ok s, s).

Definition modify (f : state -> state) : M unit := fun s => Some (Ok tt, f s).

Definition LOGGER (l : level) (m : message) : M unit := modify (with_log [(l, m)]).

(** [try: body except (ValueError, TypeError): handler] *)
Definition try_except_ValueError_TypeError {R} (body handler : M R) : M R :=
  fun s =>
    match body s with
    | Some (Err e, s') =>
        if is_ValueError e || is_TypeError e then handler s'
        else Some (Err e, s')
    | r => r
    end.

End Device.

Arguments state {C}.
Arguments M {C} R.

(** ** The parser *)

Section Parser.
Context `{C : Const} `{A : Cryptodome}.

Notation "'let*' x ':=' c 'in' k" := (bind c (fun x => k))
  (at level 10, x pattern, c at level 100, k at level 200).
Notation "c ';;;' k" := (bind c (fun _ => k))
  (at level 100, k at level 200, right associativity).

(** Truth value of [self.bindkey]: [None] and [b""] are false. *)
Definition bindkey_bool (k : option bytes) : bool :=
  match k with
  | Some (_ :: _) => true
  | _ => false
  end.

Definition bindkey_len (k : option bytes) : Z :=
  match k with
  | Some key => len key
  | None => 0
  end.

Definition bindkey_bytes (k : option bytes) : bytes :=
  match k with
  | Some key => key
  | None => []
  end.

(** [BThomeBluetoothDeviceData._decrypt_bthome] *)
Definition _decrypt_bthome (data bthome_mac : bytes) : M bytes :=
  let* self := get in
  if negb (bindkey_bool (bindkey self)) then
    modify (with_bindkey_verified false) ;;;
    LOGGER DEBUG msg_key_not_set ;;;
    raise ValueError
  else if negb (bindkey_bool (bindkey self))
          || negb (bindkey_len (bindkey self) =? 16) then
    modify (with_bindkey_verified false) ;;;
    LOGGER ERROR msg_key_length ;;;
    raise ValueError
  else if len data <? 15 then
    LOGGER DEBUG msg_data_length ;;;
    raise ValueError
  else
    let uuid := [x1e; x18] in
    let encrypted_payload := Py.slice data None (Some (-8)) in
    let count_id := Py.slice data (Some (-8)) (Some (-4)) in
    let mic := Py.slice data (Some (-4)) None in
    let nonce := bthome_mac ++ uuid ++ count_id in
    match AES_new (bindkey_bytes (bindkey self)) nonce 4 with
    | None => raise ValueError
    | Some cipher0 =>
        let cipher1 := cipher_update cipher0 [x11] in
        match decrypt_and_verify cipher1 encrypted_payload mic with
        | MacCheckFailed =>
            modify (with_bindkey_verified false) ;;;
            LOGGER WARNING msg_decryption_failed ;;;
            LOGGER DEBUG msg_mic ;;;
            LOGGER DEBUG msg_nonce ;;;
            LOGGER DEBUG msg_encrypted_payload ;;;
            raise ValueError
        | ReturnsNone =>
            modify (with_bindkey_verified false) ;;;
            LOGGER ERROR msg_payload_none ;;;
            raise ValueError
        | Plaintext decrypted_payload =>
            modify (with_bindkey_verified true) ;;;
            ret decrypted_payload
        end
    end.

(** How one pass through the body of the [while] loop ends: at its last
    statement, with the new [payload_start] and [result], or at the
    [break]. *)
Inductive control : Type :=
| Continue (next_start : Z) (result : bool)
| Break.

(** Truth value of [meas_str]: [None] and the empty string are false. *)
Definition text_bool (t : option text) : bool :=
  match t with
  | Some (_ :: _) => true
  | _ => false
  end.

(** Truth value of [meas_float]: [None] and the zeros are false. *)
Definition option_float_bool (v : option float) : bool :=
  match v with
  | Some x => float_bool x
  | None => false
  end.

(** The inherited [BluetoothData.update_predefined_sensor], recorded
    as a call; at its only call site the value is a float. *)
Definition update_predefined_sensor (d : sensor) (value : option float)
  : M unit :=
  match value with
  | Some v => modify (with_sensor_update d v)
  | None => ret tt
  end.

(** The [if obj_data_length != 0:] statement of the loop body (lines
    211 to 258), which decodes the object between [payload_start] and
    [next_start]; its value is [result] as it stands afterwards. *)
Definition decode_object (payload : bytes)
  (obj_data_length obj_data_format obj_meas_type payload_start next_start : Z)
  (result : bool) : M bool :=
  if negb (obj_data_length =? 0) then
    if obj_data_format <=? 3 then
      match MEAS_TYPES !! obj_meas_type with
      | Some meas_type =>
          let next_payload := payload_start + 2 in
          let meas_data :=
            Py.slice payload (Some next_payload) (Some next_start) in
          let meas_format := meas_format meas_type in
          let meas_factor := factor meas_type in
          let* (meas_float, meas_str) :=
            if obj_data_format =? 0 then
              let* v := eval (parse_uint meas_data meas_factor) in
              ret (Some v, None)
            else if obj_data_format =? 1 then
              let* v := eval (parse_int meas_data meas_factor) in
              ret (Some v, None)
            else if obj_data_format =? 2 then
              let* v := logging_exc (parse_float meas_data meas_factor) in
              ret (v, None)
            else if obj_data_format =? 3 then
              let* t := eval (parse_string meas_data) in
              ret (None, Some t)
            else ret (None, None) in
          if option_float_bool meas_float then
            update_predefined_sensor meas_format meas_float ;;;
            ret true
          else if text_bool meas_str then
            LOGGER DEBUG msg_string_unsupported ;;;
            ret result
          else
            LOGGER DEBUG msg_unknown_dataobject ;;;
            ret result
      | None =>
          LOGGER DEBUG msg_unknown_meas_type ;;;
          ret result
      end
    else if obj_data_format =? 4 then
      let mac_start := payload_start + 1 in
      let* data_mac :=
        logging (parse_mac (Py.slice payload (Some mac_start)
                                     (Some next_start))) in
      ret result
    else
      LOGGER ERROR msg_unknown_dataobject ;;;
      ret result
  else ret result.

(** The body of the [while] loop of [_parse_bthome] (lines 199 to 259). *)
Definition loop_body (payload : bytes) (payload_start : Z) (result : bool)
  : M control :=
  let* obj_control_byte := eval (Py.index payload payload_start) in
  let obj_control_byte := byte_val obj_control_byte in
  let obj_data_length := Z.land (Z.shiftr obj_control_byte 0) 31 in
  let obj_data_format := Z.land (Z.shiftr obj_control_byte 5) 7 in
  let* obj_meas_type := eval (Py.index payload (payload_start + 1)) in
  let obj_meas_type := byte_val obj_meas_type in
  let next_start := payload_start + 1 + obj_data_length in
  if len payload <? next_start then
    LOGGER DEBUG msg_invalid_length ;;;
    ret Break
  else
    let* result :=
      decode_object payload obj_data_length obj_data_format obj_meas_type
                    payload_start next_start result in
    ret (Continue next_start result).

(** What the loop body reads at the cursor [i]: the control byte, its
    two bit fields and the measurement type. *)
Definition byte_at (payload : bytes) (i : Z) : Z :=
  match payload !! Z.to_nat i with
  | Some b => byte_val b
  | None => 0
  end.
Definition data_length_at (payload : bytes) (i : Z) : Z :=
  Z.land (Z.shiftr (byte_at payload i) 0) 31.
Definition data_format_at (payload : bytes) (i : Z) : Z :=
  Z.land (Z.shiftr (byte_at payload i) 5) 7.
Definition meas_type_at (payload : bytes) (i : Z) : Z :=
  byte_at payload (i + 1).

(** The [while payload_length >= payload_start + 1] loop, run for at
    most [fuel] passes through its body. *)
Fixpoint while_loop (fuel : nat) (payload : bytes) (payload_start : Z)
  (result : bool) : M bool :=
  if len payload >=? payload_start + 1 then
    match fuel with
    | O => out_of_fuel
    | S fuel' =>
        let* c := loop_body payload payload_start result in
        match c with
        | Continue next_start result' =>
            while_loop fuel' payload next_start result'
        | Break => ret result
        end
    end
  else ret result.

Definition uuid_plain : str :=
  list_ascii_of_string "0000181c-0000-1000-8000-00805f9b34fb".
Definition uuid_encrypted : str :=
  list_ascii_of_string "0000181e-0000-1000-8000-00805f9b34fb".

(** Lines 156 to 163 of [_parse_bthome]: the check of the address and
    [source_mac]; [None] when the method returns [False] there. *)
Definition read_address (service_info : BluetoothServiceInfo)
  : M (option bytes) :=
  let mac_readable := address service_info in
  let* c := eval (if negb (len mac_readable =? 17)
                  then exc_bind (Py.index mac_readable 2)
                         (fun c => Ok (negb (Ascii.eqb c ":")))
                  else Ok false) in
  if (c : bool) then
    modify (with_mac_known false) ;;;
    ret None
  else
    modify (with_mac_known true) ;;;
    let* source_mac := eval (fromhex (remove_char ":" mac_readable)) in
    ret (Some source_mac).

(** Lines 165 to 172: the device name and title. *)
Definition set_names (service_info : BluetoothServiceInfo) (name : str)
  : M unit :=
  let identifier := short_address (address service_info) in
  let name :=
    if bool_decide (Py.slice name (Some (-6)) None = identifier) then
      let name := Py.slice name None (Some (-6)) in
      if bool_decide (Py.slice name (Some (-1)) None = ["_"%char])
         || bool_decide (Py.slice name (Some (-1)) None = [" "%char])
      then Py.slice name None (Some (-1))
      else name
    else name in
  modify (with_device_name (name ++ " "%char :: identifier)) ;;;
  modify (with_title (name ++ " "%char :: identifier)).

(** Lines 174 to 192: the payload by the advertised service UUIDs;
    [None] when the method returns [False] there. *)
Definition select_payload (service_info : BluetoothServiceInfo)
  (data source_mac : bytes) : M (option bytes) :=
  let uuid16 := service_uuids service_info in
  if bool_decide (uuid16 = [uuid_plain]) then
    modify (with_encryption_scheme NONE) ;;;
    modify (with_sw_version (list_ascii_of_string "BThome BLE")) ;;;
    ret (Some data)
  else if bool_decide (uuid16 = [uuid_encrypted]) then
    modify (with_encryption_scheme BTHOME_BINDKEY) ;;;
    modify (with_sw_version (list_ascii_of_string "BThome BLE (encrypted)")) ;;;
    let* payload :=
      try_except_ValueError_TypeError
        (let* payload := _decrypt_bthome data source_mac in
         ret (Some payload))
        (ret None) in
    match payload with
    | None => ret None
    | Some payload =>
        let* packet_id :=
          eval (parse_uint (Py.slice data (Some (-8)) (Some (-4)))
                           default_factor) in
        ret (Some payload)
    end
  else ret None.

(** Lines 194 to 264: the scan of the payload.  The loop gets one pass
    per payload byte as its budget. *)
Definition scan_payload (payload : bytes) : M bool :=
  let payload_length := len payload in
  let payload_start := 0 in
  let result := false in
  let* result :=
    while_loop (Z.to_nat payload_length) payload payload_start result in
  if negb result then ret false else ret true.

(** [BThomeBluetoothDeviceData._parse_bthome] *)
Definition _parse_bthome (service_info : BluetoothServiceInfo) (name : str)
  (data : bytes) : M bool :=
  let* source_mac := read_address service_info in
  match source_mac with
  | None => ret false
  | Some source_mac =>
      set_names service_info name ;;;
      let* payload := select_payload service_info data source_mac in
      match payload with
      | None => ret false
      | Some payload => scan_payload payload
      end
  end.

End Parser.

(** ** The encrypted layout in the words of the specification *)

(** "Last 4 bytes = authentication tag, preceding 4 bytes =
    little-endian counter, everything before that = ciphertext." *)
Definition spec_ciphertext (data : bytes) : bytes :=
  take (length data - 8) data.
Definition spec_counter (data : bytes) : bytes :=
  take 4 (drop (length data - 8) data).
Definition spec_tag (data : bytes) : bytes :=
  drop (length data - 4) data.

(** "Concatenate, in order, the 6-byte source device MAC address, the
    2-byte little-endian advertised service identifier associated with
    the encrypted scheme (0x181E), and the 4-byte counter." *)
Definition spec_nonce (source_mac counter : bytes) : bytes :=
  source_mac ++ [x1e; x18] ++ counter.

(** "A single associated-data byte with fixed value 0x11, and the
    4-byte tag length." *)
Definition spec_associated_data : bytes := [x11].
Definition spec_tag_length : Z := 4.

(** The plaintext the cipher releases for a payload when it is called
    as the specification says, [None] when it releases none. *)
Definition verified_plaintext `{A : Cryptodome} (key data source_mac : bytes)
  : option bytes :=
  match AES_new key (spec_nonce source_mac (spec_counter data))
                spec_tag_length with
  | Some c =>
      match decrypt_and_verify (cipher_update c spec_associated_data)
                               (spec_ciphertext data) (spec_tag data) with
      | Plaintext p => Some p
      | _ => None
      end
  | None => None
  end.

(** ** The rounding rule in the words of the specification *)

(** The number of decimal places the specification names for a factor:
    minus the floor of its decimal logarithm (the factor is
    [m * 2 ^ e]; a zero factor has no logarithm and is given none). *)
Definition spec_decimal_places (factor : float) : Z :=
  match factor with
  | S754_finite _ m e =>
      - floor_log10 (Zpos m * 2 ^ Z.max e 0) (2 ^ Z.max (- e) 0)
  | _ => 0
  end.

(** ** Well-formed inputs *)

Definition is_hex (c : ascii) : bool :=
  match hex_value c with
  | Some _ => true
  | None => false
  end.

Definition is_colon (c : ascii) : bool := Ascii.eqb c ":".

(** A Bluetooth address as the stack reports it where the MAC is known:
    six pairs of hexadecimal digits separated by colons. *)
Definition is_mac_address (s : str) : bool :=
  match s with
  | [a1; a2; c1; b1; b2; c2; d1; d2; c3; e1; e2; c4; f1; f2; c5; g1; g2] =>
      forallb is_hex [a1; a2; b1; b2; d1; d2; e1; e2; f1; f2; g1; g2]
      && forallb is_colon [c1; c2; c3; c4; c5]
  | _ => false
  end.

(** ** Notions used in the further properties *)

(** [struct.unpack] as [parse_float] applies it to a span of 2, 4 or 8
    bytes. *)
Definition unpack (data : bytes) : float :=
  if len data =? 2 then unpack_e data
  else if len data =? 4 then unpack_f data
  else unpack_d data.

(** The float literals [0.1], [0.01], [0.001], ...: the float nearest
    to [10 ^ - k]. *)
Definition decimal_factor (k : Z) : float := float_of_ratio false 1 (10 ^ k).

(** The float nearest to the quotient [n / d] of two integers
    ([0 < d]), as Python's true division gives it. *)
Definition quotient (n d : Z) : float :=
  float_of_ratio (n <? 0) (Z.abs n) d.

(** A float is exactly the integer [n]. *)
Definition is_integer (x : float) (n : Z) : Prop :=
  match x with
  | S754_zero _ => n = 0
  | S754_finite s m e =>
      e <= 0 /\ Zpos m = Z.abs n * 2 ^ (- e) /\ s = (n <? 0)
  | _ => False
  end.

(** The canonical mantissa and exponent of a non-zero integer below
    [2 ^ 53]. *)
Definition int_mantissa (n : Z) : Z := Z.abs n * 2 ^ (53 - Zdigits2 n).
Definition int_exponent (n : Z) : Z := Zdigits2 n - 53.

(** What a scan can raise. *)
Definition scan_error (e : exn) : Prop :=
  e = IndexError \/ e = ValueError \/ e = OverflowError
  \/ e = UnicodeDecodeError.

Section Effects.
Context `{C : Const}.

(** A state after more sensor updates and log records. *)
Definition grow (u : list (sensor * float)) (l : list log_record)
  (s : state) : state :=
  {| bindkey := bindkey s; encryption_scheme := encryption_scheme s;
     mac_known := mac_known s; bindkey_verified := bindkey_verified s;
     device_name := device_name s; title := title s;
     sw_version := sw_version s;
     sensor_updates := sensor_updates s ++ u; log := log s ++ l |}.

(** The outcome of a scan that raised [e], or that went through, from
    the result it started with and the sensor updates [u] it made. *)
Definition scan_outcome (e : option exn) (u : list (sensor * float))
  (result : bool) : exc bool :=
  match e with
  | Some x => Err x
  | None => Ok (result || negb (bool_decide (u = [])))
  end.

(** How a pass through the loop body ends. *)
Inductive pass : Type :=
| Raised (e : exn)
| Broke
| Went (next_start : Z).

Definition pass_outcome (k : pass) (u : list (sensor * float))
  (result : bool) : exc control :=
  match k with
  | Raised e => Err e
  | Broke => Ok Break
  | Went n => Ok (Continue n (result || negb (bool_decide (u = []))))
  end.


End Effects.

(** ** Instances used in the examples *)

(** [BThomeBluetoothDeviceData.__init__] on a platform other than
    macOS. *)
Definition init `{C : Const} (bindkey : option bytes) : state :=
  {| bindkey := bindkey; encryption_scheme := NONE; mac_known := true;
     bindkey_verified := false; device_name := None; title := None;
     sw_version := None; sensor_updates := []; log := [] |}.

(** The float [0.01]. *)
Definition float_0_01 : float := float_of_ratio false 1 100.

(** [0.00099999999]: printed with six fractional digits it is
    [1.000000e-03]. *)
Definition float_0_00099999999 : float :=
  float_of_ratio false 99999999 (10 ^ 11).

(** A registry with the single entry of the specification's scenario:
    measurement type [0x02] with factor [0.01]. *)
Definition scenario_registry : gmap Z (MeasTypes str) :=
  {[ 2 := {| meas_format := list_ascii_of_string "temperature";
             factor := float_0_01 |} ]}.

#[local] Instance scenario_const : Const :=
  {| sensor := str; MEAS_TYPES := scenario_registry |}.

Definition xor_byte (a b : byte) : byte :=
  byte_of_Z (Z.lxor (byte_val a) (byte_val b)).

Fixpoint xor_stream (key data : bytes) : bytes :=
  match key, data with
  | k :: key', d :: data' => xor_byte k d :: xor_stream (key' ++ [k]) data'
  | _, _ => data
  end.

(** A stand-in for the cipher (it is not AES): the data is masked with
    the key, and the tag is the start of the masked nonce and
    associated data.  The constructor checks its arguments as the
    library documents them for CCM. *)
Definition toy_cipher : Type := (bytes * bytes * bytes)%type.

Definition toy_new (key nonce : bytes) (mac_len : Z) : option toy_cipher :=
  if (bool_decide (len key = 16) || bool_decide (len key = 24)
      || bool_decide (len key = 32))
     && (7 <=? len nonce) && (len nonce <=? 13)
     && (4 <=? mac_len) && (mac_len <=? 16) && Z.even mac_len
  then Some (key, nonce, [])
  else None.

Definition toy_update (c : toy_cipher) (assoc : bytes) : toy_cipher :=
  let '(key, nonce, aad) := c in (key, nonce, aad ++ assoc).

Definition toy_tag (c : toy_cipher) : bytes :=
  let '(key, nonce, aad) := c in take 4 (xor_stream key (aad ++ nonce)).

Definition toy_decrypt_and_verify (c : toy_cipher) (ciphertext tag : bytes)
  : verify_result :=
  let '(key, nonce, aad) := c in
  if bool_decide (tag = toy_tag c) then Plaintext (xor_stream key ciphertext)
  else MacCheckFailed.

Lemma toy_new_accepts key nonce :
  len key = 16 -> len nonce = 12 -> is_Some (toy_new key nonce 4).
Proof.
  intros Hk Hn. unfold toy_new. rewrite Hk, Hn. simpl. eauto.
Qed.

#[local] Instance toy_cryptodome : Cryptodome :=
  {| cipher := toy_cipher; AES_new := toy_new; cipher_update := toy_update;
     decrypt_and_verify := toy_decrypt_and_verify;
     AES_new_accepts := toy_new_accepts |}.

(** An encrypted advertisement for the stand-in cipher: the key 00..0F,
    the counter 1 and the plaintext [03 02 C4 09 02 02 10]. *)
Definition example_key : bytes :=
  [x00; x01; x02; x03; x04; x05; x06; x07;
   x08; x09; x0a; x0b; x0c; x0d; x0e; x0f].
Definition example_mac : bytes := [xa4; xc1; x38; x8d; x18; xb2].
Definition example_plaintext : bytes := [x03; x02; xc4; x09; x02; x02; x10].
Definition example_encrypted : bytes :=
  [x03; x03; xc6; x0a; x06; x07; x16;
   x01; x00; x00; x00;
   x11; xa5; xc3; x3b].

Definition si_plain : BluetoothServiceInfo :=
  {| name := list_ascii_of_string "Sensor";
     address := list_ascii_of_string "A4:C1:38:8D:18:B2";
     service_uuids := [uuid_plain] |}.
Definition si_enc : BluetoothServiceInfo :=
  {| name := list_ascii_of_string "Sensor";
     address := list_ascii_of_string "A4:C1:38:8D:18:B2";
     service_uuids := [uuid_encrypted] |}.

(** An identifier as macOS reports it in place of the address. *)
Definition si_foreign : BluetoothServiceInfo :=
  {| name := list_ascii_of_string "Sensor";
     address := list_ascii_of_string "5F2A8B1C-0D3E-4F60-9A7B-1C2D3E4F5A6B";
     service_uuids := [uuid_plain] |}.


(** * Properties *)

(** ** The runtime *)

Lemma len_nonneg {T} (l : list T) : 0 <= len l.
Proof. unfold len. lia. Qed.

Lemma index_in_range {T} (l : list T) (i : Z) :
  0 <= i < len l ->
  exists a, Py.index l i = Ok a /\ l !! Z.to_nat i = Some a.
Proof.
  intros [Hlo Hhi]. unfold Py.index.
  destruct (Z.ltb_spec i 0) as [|_]; [lia|].
  destruct (Z.ltb_spec i 0) as [|_]; [lia|].
  destruct (l !! Z.to_nat i) as [a|] eqn:E; [eauto|].
  apply lookup_ge_None in E. unfold len in Hhi. lia.
Qed.

Lemma index_past_end {T} (l : list T) (i : Z) :
  len l <= i -> Py.index l i = Err IndexError.
Proof.
  intros Hi. pose proof (len_nonneg l). unfold Py.index.
  destruct (Z.ltb_spec i 0) as [|_]; [lia|].
  destruct (Z.ltb_spec i 0) as [|_]; [lia|].
  destruct (l !! Z.to_nat i) as [a|] eqn:E; [|reflexivity].
  apply lookup_lt_Some in E. unfold len in Hi. lia.
Qed.

Lemma land_31 (x : Z) : Z.land x 31 = x mod 32.
Proof. change 31 with (Z.ones 5). now rewrite Z.land_ones by lia. Qed.

Lemma data_length_at_range payload i : 0 <= data_length_at payload i <= 31.
Proof.
  unfold data_length_at. rewrite Z.shiftr_0_r, land_31.
  pose proof (Z.mod_pos_bound (byte_at payload i) 32). lia.
Qed.

(** *** Printing and reading back the exponent of a factor *)

Lemma digit_char_spec d :
  0 <= d <= 9 ->
  is_digit (digit_char d) = true
  /\ Z.of_nat (nat_of_ascii (digit_char d)) - 48 = d.
Proof.
  intros Hd.
  assert (H : d = 0 \/ d = 1 \/ d = 2 \/ d = 3 \/ d = 4 \/ d = 5 \/ d = 6
              \/ d = 7 \/ d = 8 \/ d = 9) by lia.
  repeat (destruct H as [-> | H]; [split; reflexivity|]).
  subst. split; reflexivity.
Qed.

Lemma digits_value_app a0 s1 s2 :
  digits_value a0 (s1 ++ s2)
  = match digits_value a0 s1 with
    | Some v => digits_value v s2
    | None => None
    end.
Proof.
  revert a0. induction s1 as [|c s1 IH]; intros a0; [reflexivity|].
  cbn [app digits_value]. destruct (is_digit c); [apply IH|reflexivity].
Qed.

Lemma dec_digits_S fuel n acc :
  dec_digits (S fuel) n acc
  = if n <? 10 then digit_char (n mod 10) :: acc
    else dec_digits fuel (n / 10) (digit_char (n mod 10) :: acc).
Proof. reflexivity. Qed.

(** The digits written for [n], read back after any prefix value. *)
Lemma dec_digits_spec fuel n acc :
  0 <= n < 10 ^ Z.of_nat (S fuel) ->
  exists pre,
    dec_digits (S fuel) n acc = pre ++ acc
    /\ pre <> []
    /\ Forall (fun c => is_digit c = true) pre
    /\ forall a0, digits_value a0 pre = Some (a0 * 10 ^ len pre + n).
Proof.
  revert n acc. induction fuel as [|fuel IH]; intros n acc Hn.
  - change (10 ^ Z.of_nat 1) with 10 in Hn.
    destruct (digit_char_spec n) as [Hd Hv]; [lia|].
    exists [digit_char n]. rewrite dec_digits_S.
    rewrite Z.mod_small by lia.
    destruct (Z.ltb_spec n 10); [|lia].
    repeat split; [discriminate|repeat constructor; exact Hd|].
    intros a0. cbn [digits_value]. rewrite Hd, Hv.
    change (len [digit_char n]) with 1. f_equal. lia.
  - rewrite dec_digits_S.
    pose proof (Z.mod_pos_bound n 10 ltac:(lia)) as Hmod.
    destruct (digit_char_spec (n mod 10)) as [Hd Hv]; [lia|].
    destruct (Z.ltb_spec n 10) as [Hsmall|Hbig].
    + exists [digit_char (n mod 10)].
      repeat split; [discriminate|repeat constructor; exact Hd|].
      intros a0. cbn [digits_value]. rewrite Hd, Hv.
      change (len [digit_char (n mod 10)]) with 1.
      rewrite Z.mod_small by lia. f_equal. lia.
    + destruct (IH (n / 10) (digit_char (n mod 10) :: acc))
        as (pre & Epre & Hne & Hall & Hval).
      { split; [apply Z.div_pos; lia|].
        apply Z.div_lt_upper_bound; [lia|].
        replace (Z.of_nat (S (S fuel))) with (Z.of_nat (S fuel) + 1) in Hn
          by lia.
        rewrite Z.pow_add_r in Hn by lia. lia. }
      exists (pre ++ [digit_char (n mod 10)]).
      rewrite Epre, <- app_assoc. repeat split.
      * destruct pre; discriminate.
      * apply Forall_app. split; [exact Hall|repeat constructor; exact Hd].
      * intros a0. rewrite digits_value_app, Hval. cbn [digits_value].
        rewrite Hd, Hv. f_equal.
        unfold len. rewrite length_app. cbn [length].
        replace (Z.of_nat (length pre + 1)) with (Z.of_nat (length pre) + 1)
          by lia.
        rewrite Z.pow_add_r by lia. change (10 ^ 1) with 10.
        pose proof (Z.div_mod n 10 ltac:(lia)). lia.
Qed.

Lemma str_of_nat_spec n :
  0 <= n ->
  str_of_nat n <> []
  /\ Forall (fun c => is_digit c = true) (str_of_nat n)
  /\ digits_value 0 (str_of_nat n) = Some n.
Proof.
  intros Hn. unfold str_of_nat.
  destruct (dec_digits_spec (Z.to_nat (Z.log2 n)) n [])
    as (pre & Epre & Hne & Hall & Hval).
  { split; [lia|]. rewrite Nat2Z.inj_succ, Z2Nat.id by apply Z.log2_nonneg.
    destruct (Z.eq_dec n 0) as [->|]; [reflexivity|].
    pose proof (Z.log2_spec n ltac:(lia)) as [_ Hlt].
    assert (2 ^ Z.succ (Z.log2 n) <= 10 ^ Z.succ (Z.log2 n)).
    { apply Z.pow_le_mono_l. pose proof (Z.log2_nonneg n). lia. }
    lia. }
  rewrite Epre, app_nil_r. repeat split; [exact Hne|exact Hall|].
  rewrite Hval. reflexivity.
Qed.

Lemma split_no_sep sep s :
  Forall (fun c => Ascii.eqb c sep = false) s -> Py.split sep s = [s].
Proof.
  induction 1 as [|c s Hc _ IH]; [reflexivity|].
  cbn [Py.split]. now rewrite Hc, IH.
Qed.

Lemma split_at_sep sep pre post :
  Forall (fun c => Ascii.eqb c sep = false) pre ->
  Forall (fun c => Ascii.eqb c sep = false) post ->
  Py.split sep (pre ++ sep :: post) = [pre; post].
Proof.
  intros Hpre Hpost.
  induction Hpre as [|c pre Hc _ IH]; cbn [app Py.split].
  - now rewrite Ascii.eqb_refl, split_no_sep.
  - now rewrite Hc, IH.
Qed.

Lemma digit_not_e c : is_digit c = true -> Ascii.eqb c "e" = false.
Proof.
  intros Hc. destruct (Ascii.eqb_spec c "e") as [->|]; [|reflexivity].
  discriminate Hc.
Qed.

Lemma exponent_str_spec k :
  Forall (fun c => Ascii.eqb c "e" = false) (exponent_str k)
  /\ int_of_str (exponent_str k) = Ok k.
Proof.
  destruct (str_of_nat_spec (Z.abs k)) as (Hne & Hall & Hval); [lia|].
  assert (Hdigits :
    digits_int ((if Z.abs k <? 10 then ["0"%char] else [])
                  ++ str_of_nat (Z.abs k)) = Ok (Z.abs k)).
  { unfold digits_int.
    destruct (Z.abs k <? 10); cbn [app].
    - change (digits_value 0 ("0"%char :: str_of_nat (Z.abs k)))
        with (digits_value 0 (str_of_nat (Z.abs k))).
      now rewrite Hval.
    - destruct (str_of_nat (Z.abs k)); [congruence|]. now rewrite Hval. }
  split.
  - unfold exponent_str. constructor.
    + destruct (k <? 0); reflexivity.
    + apply Forall_app. split.
      * destruct (Z.abs k <? 10); repeat constructor.
      * eapply Forall_impl; [exact Hall|]. intros c. apply digit_not_e.
  - unfold exponent_str, int_of_str.
    destruct (Z.ltb_spec k 0); cbv iota beta; rewrite Hdigits;
      cbn [exc_bind]; f_equal; lia.
Qed.

Lemma mantissa_str_no_e n :
  Forall (fun c => Ascii.eqb c "e" = false) (mantissa_str n).
Proof.
  assert (Hd : forall x, Ascii.eqb (digit_char (x mod 10)) "e" = false).
  { intros x. apply digit_not_e.
    apply digit_char_spec. pose proof (Z.mod_pos_bound x 10). lia. }
  unfold mantissa_str. cbn [map]. repeat constructor; apply Hd.
Qed.

Lemma index_last_of_two {T} (a b : T) : Py.index [a; b] (-1) = Ok b.
Proof. reflexivity. Qed.

(** The number of decimal places of a finite factor is the negated
    exponent of its scientific notation. *)
Lemma decimal_places_finite x :
  is_finite x = true -> decimal_places x = Ok (- sci_exponent x).
Proof.
  intros Hfin. unfold decimal_places.
  assert (Hfmt : exists pre,
    format_e x = pre ++ "e"%char :: exponent_str (sci_exponent x)
    /\ Forall (fun c => Ascii.eqb c "e" = false) pre).
  { destruct x as [s|s| |s m e]; try discriminate; cbn [format_e sci_exponent].
    - exists (sign_str s ++ mantissa_str 0). rewrite <- app_assoc.
      split; [reflexivity|]. apply Forall_app.
      split; [destruct s; repeat constructor|apply mantissa_str_no_e].
    - destruct (sci7 m e) as [n k]. cbn [snd].
      exists (sign_str s ++ mantissa_str n). rewrite <- app_assoc.
      split; [reflexivity|]. apply Forall_app.
      split; [destruct s; repeat constructor|apply mantissa_str_no_e]. }
  destruct Hfmt as (pre & -> & Hpre).
  destruct (exponent_str_spec (sci_exponent x)) as [Hexp Hint].
  rewrite split_at_sep by assumption.
  rewrite index_last_of_two. cbn [exc_bind]. rewrite Hint. reflexivity.
Qed.

(** *** What the codecs can raise *)

Lemma split_not_nil sep s : Py.split sep s <> [].
Proof.
  destruct s as [|c rest]; simpl; [discriminate|].
  destruct (Ascii.eqb c sep); [discriminate|].
  destruct (Py.split sep rest); discriminate.
Qed.

Lemma index_last {T} (l : list T) :
  l <> [] -> exists a, Py.index l (-1) = Ok a.
Proof.
  intros Hl. unfold Py.index. simpl.
  assert (0 < len l) by (destruct l; [congruence|unfold len; simpl; lia]).
  destruct (Z.ltb_spec (-1 + len l) 0) as [|_]; [lia|].
  destruct (l !! Z.to_nat (-1 + len l)) as [a|] eqn:E; [eauto|].
  apply lookup_ge_None in E. unfold len in *. lia.
Qed.

Lemma digits_int_error s e : digits_int s = Err e -> e = ValueError.
Proof.
  unfold digits_int. destruct s; [congruence|].
  destruct (digits_value 0 _); congruence.
Qed.

Lemma int_of_str_error s e : int_of_str s = Err e -> e = ValueError.
Proof.
  unfold int_of_str. intros H.
  destruct s as [|c rest]; [now apply digits_int_error in H|].
  destruct c as [[] [] [] [] [] [] [] []];
    try (now apply digits_int_error in H);
    unfold exc_bind in H; destruct (digits_int rest) eqn:E;
      try discriminate; apply digits_int_error in E; congruence.
Qed.

Lemma decimal_places_error factor e :
  decimal_places factor = Err e -> e = ValueError.
Proof.
  unfold decimal_places.
  destruct (index_last (Py.split "e" (format_e factor))) as [a ->];
    [apply split_not_nil|].
  simpl. destruct (int_of_str a) eqn:E; simpl; [discriminate|].
  intros [= <-]. now apply int_of_str_error in E.
Qed.

Lemma float_of_int_error n e : float_of_int n = Err e -> e = OverflowError.
Proof. unfold float_of_int. destruct (float_of_Z n); congruence. Qed.

Lemma round_error x ndigits e : Py.round x ndigits = Err e -> e = OverflowError.
Proof.
  unfold Py.round. destruct x; try discriminate.
  destruct (323 <? ndigits); [discriminate|].
  destruct (ndigits <? -308); [discriminate|].
  cbv zeta. destruct (float_of_ratio _ _ _); congruence.
Qed.

(** The exceptions of the numeric codecs: [ValueError] from the
    formatting of a factor that is not finite, [OverflowError] from the
    float arithmetic. *)
Definition numeric_error (e : exn) : Prop := e = ValueError \/ e = OverflowError.

Lemma parse_uint_error data factor e :
  parse_uint data factor = Err e -> numeric_error e.
Proof.
  unfold parse_uint, numeric_error.
  destruct (decimal_places factor) eqn:E1; simpl;
    [|intros [= <-]; apply decimal_places_error in E1; auto].
  destruct (float_of_int _) eqn:E2; simpl;
    [|intros [= <-]; apply float_of_int_error in E2; auto].
  intros H. apply round_error in H. auto.
Qed.

Lemma parse_int_error data factor e :
  parse_int data factor = Err e -> numeric_error e.
Proof.
  unfold parse_int, numeric_error.
  destruct (decimal_places factor) eqn:E1; simpl;
    [|intros [= <-]; apply decimal_places_error in E1; auto].
  destruct (float_of_int _) eqn:E2; simpl;
    [|intros [= <-]; apply float_of_int_error in E2; auto].
  intros H. apply round_error in H. auto.
Qed.

Lemma parse_float_error data factor e :
  fst (parse_float data factor) = Err e -> numeric_error e.
Proof.
  unfold parse_float, numeric_error.
  destruct (decimal_places factor) as [places|e'] eqn:E1;
    [|cbn [fst]; intros [= <-]; apply decimal_places_error in E1; auto].
  assert (Hfin : forall val,
    exc_bind (Py.round (float_mul val factor) places)
             (fun r => Ok (Some r)) = Err e -> e = OverflowError).
  { intros val. destruct (Py.round _ places) eqn:E2; cbn [exc_bind];
      [discriminate|]. intros [= <-]. now apply round_error in E2. }
  cbv zeta.
  destruct (len data =? 2); [cbn [fst]; intros H; apply Hfin in H; auto|].
  destruct (len data =? 4); [cbn [fst]; intros H; apply Hfin in H; auto|].
  destruct (len data =? 8); [cbn [fst]; intros H; apply Hfin in H; auto|].
  cbn [fst]. discriminate.
Qed.

Lemma parse_string_error data e :
  parse_string data = Err e -> e = UnicodeDecodeError.
Proof.
  unfold parse_string, decode_utf8. destruct (utf8_decode _); congruence.
Qed.

(** ** Slices of an encrypted payload *)

Lemma clamp_negative n i : i < 0 -> 0 <= i + n -> clamp n i = i + n.
Proof.
  intros Hi Hn. unfold clamp. destruct (Z.ltb_spec i 0); lia.
Qed.

Lemma slice_ciphertext (data : bytes) :
  8 <= len data -> Py.slice data None (Some (-8)) = spec_ciphertext data.
Proof.
  intros H. unfold Py.slice, spec_ciphertext.
  rewrite clamp_negative by lia. cbn [Z.to_nat drop]. f_equal.
  unfold len in *. lia.
Qed.

Lemma slice_counter (data : bytes) :
  8 <= len data -> Py.slice data (Some (-8)) (Some (-4)) = spec_counter data.
Proof.
  intros H. unfold Py.slice, spec_counter.
  rewrite !clamp_negative by lia.
  replace (Z.to_nat (-4 + len data - (-8 + len data))) with 4%nat by lia.
  do 2 f_equal. unfold len in *. lia.
Qed.

Lemma slice_tag (data : bytes) :
  8 <= len data -> Py.slice data (Some (-4)) None = spec_tag data.
Proof.
  intros H. unfold Py.slice, spec_tag.
  rewrite clamp_negative by lia.
  replace (Z.to_nat (-4 + len data)) with (length data - 4)%nat
    by (unfold len in *; lia).
  apply take_ge. rewrite length_drop. unfold len in *. lia.
Qed.

Lemma spec_layout (data : bytes) :
  8 <= len data ->
  data = spec_ciphertext data ++ spec_counter data ++ spec_tag data
  /\ len (spec_counter data) = 4
  /\ len (spec_tag data) = 4.
Proof.
  intros H. unfold spec_ciphertext, spec_counter, spec_tag, len in *.
  repeat split.
  - rewrite <- (take_drop (length data - 8) data) at 1. f_equal.
    rewrite <- (take_drop 4 (drop (length data - 8) data)) at 1. f_equal.
    rewrite drop_drop. f_equal. lia.
  - rewrite length_take, length_drop. lia.
  - rewrite length_drop. lia.
Qed.

(** ** Addresses *)

Lemma is_hex_spec c :
  is_hex c = true ->
  c <> ":"%char /\ is_space c = false /\ exists v, hex_value c = Some v.
Proof.
  destruct c as [[] [] [] [] [] [] [] []]; try discriminate;
    intros _; repeat split; try discriminate; eexists; reflexivity.
Qed.

Lemma remove_char_keep old c s :
  c <> old -> remove_char old (c :: s) = c :: remove_char old s.
Proof. intros Hc. unfold remove_char. now rewrite filter_cons_True. Qed.

Lemma remove_char_drop old s : remove_char old (old :: s) = remove_char old s.
Proof. unfold remove_char. rewrite filter_cons_False; [reflexivity|auto]. Qed.

Lemma fromhex_pair c d rest :
  is_hex c = true -> is_hex d = true ->
  fromhex (c :: d :: rest)
  = exc_bind (fromhex rest) (fun tl =>
      Ok (byte_of_Z (16 * default 0 (hex_value c) + default 0 (hex_value d))
            :: tl)).
Proof.
  intros Hc Hd.
  destruct (is_hex_spec c Hc) as (_ & Hsp & vc & Evc).
  destruct (is_hex_spec d Hd) as (_ & _ & vd & Evd).
  cbn [fromhex]. rewrite Hsp, Evc, Evd. reflexivity.
Qed.

(** The bytes of a well-formed address: [bytes.fromhex] succeeds on it
    without its colons and gives six bytes. *)
Lemma fromhex_mac_address s :
  is_mac_address s = true ->
  len s = 17
  /\ exists mac, fromhex (remove_char ":" s) = Ok mac /\ len mac = 6.
Proof.
  unfold is_mac_address.
  do 17 (destruct s as [|? s]; [discriminate|]).
  destruct s; [|discriminate].
  cbn [forallb]. rewrite !andb_true_iff. unfold is_colon.
  rewrite !Ascii.eqb_eq.
  intros [(?&?&?&?&?&?&?&?&?&?&?&?&_) (->&->&->&->&->&_)].
  split; [reflexivity|].
  repeat first [ rewrite remove_char_drop
               | rewrite remove_char_keep
                   by (now apply is_hex_spec) ].
  change (remove_char ":" []) with (@nil ascii).
  rewrite !fromhex_pair by assumption.
  cbn [fromhex exc_bind]. eexists. split; reflexivity.
Qed.

(** ** Binary64 rounding *)

Lemma fexp_eq d : fexp prec emax d = Z.max (d - 53) (-1074).
Proof. reflexivity. Qed.

Lemma digits2_pos_size p : digits2_pos p = Pos.size p.
Proof. induction p; simpl; congruence. Qed.

Lemma Zdigits2_log2 m : 0 < m -> Zdigits2 m = Z.log2 m + 1.
Proof.
  destruct m as [|p|p]; try lia. intros _.
  unfold Zdigits2. rewrite digits2_pos_size.
  destruct p; simpl; try reflexivity; rewrite Pos2Z.inj_succ; lia.
Qed.

Lemma Zdigits2_nonneg m : 0 <= Zdigits2 m.
Proof. destruct m; simpl; lia. Qed.

Lemma Zdigits2_bounds m :
  0 < m -> 2 ^ (Zdigits2 m - 1) <= m < 2 ^ Zdigits2 m.
Proof.
  intros Hm. rewrite Zdigits2_log2 by assumption.
  replace (Z.log2 m + 1 - 1) with (Z.log2 m) by lia.
  replace (Z.log2 m + 1) with (Z.succ (Z.log2 m)) by lia.
  apply Z.log2_spec. assumption.
Qed.

Lemma Zdigits2_le_iff m k :
  0 <= m -> 0 <= k -> Zdigits2 m <= k <-> m < 2 ^ k.
Proof.
  intros Hm Hk.
  destruct (Z.eq_dec m 0) as [->|Hne].
  - simpl. split; intros; [apply Z.pow_pos_nonneg|]; lia.
  - assert (0 < m) as Hpos by lia.
    pose proof (Zdigits2_bounds m Hpos) as [Hlo Hhi].
    pose proof (Zdigits2_nonneg m).
    split; intros H'.
    + eapply Z.lt_le_trans; [exact Hhi|].
      apply Z.pow_le_mono_r; lia.
    + destruct (Z_le_gt_dec (Zdigits2 m) k) as [|Hgt]; [assumption|].
      exfalso.
      assert (2 ^ k <= 2 ^ (Zdigits2 m - 1)) by (apply Z.pow_le_mono_r; lia).
      lia.
Qed.

Lemma Zdigits2_le m n : 0 <= m <= n -> Zdigits2 m <= Zdigits2 n.
Proof.
  intros [Hm Hmn].
  apply Zdigits2_le_iff; [assumption|apply Zdigits2_nonneg|].
  destruct (Z.eq_dec n 0) as [->|Hne].
  - replace m with 0 by lia. simpl. lia.
  - pose proof (Zdigits2_bounds n ltac:(lia)). lia.
Qed.

Lemma Zdigits2_mul_pow2 m k :
  0 < m -> 0 <= k -> Zdigits2 (m * 2 ^ k) = Zdigits2 m + k.
Proof.
  intros Hm Hk.
  assert (0 < 2 ^ k) by (apply Z.pow_pos_nonneg; lia).
  rewrite !Zdigits2_log2 by nia.
  rewrite Z.log2_mul_pow2 by lia. lia.
Qed.

Lemma Zdigits2_div_pow2 m k :
  0 <= m -> 0 <= k -> Zdigits2 (m / 2 ^ k) = Z.max (Zdigits2 m - k) 0.
Proof.
  intros Hm Hk.
  assert (0 < 2 ^ k) as Hp by (apply Z.pow_pos_nonneg; lia).
  destruct (Z_lt_le_dec m (2 ^ k)) as [Hlt|Hge].
  - rewrite Z.div_small by lia.
    assert (Zdigits2 m <= k) by (apply Zdigits2_le_iff; lia).
    simpl. lia.
  - assert (0 < m / 2 ^ k).
    { apply Z.div_str_pos. lia. }
    assert (0 < m) by lia.
    rewrite !Zdigits2_log2 by lia.
    rewrite <- Z.shiftr_div_pow2 by lia.
    rewrite Z.log2_shiftr by lia.
    assert (k <= Z.log2 m) by (apply Z.log2_le_pow2; lia).
    lia.
Qed.

Lemma Zdigits2_succ m : 0 <= m -> Zdigits2 (m + 1) <= Zdigits2 m + 1.
Proof.
  intros Hm.
  pose proof (Zdigits2_nonneg m).
  apply Zdigits2_le_iff; [lia|lia|].
  rewrite Z.pow_add_r by lia.
  destruct (Z.eq_dec m 0) as [->|Hne].
  - simpl. lia.
  - pose proof (Zdigits2_bounds m ltac:(lia)). lia.
Qed.

(** Shifts *)

Lemma shr_1_m mrs : 0 <= shr_m mrs -> shr_m (shr_1 mrs) = shr_m mrs / 2.
Proof.
  destruct mrs as [m r s]. cbn [shr_m]. intros Hm.
  destruct m as [|p|p]; [reflexivity| |lia].
  destruct p as [p|p|]; cbn [shr_1 shr_m].
  - rewrite Pos2Z.inj_xI. apply Z.div_unique with 1; lia.
  - rewrite Pos2Z.inj_xO. apply Z.div_unique with 0; lia.
  - reflexivity.
Qed.

Lemma shr_1_nonneg mrs : 0 <= shr_m mrs -> 0 <= shr_m (shr_1 mrs).
Proof.
  intros H. rewrite shr_1_m by assumption. apply Z.div_pos; lia.
Qed.

Lemma pow2_xI p : 2 ^ Z.pos p~1 = 2 * (2 ^ Z.pos p * 2 ^ Z.pos p).
Proof.
  rewrite <- Z.pow_add_r by lia. rewrite <- Z.pow_succ_r by lia.
  f_equal. lia.
Qed.

Lemma pow2_xO p : 2 ^ Z.pos p~0 = 2 ^ Z.pos p * 2 ^ Z.pos p.
Proof. rewrite <- Z.pow_add_r by lia. f_equal. lia. Qed.

Lemma pow2_pos k : 0 <= k -> 0 < 2 ^ k.
Proof. intros. apply Z.pow_pos_nonneg; lia. Qed.

Lemma iter_shr_1_m p : forall mrs,
  0 <= shr_m mrs ->
  shr_m (SpecFloat.iter_pos shr_1 p mrs) = shr_m mrs / 2 ^ Zpos p.
Proof.
  induction p as [p IH|p IH|]; intros mrs Hm; cbn [SpecFloat.iter_pos].
  - pose proof (pow2_pos (Zpos p) ltac:(lia)) as Hp.
    assert (0 <= shr_m (shr_1 mrs)) as H1 by (apply shr_1_nonneg; assumption).
    assert (0 <= shr_m (SpecFloat.iter_pos shr_1 p (shr_1 mrs))) as H2.
    { rewrite IH by assumption. apply Z.div_pos; lia. }
    rewrite IH by assumption. rewrite IH by assumption.
    rewrite shr_1_m by assumption.
    rewrite !Z.div_div by lia.
    rewrite pow2_xI. reflexivity.
  - pose proof (pow2_pos (Zpos p) ltac:(lia)) as Hp.
    assert (0 <= shr_m (SpecFloat.iter_pos shr_1 p mrs)) as H2.
    { rewrite IH by assumption. apply Z.div_pos; lia. }
    rewrite IH by assumption. rewrite IH by assumption.
    rewrite !Z.div_div by lia.
    rewrite pow2_xO. reflexivity.
  - rewrite shr_1_m by assumption. reflexivity.
Qed.

Lemma shr_1_exact m :
  0 <= m ->
  shr_1 {| shr_m := 2 * m; shr_r := false; shr_s := false |}
    = {| shr_m := m; shr_r := false; shr_s := false |}.
Proof. destruct m; intros; try lia; reflexivity. Qed.

Lemma iter_shr_1_exact p : forall m,
  0 <= m ->
  SpecFloat.iter_pos shr_1 p {| shr_m := m * 2 ^ Zpos p; shr_r := false; shr_s := false |}
    = {| shr_m := m; shr_r := false; shr_s := false |}.
Proof.
  induction p as [p IH|p IH|]; intros m Hm; cbn [SpecFloat.iter_pos].
  - pose proof (pow2_pos (Zpos p) ltac:(lia)) as Hp.
    rewrite pow2_xI.
    replace (m * (2 * (2 ^ Z.pos p * 2 ^ Z.pos p)))
      with (2 * ((m * 2 ^ Zpos p) * 2 ^ Zpos p)) by lia.
    rewrite shr_1_exact by nia. rewrite IH by nia. apply IH. assumption.
  - pose proof (pow2_pos (Zpos p) ltac:(lia)) as Hp.
    rewrite pow2_xO.
    replace (m * (2 ^ Z.pos p * 2 ^ Z.pos p))
      with ((m * 2 ^ Zpos p) * 2 ^ Zpos p) by lia.
    rewrite IH by nia. apply IH. assumption.
  - replace (m * 2 ^ 1) with (2 * m) by lia. apply shr_1_exact. assumption.
Qed.

Lemma shr_m_of_loc m l : shr_m (shr_record_of_loc m l) = m.
Proof. destruct l as [|[]]; reflexivity. Qed.

(** What [shr_fexp] does to the mantissa and the exponent. *)
Lemma shr_fexp_spec m e l :
  0 <= m ->
  snd (shr_fexp prec emax m e l) = Z.max e (fexp prec emax (Zdigits2 m + e))
  /\ shr_m (fst (shr_fexp prec emax m e l))
     = m / 2 ^ (Z.max e (fexp prec emax (Zdigits2 m + e)) - e).
Proof.
  intros Hm. unfold shr_fexp, shr.
  destruct (fexp prec emax (Zdigits2 m + e) - e) as [|p|p] eqn:En;
    cbn [fst snd].
  - rewrite Z.max_l by lia. rewrite Z.sub_diag, shr_m_of_loc, Z.div_1_r.
    split; reflexivity.
  - rewrite Z.max_r by lia.
    rewrite iter_shr_1_m by (rewrite shr_m_of_loc; assumption).
    rewrite shr_m_of_loc, En. split; [lia|reflexivity].
  - rewrite Z.max_l by lia. rewrite Z.sub_diag, shr_m_of_loc, Z.div_1_r.
    split; reflexivity.
Qed.

Lemma shr_fexp_digits m e l :
  0 <= m ->
  let r := shr_fexp prec emax m e l in
  0 <= shr_m (fst r)
  /\ Zdigits2 (shr_m (fst r)) <= 53
  /\ snd r = Z.max e (Z.max (Zdigits2 m + e - 53) (-1074))
  /\ Zdigits2 (shr_m (fst r)) + snd r = Z.max (Zdigits2 m + e) (snd r).
Proof.
  intros Hm r. subst r.
  destruct (shr_fexp_spec m e l Hm) as [He Hq].
  rewrite He, Hq, fexp_eq.
  set (e' := Z.max e (Z.max (Zdigits2 m + e - 53) (-1074))).
  assert (0 <= e' - e) by lia.
  pose proof (pow2_pos (e' - e) ltac:(lia)).
  rewrite Zdigits2_div_pow2 by lia.
  repeat split; try lia.
  apply Z.div_pos; lia.
Qed.

Lemma round_nearest_even_bounds m l :
  m <= round_nearest_even m l <= m + 1.
Proof.
  destruct l as [|[]]; cbn [round_nearest_even]; try lia.
  destruct (Z.even m); lia.
Qed.

Ltac round_aux_cases m e l Hm :=
  unfold binary_round_aux;
  let mrs1 := fresh "mrs1" in
  let e1 := fresh "e1" in
  let E1 := fresh "E1" in
  let mrs2 := fresh "mrs2" in
  let e2 := fresh "e2" in
  let E2 := fresh "E2" in
  pose proof (shr_fexp_digits m e l Hm) as E1; cbv zeta in E1;
  destruct (shr_fexp prec emax m e l) as [mrs1 e1]; cbn [fst snd] in E1;
  pose proof (round_nearest_even_bounds (shr_m mrs1) (loc_of_shr_record mrs1));
  pose proof (shr_fexp_digits
                (round_nearest_even (shr_m mrs1) (loc_of_shr_record mrs1))
                e1 loc_Exact ltac:(lia)) as E2; cbv zeta in E2;
  destruct (shr_fexp prec emax
              (round_nearest_even (shr_m mrs1) (loc_of_shr_record mrs1))
              e1 loc_Exact) as [mrs2 e2]; cbn [fst snd] in E2.

(** A finite result of the rounding has at most 53 bits and an exponent
    of at most 971, whatever is rounded. *)
Lemma binary_round_aux_bounded s m e l s' m' e' :
  0 <= m ->
  binary_round_aux prec emax s m e l = S754_finite s' m' e' ->
  Zdigits2 (Zpos m') <= 53 /\ e' <= 971.
Proof.
  intros Hm. round_aux_cases m e l Hm.
  destruct (shr_m mrs2) as [|p|p] eqn:Em; try discriminate.
  destruct (e2 <=? emax - prec) eqn:Ee; try discriminate.
  intros [= <- <- <-]. apply Z.leb_le in Ee.
  split; [apply E2|]. exact Ee.
Qed.

(** The rounding does not overflow below [2 ^ 1023]. *)
Lemma binary_round_aux_no_overflow s m e l :
  0 <= m -> Zdigits2 m + e <= 1023 -> e <= 971 ->
  forall s', binary_round_aux prec emax s m e l <> S754_infinity s'.
Proof.
  intros Hm Hd He s'. round_aux_cases m e l Hm.
  destruct (shr_m mrs2) as [|p|p] eqn:Em; try discriminate.
  destruct (e2 <=? emax - prec) eqn:Ee; try discriminate.
  exfalso. apply Z.leb_gt in Ee. change (emax - prec) with 971 in Ee.
  destruct E1 as (H1 & H2 & H3 & H4).
  destruct E2 as (H5 & H6 & H7 & H8).
  pose proof (Zdigits2_succ (shr_m mrs1) H1).
  pose proof (Zdigits2_le (shr_m mrs1)
                (round_nearest_even (shr_m mrs1) (loc_of_shr_record mrs1))
                ltac:(lia)).
  pose proof (Zdigits2_le
                (round_nearest_even (shr_m mrs1) (loc_of_shr_record mrs1))
                (shr_m mrs1 + 1) ltac:(lia)).
  lia.
Qed.

(** Shifting out zero bits only is exact. *)
Lemma shr_fexp_exact M k E :
  0 < M -> 0 <= k -> fexp prec emax (Zdigits2 M + E) <= E ->
  exists j,
    0 <= j
    /\ E - j = Z.max (E - k) (fexp prec emax (Zdigits2 M + E))
    /\ shr_fexp prec emax (M * 2 ^ k) (E - k) loc_Exact
       = ({| shr_m := M * 2 ^ j; shr_r := false; shr_s := false |}, E - j).
Proof.
  intros HM Hk HF. unfold shr_fexp.
  rewrite Zdigits2_mul_pow2 by lia.
  replace (Zdigits2 M + k + (E - k)) with (Zdigits2 M + E) by lia.
  set (F := fexp prec emax (Zdigits2 M + E)) in *.
  cbn [shr_record_of_loc]. unfold shr.
  destruct (F - (E - k)) as [|p|p] eqn:En.
  - exists k. repeat split; [lia|lia].
  - exists (E - F). split; [lia|]. split; [lia|].
    replace (M * 2 ^ k) with ((M * 2 ^ (E - F)) * 2 ^ Zpos p).
    + rewrite iter_shr_1_exact.
      * f_equal. lia.
      * pose proof (pow2_pos (E - F) ltac:(lia)). nia.
    + rewrite <- Z.mul_assoc, <- Z.pow_add_r by lia. do 2 f_equal. lia.
  - exists k. repeat split; [lia|lia].
Qed.

(** Rounding a number that is already a float of at most 53 bits does
    not overflow. *)
Lemma binary_round_aux_exact s M k E :
  0 < M -> Zdigits2 M <= 53 -> 0 <= k -> -1074 <= E <= 971 ->
  forall s',
    binary_round_aux prec emax s (M * 2 ^ k) (E - k) loc_Exact
      <> S754_infinity s'.
Proof.
  intros HM HdM Hk HE s'.
  assert (fexp prec emax (Zdigits2 M + E) <= E) as HF
    by (rewrite fexp_eq; lia).
  destruct (shr_fexp_exact M k E HM Hk HF) as (j & Hj & Hej & E1).
  destruct (shr_fexp_exact M j E HM Hj HF) as (j' & Hj' & Hej' & E2).
  unfold binary_round_aux. rewrite E1.
  cbn [shr_m loc_of_shr_record round_nearest_even].
  rewrite E2. cbn [shr_m].
  pose proof (pow2_pos j' Hj').
  destruct (M * 2 ^ j') as [|p|p] eqn:Em; try discriminate.
  destruct (E - j' <=? emax - prec) eqn:Ee; try discriminate.
  apply Z.leb_gt in Ee. change (emax - prec) with 971 in Ee. lia.
Qed.

Lemma iter_xO_value p d : Zpos (Pos.iter xO p d) = Zpos p * 2 ^ Zpos d.
Proof.
  induction d as [|d IH] using Pos.peano_ind.
  - cbn [Pos.iter]. lia.
  - rewrite Pos.iter_succ, Pos2Z.inj_xO, IH, Pos2Z.inj_succ.
    rewrite Z.pow_succ_r by lia. lia.
Qed.

Lemma shl_align_spec mx ex ex' :
  let '(mz, ez) := shl_align mx ex ex' in
  ez <= ex /\ Zpos mz = Zpos mx * 2 ^ (ex - ez).
Proof.
  unfold shl_align.
  destruct (ex' - ex) as [|d|d] eqn:Ed.
  - rewrite Z.sub_diag. lia.
  - rewrite Z.sub_diag. lia.
  - rewrite iter_xO_value. split; [lia|]. do 2 f_equal. lia.
Qed.

(** An integer below [2 ^ 1023] converts to a float. *)
Lemma float_of_Z_no_overflow n :
  0 <= n < 2 ^ 1023 -> forall s, float_of_Z n <> S754_infinity s.
Proof.
  intros [Hn Hlt] s. unfold float_of_Z, binary_normalize.
  destruct n as [|p|p]; [discriminate| |lia].
  unfold binary_round.
  pose proof (shl_align_spec p 0
                (fexp prec emax (Zpos (digits2_pos p) + 0))) as Hs.
  destruct (shl_align p 0 (fexp prec emax (Zpos (digits2_pos p) + 0)))
    as [mz ez].
  destruct Hs as [Hez Hmz].
  apply binary_round_aux_no_overflow; [lia| |lia].
  rewrite Hmz, Zdigits2_mul_pow2 by lia.
  assert (Zdigits2 (Zpos p) <= 1023) by (apply Zdigits2_le_iff; lia).
  lia.
Qed.

Lemma float_of_int_ok n :
  0 <= n < 2 ^ 1023 -> float_of_int n = Ok (float_of_Z n).
Proof.
  intros Hn. unfold float_of_int.
  pose proof (float_of_Z_no_overflow n Hn) as H.
  destruct (float_of_Z n); try reflexivity.
  exfalso. eapply H. reflexivity.
Qed.

(** A finite product has at most 53 bits and an exponent of at most
    971. *)
Lemma float_mul_bounded x y s m e :
  float_mul x y = S754_finite s m e ->
  Zdigits2 (Zpos m) <= 53 /\ e <= 971.
Proof.
  unfold float_mul, SFmul.
  destruct x as [sx|sx| |sx mx ex], y as [sy|sy| |sy my ey];
    try discriminate.
  apply binary_round_aux_bounded. lia.
Qed.

(** The quotient that [float_of_ratio] rounds. *)
Lemma SFdiv_core_binary_spec p q :
  0 < p -> 0 < q ->
  exists k,
    0 <= k
    /\ SFdiv_core_binary prec emax p 0 q 0
       = (p * 2 ^ k / q, - k, new_location q (p * 2 ^ k mod q)).
Proof.
  intros Hp Hq. unfold SFdiv_core_binary.
  set (e' := Z.min _ _).
  assert (e' <= 0) as He' by (subst e'; lia).
  exists (- e'). split; [lia|].
  replace (0 - 0 - e') with (- e') by lia.
  assert (match - e' with
          | 0 => p
          | Z.pos _ => Z.shiftl p (- e')
          | Z.neg _ => 0
          end = p * 2 ^ (- e')) as ->.
  { destruct (- e') as [|k|k] eqn:Ek; [simpl; lia| |lia].
    apply Z.shiftl_mul_pow2. lia. }
  unfold Z.div, Z.modulo.
  destruct (Z.div_eucl (p * 2 ^ (- e')) q) as [a b].
  cbn [fst snd]. f_equal. f_equal. lia.
Qed.

Lemma new_location_0 q : new_location q 0 = loc_Exact.
Proof. unfold new_location. destruct (Z.even q); reflexivity. Qed.

(** A ratio below [2 ^ 1023] converts to a float. *)
Lemma float_of_ratio_small s p q c :
  0 <= p -> 0 < q -> 0 <= c <= 1023 -> p < 2 ^ c * q ->
  forall s', float_of_ratio s p q <> S754_infinity s'.
Proof.
  intros Hp Hq Hc Hlt s'. unfold float_of_ratio.
  destruct (p =? 0) eqn:E0; [discriminate|].
  apply Z.eqb_neq in E0.
  destruct (SFdiv_core_binary_spec p q ltac:(lia) Hq) as (k & Hk & ->).
  pose proof (pow2_pos k Hk). pose proof (pow2_pos c ltac:(lia)).
  assert (0 <= p * 2 ^ k / q) by (apply Z.div_pos; nia).
  apply binary_round_aux_no_overflow; [assumption| |lia].
  assert (Zdigits2 (p * 2 ^ k / q) <= c + k); [|lia].
  apply Zdigits2_le_iff; [assumption|lia|].
  apply Z.div_lt_upper_bound; [assumption|].
  rewrite Z.pow_add_r by lia. nia.
Qed.

(** The ratio of a float of at most 53 bits converts to it. *)
Lemma float_of_ratio_exact s M E q :
  0 < M -> Zdigits2 M <= 53 -> 0 <= E <= 971 -> 0 < q ->
  forall s', float_of_ratio s (M * 2 ^ E * q) q <> S754_infinity s'.
Proof.
  intros HM HdM HE Hq s'. unfold float_of_ratio.
  pose proof (pow2_pos E ltac:(lia)).
  destruct (M * 2 ^ E * q =? 0) eqn:E0; [discriminate|].
  destruct (SFdiv_core_binary_spec (M * 2 ^ E * q) q ltac:(nia) Hq)
    as (k & Hk & ->).
  replace (M * 2 ^ E * q * 2 ^ k) with (M * 2 ^ (E + k) * q)
    by (rewrite Z.pow_add_r by lia; lia).
  rewrite Z.mod_mul, Z.div_mul, new_location_0 by lia.
  replace (- k) with (E - (E + k)) by lia.
  apply binary_round_aux_exact; lia.
Qed.

Lemma round_half_even_bounds num den :
  0 <= num -> 0 < den ->
  num / den <= round_half_even num den <= num / den + 1.
Proof.
  intros Hn Hd. unfold round_half_even.
  destruct (2 * (num mod den) ?= den); [|lia|lia].
  destruct (Z.even (num / den)); lia.
Qed.

Lemma round_half_even_1 num : round_half_even num 1 = num.
Proof.
  unfold round_half_even. rewrite Z.mod_1_r, Z.div_1_r. reflexivity.
Qed.

Lemma pow10_pos k : 0 <= k -> 0 < 10 ^ k.
Proof. intros. apply Z.pow_pos_nonneg; lia. Qed.

(** Rounding a float of at most 53 bits to a non-negative number of
    places gives a float. *)
Lemma round_ok s m e ndigits :
  Zdigits2 (Zpos m) <= 53 -> e <= 971 -> 0 <= ndigits ->
  exists r, Py.round (S754_finite s m e) ndigits = Ok r.
Proof.
  intros Hd He Hnd. unfold Py.round.
  destruct (323 <? ndigits); [eauto|].
  destruct (ndigits <? -308) eqn:Elo; [apply Z.ltb_lt in Elo; lia|].
  cbv zeta.
  rewrite (Z.max_r (- ndigits) 0), (Z.max_l ndigits 0) by lia.
  change (10 ^ 0) with 1. rewrite !Z.mul_1_r.
  pose proof (pow10_pos ndigits Hnd) as H10.
  match goal with
  | |- exists r, match ?f with _ => _ end = _ =>
      assert (forall s', f <> S754_infinity s') as Hf;
        [|destruct f; eauto; exfalso; eapply Hf; reflexivity]
  end.
  destruct (Z_le_gt_dec 0 e) as [Hpos|Hneg].
  - rewrite (Z.max_l e 0), (Z.max_r (- e) 0) by lia.
    change (2 ^ 0) with 1. rewrite round_half_even_1.
    apply float_of_ratio_exact; lia.
  - rewrite (Z.max_r e 0), (Z.max_l (- e) 0) by lia.
    change (2 ^ 0) with 1. rewrite Z.mul_1_r.
    pose proof (pow2_pos (- e) ltac:(lia)) as H2.
    pose proof (round_half_even_bounds (Zpos m * 10 ^ ndigits) (2 ^ (- e))
                  ltac:(nia) H2) as [Hlo Hhi].
    assert (0 <= Z.pos m * 10 ^ ndigits / 2 ^ (- e)) by (apply Z.div_pos; nia).
    assert (Z.pos m * 10 ^ ndigits / 2 ^ (- e) <= Z.pos m * 10 ^ ndigits).
    { apply Z.div_le_upper_bound; [assumption|]. nia. }
    assert (Zpos m < 2 ^ 53) by (apply Zdigits2_le_iff; lia).
    apply float_of_ratio_small with (c := 54); [lia|assumption|lia|].
    change (2 ^ 54) with (2 * 2 ^ 53). nia.
Qed.

(** ** The unsigned codec *)

Lemma byte_val_range b : 0 <= byte_val b < 256.
Proof. unfold byte_val. pose proof (Byte.to_N_bounded b). lia. Qed.

Lemma int_from_bytes_unsigned_range data :
  0 <= int_from_bytes_unsigned data < 256 ^ len data.
Proof.
  induction data as [|b rest IH].
  - unfold len. cbn [length int_from_bytes_unsigned].
    change (Z.of_nat 0) with 0. rewrite Z.pow_0_r. lia.
  - cbn [int_from_bytes_unsigned]. unfold len in *. cbn [length].
    rewrite Nat2Z.inj_succ, Z.pow_succ_r by lia.
    pose proof (byte_val_range b). lia.
Qed.

Lemma floor_log10_from_spec p q fuel : forall k,
  pow10_le (k + 1) p q = false ->
  pow10_le (k - Z.of_nat fuel) p q = true ->
  pow10_le (floor_log10_from fuel k p q) p q = true
  /\ pow10_le (floor_log10_from fuel k p q + 1) p q = false.
Proof.
  induction fuel as [|fuel IH]; intros k Hhi Hlo.
  - cbn [floor_log10_from]. replace (k - Z.of_nat 0) with k in Hlo by lia.
    split; assumption.
  - cbn [floor_log10_from].
    destruct (pow10_le k p q) eqn:Ek; [split; assumption|].
    apply IH.
    + replace (k - 1 + 1) with k by lia. assumption.
    + replace (k - 1 - Z.of_nat fuel) with (k - Z.of_nat (S fuel)) by lia.
      assumption.
Qed.

Lemma pow2_le_pow10 k : 0 <= k -> 2 ^ k <= 10 ^ k.
Proof. intros. apply Z.pow_le_mono_l. lia. Qed.

(** [floor_log10 p q] is the decade of [p / q]. *)
Lemma floor_log10_spec p q :
  0 < p -> 0 < q ->
  pow10_le (floor_log10 p q) p q = true
  /\ pow10_le (floor_log10 p q + 1) p q = false.
Proof.
  intros Hp Hq. unfold floor_log10.
  pose proof (Zdigits2_bounds p Hp) as [_ Hpd].
  pose proof (Zdigits2_bounds q Hq) as [_ Hqd].
  pose proof (Zdigits2_nonneg p) as Hdp.
  pose proof (Zdigits2_nonneg q) as Hdq.
  apply floor_log10_from_spec.
  - unfold pow10_le. apply Z.leb_gt.
    rewrite (Z.max_l (Zdigits2 p + 1) 0), (Z.max_r (- (Zdigits2 p + 1)) 0)
      by lia.
    change (10 ^ 0) with 1.
    pose proof (pow2_le_pow10 (Zdigits2 p + 1) ltac:(lia)).
    assert (2 ^ Zdigits2 p < 2 ^ (Zdigits2 p + 1))
      by (apply Z.pow_lt_mono_r; lia).
    nia.
  - rewrite Z2Nat.id by lia.
    replace (Zdigits2 p - (Zdigits2 p + Zdigits2 q)) with (- Zdigits2 q)
      by lia.
    unfold pow10_le. apply Z.leb_le.
    rewrite (Z.max_r (- Zdigits2 q) 0), Z.opp_involutive,
      (Z.max_l (Zdigits2 q) 0) by lia.
    change (10 ^ 0) with 1.
    pose proof (pow2_le_pow10 (Zdigits2 q) Hdq). nia.
Qed.

Lemma sci_exponent_decade factor :
  - sci_exponent factor = spec_decimal_places factor
  \/ - sci_exponent factor = spec_decimal_places factor - 1.
Proof.
  destruct factor as [s|s| |s m e]; cbn [sci_exponent spec_decimal_places];
    try (left; reflexivity).
  unfold sci7. cbv zeta.
  match goal with |- context [if ?c then _ else _] => destruct c end;
    cbn [snd]; [right|left]; lia.
Qed.

(** [parse_uint] raises nothing on a span shorter than 128 bytes when
    the factor is finite and asks for no negative number of places. *)
Lemma parse_uint_ok (data : bytes) (factor : float) :
  len data < 128 -> is_finite factor = true -> sci_exponent factor <= 0 ->
  let n := int_from_bytes_unsigned data in
  float_of_int n = Ok (float_of_Z n)
  /\ exists v,
       Py.round (float_mul (float_of_Z n) factor) (- sci_exponent factor)
         = Ok v
       /\ parse_uint data factor = Ok v.
Proof.
  intros Hlen Hfin Hexp n.
  pose proof (int_from_bytes_unsigned_range data) as Hn. fold n in Hn.
  pose proof (len_nonneg data) as Hl.
  assert (n < 2 ^ 1023) as Hbig.
  { eapply Z.lt_le_trans; [apply Hn|].
    change 256 with (2 ^ 8). rewrite <- Z.pow_mul_r by lia.
    apply Z.pow_le_mono_r; lia. }
  pose proof (decimal_places_finite factor Hfin) as Hplaces.
  pose proof (float_of_int_ok n ltac:(lia)) as Hconv.
  split; [exact Hconv|].
  assert (exists v,
            Py.round (float_mul (float_of_Z n) factor) (- sci_exponent factor)
              = Ok v) as [v Hv].
  { destruct (float_mul (float_of_Z n) factor) as [s|s| |s m e] eqn:Ex;
      try (eexists; reflexivity).
    apply float_mul_bounded in Ex as [Hd He].
    apply round_ok; lia. }
  exists v. split; [exact Hv|].
  unfold parse_uint. fold n. rewrite Hplaces. cbn [exc_bind].
  rewrite Hconv. cbn [exc_bind]. exact Hv.
Qed.

(** C8 (amended): for a span shorter than 128 bytes and a finite factor
    whose printed decimal exponent is at most zero, [parse_uint] reads
    the span as a little-endian unsigned integer below
    [256 ^ len data], converts it to a float, multiplies it by the
    factor and rounds the product to as many decimal places as the
    negated exponent that the factor shows when printed with six
    fractional digits, and it raises nothing.  That number of places is
    minus the floor of the decimal logarithm of the factor, or one less
    when the seven printed digits round up to the next power of ten. *)
Theorem parse_uint_rounds (data : bytes) (factor : float) :
  len data < 128 -> is_finite factor = true -> sci_exponent factor <= 0 ->
  let n := int_from_bytes_unsigned data in
  0 <= n < 256 ^ len data
  /\ decimal_places factor = Ok (- sci_exponent factor)
  /\ (- sci_exponent factor = spec_decimal_places factor
      \/ - sci_exponent factor = spec_decimal_places factor - 1)
  /\ float_of_int n = Ok (float_of_Z n)
  /\ exists v,
       Py.round (float_mul (float_of_Z n) factor) (- sci_exponent factor)
         = Ok v
       /\ parse_uint data factor = Ok v.
Proof.
  intros Hlen Hfin Hexp n.
  destruct (parse_uint_ok data factor Hlen Hfin Hexp) as [Hconv Hv].
  split; [apply int_from_bytes_unsigned_range|].
  split; [apply decimal_places_finite, Hfin|].
  split; [apply sci_exponent_decade|].
  split; [exact Hconv|exact Hv].
Qed.

(** ** The float codec *)

(** C9: [parse_float] returns a decoded number only for spans of
    exactly 2, 4 or 8 bytes; for a span of any other length, and any
    finite factor, it returns [None], with the error record about the
    unsupported width in the log, and no value. *)
Theorem parse_float_widths data factor :
  (forall v,
      fst (parse_float data factor) = Ok (Some v) ->
      len data = 2 \/ len data = 4 \/ len data = 8)
  /\ (is_finite factor = true ->
      len data <> 2 -> len data <> 4 -> len data <> 8 ->
      parse_float data factor = (Ok None, [(ERROR, msg_float_width)])).
Proof.
  unfold parse_float. split.
  - intros v. destruct (decimal_places factor); [|discriminate].
    cbv zeta.
    destruct (Z.eqb_spec (len data) 2); [auto|].
    destruct (Z.eqb_spec (len data) 4); [auto|].
    destruct (Z.eqb_spec (len data) 8); [auto|].
    discriminate.
  - intros Hfin H2 H4 H8. rewrite decimal_places_finite by assumption.
    cbv zeta.
    destruct (Z.eqb_spec (len data) 2); [contradiction|].
    destruct (Z.eqb_spec (len data) 4); [contradiction|].
    destruct (Z.eqb_spec (len data) 8); [contradiction|].
    reflexivity.
Qed.

Section Properties.
Context `{C : Const} `{A : Cryptodome}.

(** ** One pass of the loop *)

(** The loop body once both header bytes are inside the buffer. *)
Lemma loop_body_header payload start result st :
  0 <= start -> start + 2 <= len payload ->
  loop_body payload start result st =
    let dl := data_length_at payload start in
    if len payload <? start + 1 + dl
    then Some (Ok Break, with_log [(DEBUG, msg_invalid_length)] st)
    else
      match decode_object payload dl (data_format_at payload start)
                          (meas_type_at payload start) start (start + 1 + dl)
                          result st with
      | Some (Ok r, st') => Some (Ok (Continue (start + 1 + dl) r), st')
      | Some (Err e, st') => Some (Err e, st')
      | None => None
      end.
Proof.
  intros H0 H2.
  destruct (index_in_range payload start) as (cb & Ecb & Lcb); [lia|].
  destruct (index_in_range payload (start + 1)) as (mt & Emt & Lmt); [lia|].
  unfold loop_body, bind, eval, data_length_at, data_format_at, meas_type_at,
    byte_at.
  rewrite Ecb, Emt, Lcb, Lmt. cbn zeta.
  destruct (len payload <? _); [reflexivity|].
  destruct (decode_object _ _ _ _ _ _ _ st) as [[[r|e] st']|]; reflexivity.
Qed.

(** With exactly one byte left at the cursor the read of the measurement
    type is out of range. *)
Lemma loop_body_one_byte payload start result st :
  0 <= start -> start + 1 = len payload ->
  loop_body payload start result st = Some (Err IndexError, st).
Proof.
  intros H0 H1.
  destruct (index_in_range payload start) as (cb & Ecb & _); [lia|].
  unfold loop_body, bind, eval. rewrite Ecb.
  rewrite index_past_end by lia. reflexivity.
Qed.

(** Evaluation of a method body: the monad operations are unfolded and
    the codecs are kept folded. *)
Ltac run :=
  cbn [bind ret eval raise get modify LOGGER logging logging_exc
       update_predefined_sensor option_float_bool text_bool fst snd
       negb andb orb].

Ltac case_if :=
  match goal with
  | |- context [if ?b then _ else _] => destruct b eqn:?
  end.

(** What decoding one object can raise. *)
Definition object_error (e : exn) : Prop :=
  numeric_error e \/ e = UnicodeDecodeError.

(** Decoding one object never runs out of budget, keeps the log and the
    sensor updates it found as a prefix, and raises nothing but the
    exceptions of the codecs. *)
Lemma decode_object_outcome payload dl fmt mt start next result st :
  exists r st',
    decode_object payload dl fmt mt start next result st = Some (r, st')
    /\ (forall e, r = Err e -> object_error e).
Proof.
  unfold decode_object, object_error, numeric_error.
  destruct (negb (dl =? 0)); [|run; eexists _, _; split; [reflexivity|discriminate]].
  destruct (fmt <=? 3).
  - destruct (MEAS_TYPES !! mt) as [meas_type|];
      [|run; eexists _, _; split; [reflexivity|discriminate]].
    cbv zeta.
    destruct (fmt =? 0).
    { run. destruct (parse_uint _ _) as [v|e] eqn:E.
      - run. destruct (float_bool v); run;
          eexists _, _; (split; [reflexivity|discriminate]).
      - eexists _, _; split; [reflexivity|]. intros ? [= <-].
        apply parse_uint_error in E. auto. }
    destruct (fmt =? 1).
    { run. destruct (parse_int _ _) as [v|e] eqn:E.
      - run. destruct (float_bool v); run;
          eexists _, _; (split; [reflexivity|discriminate]).
      - eexists _, _; split; [reflexivity|]. intros ? [= <-].
        apply parse_int_error in E. auto. }
    destruct (fmt =? 2).
    { run. destruct (parse_float _ _) as [[[v|]|e] l] eqn:E; run.
      - destruct (float_bool v); run;
          eexists _, _; (split; [reflexivity|discriminate]).
      - eexists _, _; (split; [reflexivity|discriminate]).
      - eexists _, _; split; [reflexivity|]. intros ? [= <-].
        pose proof (parse_float_error
                      (Py.slice payload (Some (start + 2)) (Some next))
                      (factor meas_type) e) as H.
        rewrite E in H. specialize (H eq_refl).
        unfold numeric_error in H. tauto. }
    destruct (fmt =? 3).
    { run. destruct (parse_string _) as [[|c t]|e] eqn:E; run.
      - eexists _, _; (split; [reflexivity|discriminate]).
      - eexists _, _; (split; [reflexivity|discriminate]).
      - eexists _, _; split; [reflexivity|]. intros ? [= <-].
        apply parse_string_error in E. auto. }
    run. eexists _, _; (split; [reflexivity|discriminate]).
  - destruct (fmt =? 4); run; eexists _, _; (split; [reflexivity|discriminate]).
Qed.

(** A pass that ends at the last statement of the body has moved the
    cursor forward, and not past the end of the payload. *)
Lemma loop_body_continue payload start result st next result' st' :
  0 <= start ->
  loop_body payload start result st = Some (Ok (Continue next result'), st') ->
  next = start + 1 + data_length_at payload start
  /\ start < next <= len payload.
Proof.
  intros H0 H.
  pose proof (data_length_at_range payload start) as Hdl.
  destruct (Z_lt_le_dec (len payload) (start + 2)) as [Hshort|Hlong].
  - exfalso. destruct (Z_lt_le_dec start (len payload)) as [Hin|Hout].
    + rewrite loop_body_one_byte in H by lia. discriminate.
    + unfold loop_body, bind, eval in H.
      rewrite index_past_end in H by lia. discriminate.
  - rewrite loop_body_header in H by lia. cbv zeta in H.
    destruct (Z.ltb_spec (len payload)
                (start + 1 + data_length_at payload start)) as [|Hfit];
      [discriminate|].
    destruct (decode_object _ _ _ _ _ _ _ st) as [[[r|e] st1]|];
      try discriminate.
    injection H as <- _ _. lia.
Qed.

(** The loop does not run out of budget when it is given one pass per
    byte that is left. *)
Lemma while_loop_budget fuel payload start result st :
  0 <= start -> (Z.to_nat (len payload - start) <= fuel)%nat ->
  exists r st', while_loop fuel payload start result st = Some (r, st').
Proof.
  revert start result st.
  induction fuel as [|fuel IH]; intros start result st H0 Hfuel.
  - cbn [while_loop].
    destruct (Z.geb_spec (len payload) (start + 1)); [lia|].
    unfold ret. eauto.
  - cbn [while_loop].
    destruct (Z.geb_spec (len payload) (start + 1)) as [Hguard|];
      [|unfold ret; eauto].
    unfold bind.
    destruct (loop_body payload start result st)
      as [[[[next result'|]|e] st1]|] eqn:E.
    + apply loop_body_continue in E as [_ Hnext]; [|lia].
      apply IH; lia.
    + unfold ret. eauto.
    + eauto.
    + exfalso. destruct (Z_lt_le_dec (len payload) (start + 2)).
      * rewrite loop_body_one_byte in E by lia. discriminate.
      * rewrite loop_body_header in E by lia. cbv zeta in E.
        destruct (len payload <? _); [discriminate|].
        destruct (decode_object_outcome payload
                    (data_length_at payload start)
                    (data_format_at payload start)
                    (meas_type_at payload start) start
                    (start + 1 + data_length_at payload start) result st)
          as (r & st1 & -> & _) in E.
        destruct r; discriminate.
Qed.

(** With no byte left at the cursor the loop ends at once. *)
Lemma while_loop_end fuel payload start result st :
  len payload <= start ->
  while_loop fuel payload start result st = Some (Ok result, st).
Proof.
  intros Hend. destruct fuel; cbn [while_loop];
    destruct (Z.geb_spec (len payload) (start + 1)); try lia; reflexivity.
Qed.

(** A record that does not fit ends the loop with what was found. *)
Lemma while_loop_truncated fuel payload start result st :
  0 <= start -> start + 2 <= len payload ->
  len payload < start + 1 + data_length_at payload start ->
  while_loop (S fuel) payload start result st =
    Some (Ok result, with_log [(DEBUG, msg_invalid_length)] st).
Proof.
  intros H0 H2 Htrunc. cbn [while_loop].
  destruct (Z.geb_spec (len payload) (start + 1)); [|lia].
  unfold bind. rewrite loop_body_header by lia. cbv zeta.
  destruct (Z.ltb_spec (len payload)
              (start + 1 + data_length_at payload start)); [|lia].
  reflexivity.
Qed.

(** ** The cursor of the TLV decoder *)

(** C1 (amended): for every record whose two header bytes are inside the
    buffer, a pass of the decoder that completes advances the cursor by
    exactly [1 + dataLength] bytes (the control byte, then [dataLength]
    bytes of which the first is the measurement type); a zero-length
    record consumes exactly one byte and decodes nothing; a record that
    fits is passed over unless one of the codecs raises; and whenever
    [offset + 1 + dataLength] exceeds the buffer length the loop stops,
    a debug record is logged (there is no truncated flag), and the
    result and the sensor updates found before that point are returned
    without an exception. *)
Theorem record_advance payload start result st :
  0 <= start -> start + 2 <= len payload ->
  let dl := data_length_at payload start in
  (forall next result' st',
      loop_body payload start result st
        = Some (Ok (Continue next result'), st') ->
      next = start + 1 + dl)
  /\ (dl = 0 ->
      loop_body payload start result st
        = Some (Ok (Continue (start + 1) result), st))
  /\ (start + 1 + dl <= len payload ->
      exists r st',
        loop_body payload start result st = Some (r, st')
        /\ ((exists result', r = Ok (Continue (start + 1 + dl) result'))
            \/ (exists e, r = Err e /\ object_error e)))
  /\ (len payload < start + 1 + dl ->
      forall fuel,
        while_loop (S fuel) payload start result st
          = Some (Ok result, with_log [(DEBUG, msg_invalid_length)] st)).
Proof.
  intros H0 H2 dl. repeat split.
  - intros next result' st' H.
    now apply loop_body_continue in H as [-> _].
  - intros Hdl. rewrite loop_body_header by lia. cbv zeta.
    fold dl. rewrite Hdl.
    destruct (Z.ltb_spec (len payload) (start + 1 + 0)); [lia|].
    replace (start + 1 + 0) with (start + 1) by lia. reflexivity.
  - intros Hfit. rewrite loop_body_header by lia. cbv zeta. fold dl.
    destruct (Z.ltb_spec (len payload) (start + 1 + dl)); [lia|].
    destruct (decode_object_outcome payload dl (data_format_at payload start)
                (meas_type_at payload start) start (start + 1 + dl) result st)
      as (r & st1 & -> & Herr).
    destruct r as [r|e]; eexists _, _; (split; [reflexivity|]); eauto.
  - intros Htrunc fuel. now apply while_loop_truncated.
Qed.

(** C2 (amended): for every buffer of length N the decoding loop ends
    within N passes (each pass moves the cursor forward by at least one
    byte), so the scan always returns; it stops cleanly when no byte is
    left at the cursor, in particular on the empty buffer; and a pass
    started with at least two bytes left raises no [IndexError]. *)
Theorem scan_within_budget payload st :
  (exists r st',
      while_loop (Z.to_nat (len payload)) payload 0 false st = Some (r, st'))
  /\ (exists r st', scan_payload payload st = Some (r, st'))
  /\ (forall fuel start result,
        len payload <= start ->
        while_loop fuel payload start result st = Some (Ok result, st))
  /\ (forall start result r st',
        0 <= start -> start + 2 <= len payload ->
        loop_body payload start result st = Some (r, st') ->
        r <> Err IndexError).
Proof.
  assert (Hrun : exists r st',
    while_loop (Z.to_nat (len payload)) payload 0 false st = Some (r, st')).
  { apply while_loop_budget; [lia|]. rewrite Z.sub_0_r. lia. }
  repeat split.
  - exact Hrun.
  - destruct Hrun as (r & st' & Hrun). unfold scan_payload, bind.
    rewrite Hrun. destruct r as [[]|e]; cbn [negb]; unfold ret; eauto.
  - intros fuel start result Hend. now apply while_loop_end.
  - intros start result r st' H0 H2 H.
    rewrite loop_body_header in H by lia. cbv zeta in H.
    destruct (len payload <? _); [now injection H as <- _|].
    destruct (decode_object_outcome payload (data_length_at payload start)
                (data_format_at payload start) (meas_type_at payload start)
                start (start + 1 + data_length_at payload start) result st)
      as (r1 & st1 & E & Herr).
    rewrite E in H. destruct r1 as [r1|e]; injection H as <- _;
      [discriminate|].
    intros [= ->]. destruct (Herr _ eq_refl) as [[|]|]; discriminate.
Qed.

(** ** What a record adds to the result *)

(** C3 (amended): for every record with a payload whose measurement type
    is in the registry and whose data decodes under dataFormat 0, 1 or 2
    to a number with a true truth value (any number but zero), the pair
    of the entry's sensor description and the decoded value is appended
    to the sensor updates and the result becomes [True]; a record of
    dataFormat 3 (string) or 4 (MAC address) is decoded but appends
    nothing and leaves the result as it was. *)
Theorem decoded_values_appended payload dl fmt mt start next result st :
  dl <> 0 ->
  let meas_data := Py.slice payload (Some (start + 2)) (Some next) in
  (forall meas_type v,
      MEAS_TYPES !! mt = Some meas_type ->
      float_bool v = true ->
      (fmt = 0 /\ parse_uint meas_data (factor meas_type) = Ok v)
      \/ (fmt = 1 /\ parse_int meas_data (factor meas_type) = Ok v)
      \/ (fmt = 2
          /\ fst (parse_float meas_data (factor meas_type)) = Ok (Some v)) ->
      exists st',
        decode_object payload dl fmt mt start next result st
          = Some (Ok true, st')
        /\ sensor_updates st'
           = sensor_updates st ++ [(meas_format meas_type, v)])
  /\ (fmt = 3 \/ fmt = 4 ->
      forall r st',
        decode_object payload dl fmt mt start next result st = Some (r, st') ->
        sensor_updates st' = sensor_updates st
        /\ (r = Ok result \/ r = Err UnicodeDecodeError)).
Proof.
  intros Hdl meas_data.
  assert (Edl : negb (dl =? 0) = true)
    by (destruct (Z.eqb_spec dl 0); [lia|reflexivity]).
  split.
  - intros meas_type v Hmt Hv Hdec. unfold decode_object.
    rewrite Edl.
    destruct Hdec as [[-> E]|[[-> E]|[-> E]]];
      cbn [Z.leb Z.compare Z.eqb Pos.eqb Pos.compare Pos.compare_cont];
      rewrite Hmt; cbv zeta; fold meas_data.
    + run. rewrite E. run. rewrite Hv. run. eauto.
    + run. rewrite E. run. rewrite Hv. run. eauto.
    + run. destruct (parse_float meas_data (factor meas_type)) as [pf l].
      cbn [fst] in E. subst pf. run. rewrite Hv. run. eauto.
  - intros Hfmt r st' H. unfold decode_object in H. rewrite Edl in H.
    destruct Hfmt as [-> | ->];
      cbn [Z.leb Z.compare Z.eqb Pos.eqb Pos.compare Pos.compare_cont] in H.
    + destruct (MEAS_TYPES !! mt) as [meas_type|];
        [|injection H as <- <-; auto].
      cbv zeta in H. fold meas_data in H. revert H. run.
      destruct (parse_string meas_data) as [[|c t]|e] eqn:E; run;
        intros [= <- <-]; auto.
      apply parse_string_error in E as ->. auto.
    + revert H. run. intros [= <- <-]. auto.
Qed.

(** X15: failures that leave the scan going: an unknown measurement type, a
    dataFormat above 4, a float of an unsupported width and a MAC
    address of the wrong length are logged, and the pass ends with the
    result and the sensor updates unchanged. *)
Lemma other_failures_nonfatal payload dl fmt mt start next result st :
  dl <> 0 ->
  (fmt <= 3 /\ MEAS_TYPES !! mt = None)
  \/ 5 <= fmt
  \/ (fmt = 2 /\ exists meas_type l,
         MEAS_TYPES !! mt = Some meas_type
         /\ parse_float (Py.slice payload (Some (start + 2)) (Some next))
                        (factor meas_type) = (Ok None, l))
  \/ (fmt = 4
      /\ len (Py.slice payload (Some (start + 1)) (Some next)) <> 6) ->
  exists st',
    decode_object payload dl fmt mt start next result st = Some (Ok result, st')
    /\ sensor_updates st' = sensor_updates st
    /\ log st' <> log st.
Proof.
  intros Hdl Hcase.
  assert (Edl : negb (dl =? 0) = true)
    by (destruct (Z.eqb_spec dl 0); [lia|reflexivity]).
  assert (Hlog : forall l' (r : log_record), log st ++ l' ++ [r] <> log st).
  { intros l' r Heq. apply (f_equal (@length _)) in Heq.
    rewrite !length_app in Heq. cbn in Heq. lia. }
  unfold decode_object. rewrite Edl.
  destruct Hcase as [[Hf Hmt]|[Hf|[[-> (meas_type & l & Hmt & E)]|[-> Hlen]]]].
  - destruct (Z.leb_spec fmt 3); [|lia]. rewrite Hmt. run.
    eexists; repeat split. apply (Hlog []).
  - destruct (Z.leb_spec fmt 3); [lia|].
    destruct (Z.eqb_spec fmt 4); [lia|]. run.
    eexists; repeat split. apply (Hlog []).
  - cbn [Z.leb Z.compare Z.eqb Pos.eqb Pos.compare Pos.compare_cont].
    rewrite Hmt. cbv zeta. run. rewrite E. run.
    eexists; repeat split. cbn [log with_log]. rewrite <- app_assoc.
    apply Hlog.
  - cbn [Z.leb Z.compare Z.eqb Pos.eqb Pos.compare Pos.compare_cont].
    cbv zeta. run. unfold parse_mac.
    destruct (Z.eqb_spec (len (Py.slice payload (Some (start + 1))
                                        (Some next))) 6); [lia|].
    cbn [fst snd]. eexists; repeat split. apply (Hlog []).
Qed.

(** ** The dispatch on the advertised service UUIDs *)

(** The check of the address only ever writes [mac_known]. *)
Lemma read_address_state si st :
  exists r b, read_address si st = Some (r, with_mac_known b st).
Proof.
  unfold read_address, bind, eval.
  destruct (if negb (len (address si) =? 17) then _ else _) as [[]|e];
    run; [eauto..|].
  - destruct (fromhex _); eauto.
  - exists (Err e), (mac_known st). destruct st; reflexivity.
Qed.

Lemma read_address_mac si st :
  is_mac_address (address si) = true ->
  exists mac,
    len mac = 6
    /\ read_address si st = Some (Ok (Some mac), with_mac_known true st).
Proof.
  intros Hmac.
  destruct (fromhex_mac_address _ Hmac) as (Hlen & mac & Emac & Hmaclen).
  exists mac. split; [exact Hmaclen|].
  unfold read_address, bind, eval. rewrite Hlen. cbn [Z.eqb Pos.eqb negb].
  run. now rewrite Emac.
Qed.

Lemma set_names_state si name st :
  exists st',
    set_names si name st = Some (Ok tt, st')
    /\ sensor_updates st' = sensor_updates st
    /\ bindkey_verified st' = bindkey_verified st
    /\ bindkey st' = bindkey st
    /\ log st' = log st.
Proof. unfold set_names. run. eexists. repeat split. Qed.

(** C10: an advertisement is recognised only when its list of service
    UUIDs is exactly the plain identifier alone or exactly the
    encrypted identifier alone.  For any other list the call never
    returns [True], decodes nothing (no sensor update, no decryption
    attempt, no log record), and for a well-formed device address it
    returns [False]. *)
Theorem unrecognized_uuids_rejected si name data st :
  service_uuids si <> [uuid_plain] ->
  service_uuids si <> [uuid_encrypted] ->
  (forall r st',
      _parse_bthome si name data st = Some (r, st') ->
      r <> Ok true
      /\ sensor_updates st' = sensor_updates st
      /\ bindkey_verified st' = bindkey_verified st
      /\ log st' = log st)
  /\ (is_mac_address (address si) = true ->
      exists st',
        _parse_bthome si name data st = Some (Ok false, st')
        /\ sensor_updates st' = sensor_updates st).
Proof.
  intros Hplain Henc.
  assert (Hsel : forall mac s, select_payload si data mac s = Some (Ok None, s)).
  { intros mac s. unfold select_payload.
    rewrite !bool_decide_eq_false_2 by assumption. reflexivity. }
  split.
  - intros r st'. unfold _parse_bthome, bind.
    destruct (read_address_state si st) as (r0 & b & ->).
    destruct r0 as [[mac|]|e].
    + destruct (set_names_state si name (with_mac_known b st))
        as (st1 & -> & Hs & Hv & _ & Hl).
      rewrite Hsel. run. intros [= <- <-]. repeat split; try assumption.
      discriminate.
    + run. intros [= <- <-]. repeat split. discriminate.
    + intros [= <- <-]. repeat split. discriminate.
  - intros Hmac. unfold _parse_bthome, bind.
    destruct (read_address_mac si st Hmac) as (mac & _ & ->).
    destruct (set_names_state si name (with_mac_known true st))
      as (st1 & -> & Hs & _).
    rewrite Hsel. run. eauto.
Qed.

(** ** Decryption *)

Lemma len_app {T} (l1 l2 : list T) : len (l1 ++ l2) = len l1 + len l2.
Proof. unfold len. rewrite length_app. lia. Qed.

(** The decryptor once its guards are passed: the cipher is built and
    called on the three parts of the payload, and its verdict decides. *)
Lemma decrypt_bthome_call data mac key st :
  bindkey st = Some key -> len key = 16 -> 15 <= len data ->
  _decrypt_bthome data mac st =
    match AES_new key (spec_nonce mac (spec_counter data)) 4 with
    | None => Some (Err ValueError, st)
    | Some c =>
        match decrypt_and_verify (cipher_update c [x11])
                                 (spec_ciphertext data) (spec_tag data) with
        | Plaintext p => Some (Ok p, with_bindkey_verified true st)
        | ReturnsNone =>
            Some (Err ValueError,
                  with_log [(ERROR, msg_payload_none)]
                    (with_bindkey_verified false st))
        | MacCheckFailed =>
            Some (Err ValueError,
                  with_log [(DEBUG, msg_encrypted_payload)]
                    (with_log [(DEBUG, msg_nonce)]
                       (with_log [(DEBUG, msg_mic)]
                          (with_log [(WARNING, msg_decryption_failed)]
                             (with_bindkey_verified false st)))))
        end
    end.
Proof.
  intros Hkey Hlen Hdata.
  assert (Hbool : bindkey_bool (bindkey st) = true).
  { rewrite Hkey. destruct key; [discriminate Hlen|reflexivity]. }
  unfold _decrypt_bthome. run. rewrite Hbool. cbn [negb orb].
  rewrite Hkey. cbn [bindkey_len bindkey_bytes]. rewrite Hlen.
  cbn [Z.eqb Pos.eqb negb].
  destruct (Z.ltb_spec (len data) 15); [lia|]. cbv zeta.
  rewrite slice_ciphertext, slice_counter, slice_tag by lia.
  fold (spec_nonce mac (spec_counter data)).
  destruct (AES_new key _ 4) as [c|]; [|reflexivity].
  destruct (decrypt_and_verify _ _ _); reflexivity.
Qed.

(** C7: for every encrypted payload of at least 15 bytes and a 6-byte
    source MAC, with a 16-byte key set, the payload splits into the
    ciphertext (all but the last 8 bytes), the 4-byte counter and the
    4-byte tag; the nonce is the MAC, then 1E 18, then the counter, 12
    bytes in all; and the decryptor is the CCM call with the key, this
    nonce, the tag length 4, the one associated byte 11, the ciphertext
    and the tag: it returns the plaintext the cipher releases and
    raises [ValueError] otherwise. *)
Theorem decrypt_call_layout data mac key st :
  15 <= len data -> len mac = 6 ->
  bindkey st = Some key -> len key = 16 ->
  data = spec_ciphertext data ++ spec_counter data ++ spec_tag data
  /\ len (spec_counter data) = 4
  /\ len (spec_tag data) = spec_tag_length
  /\ len (spec_nonce mac (spec_counter data)) = 12
  /\ exists c,
      AES_new key (spec_nonce mac (spec_counter data)) spec_tag_length
        = Some c
      /\ match decrypt_and_verify (cipher_update c spec_associated_data)
                                  (spec_ciphertext data) (spec_tag data) with
         | Plaintext p =>
             _decrypt_bthome data mac st
               = Some (Ok p, with_bindkey_verified true st)
         | _ =>
             exists st',
               _decrypt_bthome data mac st = Some (Err ValueError, st')
         end.
Proof.
  intros Hdata Hmac Hkey Hlen.
  destruct (spec_layout data) as (Hsplit & Hcounter & Htag); [lia|].
  assert (Hnonce : len (spec_nonce mac (spec_counter data)) = 12).
  { unfold spec_nonce. rewrite !len_app, Hmac, Hcounter. reflexivity. }
  repeat split; try assumption.
  destruct (AES_new_accepts key _ Hlen Hnonce) as [c Hc].
  exists c. split; [exact Hc|].
  rewrite (decrypt_bthome_call data mac key st) by assumption.
  unfold spec_tag_length, spec_associated_data in *. rewrite Hc.
  destruct (decrypt_and_verify _ _ _); eauto.
Qed.

(** C6: with a 6-byte source MAC, decryption fails exactly when the key
    is missing, the key is not 16 bytes long, the payload is shorter
    than 15 bytes, or the cipher releases no plaintext (the tag does not
    verify); when the tag does not verify the key is marked as not
    verified, and when decryption succeeds the key is marked as
    verified and the value returned is the plaintext of the cipher,
    unchanged. *)
Theorem decrypt_fails_exactly data mac st :
  len mac = 6 ->
  let key := bindkey_bytes (bindkey st) in
  exists r st',
    _decrypt_bthome data mac st = Some (r, st')
    /\ ((forall p, r <> Ok p) <->
          bindkey_bool (bindkey st) = false
          \/ len key <> 16
          \/ len data < 15
          \/ verified_plaintext key data mac = None)
    /\ (bindkey_bool (bindkey st) = true -> len key = 16 ->
        15 <= len data -> verified_plaintext key data mac = None ->
        r = Err ValueError /\ bindkey_verified st' = false)
    /\ (forall p,
          r = Ok p ->
          bindkey_verified st' = true
          /\ verified_plaintext key data mac = Some p).
Proof.
  intros Hmac key.
  destruct (bindkey_bool (bindkey st)) eqn:Hbool.
  2:{ unfold _decrypt_bthome. run. rewrite Hbool. run.
      eexists _, _. split; [reflexivity|].
      repeat split; try discriminate; auto. }
  destruct (bindkey st) as [k|] eqn:Hkey; [|discriminate].
  subst key. cbn [bindkey_bytes].
  destruct (Z.eq_dec (len k) 16) as [Hlen|Hlen].
  2:{ unfold _decrypt_bthome. run. rewrite Hkey, Hbool.
      cbn [negb orb bindkey_len].
      destruct (Z.eqb_spec (len k) 16); [contradiction|]. run.
      eexists _, _. split; [reflexivity|].
      repeat split; try discriminate; auto; contradiction. }
  destruct (Z_lt_le_dec (len data) 15) as [Hshort|Hdata].
  { unfold _decrypt_bthome. run. rewrite Hkey, Hbool.
    cbn [negb orb bindkey_len]. rewrite Hlen. cbn [Z.eqb Pos.eqb negb].
    destruct (Z.ltb_spec (len data) 15); [|lia]. run.
    eexists _, _. split; [reflexivity|].
    repeat split; try discriminate; auto; lia. }
  rewrite (decrypt_bthome_call data mac k st) by assumption.
  destruct (spec_layout data) as (_ & Hcounter & _); [lia|].
  assert (Hnonce : len (spec_nonce mac (spec_counter data)) = 12).
  { unfold spec_nonce. rewrite !len_app, Hmac, Hcounter. reflexivity. }
  destruct (AES_new_accepts k _ Hlen Hnonce) as [c Hc].
  unfold verified_plaintext, spec_tag_length, spec_associated_data.
  rewrite Hc.
  destruct (decrypt_and_verify _ _ _) as [p| |];
    eexists _, _; (split; [reflexivity|]); repeat split;
    try discriminate; try congruence; auto.
  - intros H. exfalso. apply (H p). reflexivity.
  - intros [|[|[|]]]; [discriminate|contradiction|lia|discriminate].
Qed.

(** The packet id read after the decryption: a 4-byte span and the
    default factor, so [parse_uint] raises nothing. *)
Lemma packet_id_parsed data :
  15 <= len data ->
  exists v,
    parse_uint (Py.slice data (Some (-8)) (Some (-4))) default_factor = Ok v.
Proof.
  intros Hdata. rewrite slice_counter by lia.
  destruct (spec_layout data ltac:(lia)) as (_ & Hc & _).
  destruct (parse_uint_ok (spec_counter data) default_factor)
    as (_ & v & _ & Hv);
    [lia|reflexivity|vm_compute; discriminate|].
  eauto.
Qed.

(** X6: the hand-over to the scan: for a well-formed address, the encrypted
    identifier, a 16-byte key and a payload of at least 15 bytes, the
    call scans exactly the plaintext the cipher releases, with the key
    marked verified; when the cipher releases none the call returns
    [False] with the key marked unverified. *)
Lemma encrypted_payload_scanned si name data key st :
  is_mac_address (address si) = true ->
  service_uuids si = [uuid_encrypted] ->
  bindkey st = Some key -> len key = 16 -> 15 <= len data ->
  exists mac st1,
    fromhex (remove_char ":" (address si)) = Ok mac
    /\ match verified_plaintext key data mac with
       | Some p =>
           bindkey_verified st1 = true
           /\ _parse_bthome si name data st = scan_payload p st1
       | None =>
           bindkey_verified st1 = false
           /\ _parse_bthome si name data st = Some (Ok false, st1)
       end.
Proof.
  intros Hmac Huuid Hkey Hlen Hdata.
  destruct (fromhex_mac_address _ Hmac) as (Haddr & mac & Emac & Hmaclen).
  exists mac.
  destruct (packet_id_parsed data Hdata) as [v Hv].
  assert (read_address si st
          = Some (Ok (Some mac), with_mac_known true st)) as Hread.
  { unfold read_address, bind, eval. rewrite Haddr.
    cbn [Z.eqb Pos.eqb negb]. run. now rewrite Emac. }
  destruct (set_names_state si name (with_mac_known true st))
    as (st1 & Hset & _ & _ & Hk1 & _).
  set (st2 := with_sw_version
                (list_ascii_of_string "BThome BLE (encrypted)")
                (with_encryption_scheme BTHOME_BINDKEY st1)).
  assert (bindkey st2 = Some key) as Hk2.
  { subst st2. destruct st1. cbn in *. congruence. }
  pose proof (decrypt_bthome_call data mac key st2 Hk2 Hlen Hdata) as Hdec.
  destruct (AES_new_accepts key (spec_nonce mac (spec_counter data)))
    as [c Hc]; [assumption| |].
  { destruct (spec_layout data ltac:(lia)) as (_ & Hcl & _).
    unfold spec_nonce. rewrite !len_app, Hmaclen, Hcl. reflexivity. }
  rewrite Hc in Hdec.
  unfold verified_plaintext, spec_tag_length, spec_associated_data.
  rewrite Hc.
  assert (forall r,
            select_payload si data mac st1 = r ->
            _parse_bthome si name data st
            = match r with
              | Some (Ok (Some p), s') => scan_payload p s'
              | Some (Ok None, s') => Some (Ok false, s')
              | Some (Err e, s') => Some (Err e, s')
              | None => None
              end) as Hparse.
  { intros r <-. unfold _parse_bthome, bind. rewrite Hread, Hset.
    destruct (select_payload si data mac st1) as [[[[p|]|e] s']|];
      reflexivity. }
  assert (select_payload si data mac st1
          = match _decrypt_bthome data mac st2 with
            | Some (Ok p, s') => Some (Ok (Some p), s')
            | Some (Err e, s') =>
                if is_ValueError e || is_TypeError e
                then Some (Ok None, s') else Some (Err e, s')
            | None => None
            end) as Hsel.
  { unfold select_payload. rewrite Huuid.
    rewrite bool_decide_eq_false_2 by discriminate.
    rewrite bool_decide_eq_true_2 by reflexivity.
    unfold try_except_ValueError_TypeError, bind, modify, ret, eval.
    fold st2. rewrite Hv.
    destruct (_decrypt_bthome data mac st2) as [[[p|e] s']|];
      try reflexivity.
    destruct (is_ValueError e || is_TypeError e); reflexivity. }
  rewrite Hdec in Hsel.
  destruct (decrypt_and_verify _ _ _) as [p| |];
    eexists; (split; [exact Emac|]);
    rewrite (Hparse _ Hsel); (split; [|reflexivity]); reflexivity.
Qed.

End Properties.

(** ** Closed instances *)

(** C1: a witness of [record_advance]: the second record of
    [03 02 C4 09 05 02] declares five bytes where one is left. *)
Lemma record_advance_witness :
  while_loop 1 [x03; x02; xc4; x09; x05; x02] 4 true (init None)
    = Some (Ok true, with_log [(DEBUG, msg_invalid_length)] (init None)).
Proof.
  apply (record_advance [x03; x02; xc4; x09; x05; x02] 4 true (init None));
    vm_compute; congruence.
Defined.

(** C1 as stated fails: the zero-length record at the start of
    [00 02 00 00] moves the cursor by one byte, not by two. *)
Lemma record_advance_counterexample :
  data_length_at [x00; x02; x00; x00] 0 = 0
  /\ loop_body [x00; x02; x00; x00] 0 false (init None)
       = Some (Ok (Continue 1 false), init None)
  /\ 1 <> 0 + 2 + data_length_at [x00; x02; x00; x00] 0.
Proof. vm_compute. repeat split; discriminate. Qed.

(** C2 as stated fails: the three bytes [00 01 02] take two passes, one
    more than N/2, and a buffer of one byte raises [IndexError]. *)
Lemma scan_within_budget_counterexample :
  while_loop 1 [x00; x01; x02] 0 false (init None) = None
  /\ (exists st', while_loop 2 [x00; x01; x02] 0 false (init None)
                   = Some (Ok false, st'))
  /\ scan_payload [x00] (init None) = Some (Err IndexError, init None).
Proof. vm_compute. repeat split. eexists. reflexivity. Qed.

(** C9: a witness of [parse_float_widths]: a span of three bytes with
    the factor 0.01. *)
Lemma parse_float_widths_witness :
  parse_float [x01; x02; x03] float_0_01
    = (Ok None, [(ERROR, msg_float_width)]).
Proof.
  apply (parse_float_widths [x01; x02; x03] float_0_01);
    [reflexivity | discriminate | discriminate | discriminate].
Defined.

(** The three supported widths decode: 1.0 as half, 25.0 as single and
    as double precision, scaled by 0.01 and rounded to two places. *)
Example parse_float_supported :
  parse_float [x00; x3c] float_0_01
    = (Ok (Some float_0_01), [])
  /\ parse_float [x00; x00; xc8; x41] float_0_01
       = (Ok (Some (float_of_ratio false 25 100)), [])
  /\ parse_float [x00; x00; x00; x00; x00; x00; x39; x40] float_0_01
       = (Ok (Some (float_of_ratio false 25 100)), []).
Proof. vm_compute. repeat split. Qed.

(** C3: a witness of [decoded_values_appended]: the record
    [03 02 C4 09] appends 25.0 for the registry entry of type 2. *)
Lemma decoded_values_appended_witness :
  exists st',
    decode_object [x03; x02; xc4; x09] 3 0 2 0 4 false (init None)
      = Some (Ok true, st')
    /\ sensor_updates st'
       = sensor_updates (init None)
           ++ [(list_ascii_of_string "temperature", float_of_Z 25)].
Proof.
  destruct (decoded_values_appended [x03; x02; xc4; x09] 3 0 2 0 4 false
              (init None)) as [H _]; [lia|].
  apply (H {| meas_format := list_ascii_of_string "temperature";
              factor := float_0_01 |} (float_of_Z 25));
    [reflexivity | reflexivity | left; split; [reflexivity|]].
  vm_compute. reflexivity.
Defined.

(** C3 as stated fails: the string record [62 02 41] decodes to "A" and
    the MAC record [86 01 02 03 04 05 06] to a reversed address, and
    neither adds anything to the result. *)
Lemma decoded_values_appended_counterexample :
  parse_string [x41] = Ok [65]
  /\ scan_payload [x62; x02; x41] (init None)
       = Some (Ok false,
               with_log [(DEBUG, msg_string_unsupported)] (init None))
  /\ parse_mac [x01; x02; x03; x04; x05; x06]
       = (Some [x06; x05; x04; x03; x02; x01], [])
  /\ scan_payload [x86; x01; x02; x03; x04; x05; x06] (init None)
       = Some (Ok false, init None).
Proof. vm_compute. repeat split. Qed.

(** A decoded number that equals zero is not appended either: the truth
    value of [meas_float] is tested, not its presence. *)
Example zero_value_not_appended :
  parse_uint [x00; x00] float_0_01 = Ok (S754_zero false)
  /\ scan_payload [x03; x02; x00; x00] (init None)
       = Some (Ok false,
               with_log [(DEBUG, msg_unknown_dataobject)] (init None)).
Proof. vm_compute. repeat split. Qed.

(** ** Scenarios *)

(** C4 (the code misses it): a string record whose data is not valid
    UTF-8 ends the call with [UnicodeDecodeError]; the well-formed
    temperature record after it is not decoded, although it is when the
    string is valid. *)
Theorem invalid_utf8_raises :
  parse_string [xff] = Err UnicodeDecodeError
  /\ (exists st',
        _parse_bthome si_plain (name si_plain)
                      [x62; x02; xff; x03; x02; xc4; x09] (init None)
          = Some (Err UnicodeDecodeError, st')
        /\ sensor_updates st' = [])
  /\ (exists st',
        _parse_bthome si_plain (name si_plain)
                      [x62; x02; x41; x03; x02; xc4; x09] (init None)
          = Some (Ok true, st')
        /\ sensor_updates st'
           = [(list_ascii_of_string "temperature", float_of_Z 25)]).
Proof.
  split; [reflexivity|].
  split; eexists; (split; [vm_compute; reflexivity|reflexivity]).
Qed.

(** C5 (amended): the plain payload [03 02 C4 09] (control byte 0x03:
    dataLength 3, which counts the measurement type, and dataFormat 0;
    measurement type 0x02; value bytes C4 09, little-endian 2500) with
    the registry entry of type 0x02 and factor 0.01 gives exactly one
    measurement of value 25.0, logs nothing and returns [True]. *)
Theorem scenario_03_02_C4_09 :
  exists st',
    _parse_bthome si_plain (name si_plain) [x03; x02; xc4; x09] (init None)
      = Some (Ok true, st')
    /\ sensor_updates st'
       = [(list_ascii_of_string "temperature", float_of_Z 25)]
    /\ log st' = [].
Proof. eexists. split; [vm_compute; reflexivity|split; reflexivity]. Qed.

(** C5 as stated fails: on [02 02 C4 09] the record is the single data
    byte C4 (1.96), and the byte 09 left over makes the next pass raise
    [IndexError]. *)
Lemma scenario_02_02_C4_09 :
  exists st',
    _parse_bthome si_plain (name si_plain) [x02; x02; xc4; x09] (init None)
      = Some (Err IndexError, st')
    /\ sensor_updates st'
       = [(list_ascii_of_string "temperature", float_of_ratio false 196 100)].
Proof. eexists. split; [vm_compute; reflexivity|reflexivity]. Qed.

(** C10: a witness of [unrecognized_uuids_rejected]: the plain identifier
    listed together with the encrypted one is not recognised. *)
Lemma unrecognized_uuids_rejected_witness :
  exists st',
    _parse_bthome
      {| name := list_ascii_of_string "Sensor";
         address := list_ascii_of_string "A4:C1:38:8D:18:B2";
         service_uuids := [uuid_plain; uuid_encrypted] |}
      (list_ascii_of_string "Sensor") [x03; x02; xc4; x09] (init None)
      = Some (Ok false, st')
    /\ sensor_updates st' = sensor_updates (init None).
Proof.
  apply (unrecognized_uuids_rejected
           {| name := list_ascii_of_string "Sensor";
              address := list_ascii_of_string "A4:C1:38:8D:18:B2";
              service_uuids := [uuid_plain; uuid_encrypted] |});
    [discriminate | discriminate | reflexivity].
Defined.

(** C7: a witness of [decrypt_call_layout] with the stand-in cipher. *)
Lemma decrypt_call_layout_witness :
  example_encrypted
    = spec_ciphertext example_encrypted ++ spec_counter example_encrypted
        ++ spec_tag example_encrypted
  /\ len (spec_counter example_encrypted) = 4
  /\ len (spec_tag example_encrypted) = spec_tag_length
  /\ len (spec_nonce example_mac (spec_counter example_encrypted)) = 12
  /\ exists c,
      AES_new example_key
              (spec_nonce example_mac (spec_counter example_encrypted))
              spec_tag_length = Some c
      /\ match decrypt_and_verify (cipher_update c spec_associated_data)
                                  (spec_ciphertext example_encrypted)
                                  (spec_tag example_encrypted) with
         | Plaintext p =>
             _decrypt_bthome example_encrypted example_mac
                             (init (Some example_key))
               = Some (Ok p, with_bindkey_verified true
                               (init (Some example_key)))
         | _ =>
             exists st',
               _decrypt_bthome example_encrypted example_mac
                               (init (Some example_key))
                 = Some (Err ValueError, st')
         end.
Proof.
  apply (decrypt_call_layout example_encrypted example_mac example_key
           (init (Some example_key)));
    [vm_compute; discriminate | reflexivity | reflexivity | reflexivity].
Defined.

(** C6: a witness of [decrypt_fails_exactly] with the stand-in cipher. *)
Lemma decrypt_fails_exactly_witness :
  exists r st',
    _decrypt_bthome example_encrypted example_mac (init (Some example_key))
      = Some (r, st')
    /\ ((forall p, r <> Ok p) <->
          bindkey_bool (Some example_key) = false
          \/ len example_key <> 16
          \/ len example_encrypted < 15
          \/ verified_plaintext example_key example_encrypted example_mac
             = None)
    /\ (bindkey_bool (Some example_key) = true -> len example_key = 16 ->
        15 <= len example_encrypted ->
        verified_plaintext example_key example_encrypted example_mac = None ->
        r = Err ValueError /\ bindkey_verified st' = false)
    /\ (forall p,
          r = Ok p ->
          bindkey_verified st' = true
          /\ verified_plaintext example_key example_encrypted example_mac
             = Some p).
Proof.
  apply (decrypt_fails_exactly example_encrypted example_mac
           (init (Some example_key))).
  reflexivity.
Defined.

(** The stand-in cipher releases the example plaintext, and rejects the
    payload when its last byte is changed. *)
Example decrypt_example :
  _decrypt_bthome example_encrypted example_mac (init (Some example_key))
    = Some (Ok example_plaintext,
            with_bindkey_verified true (init (Some example_key)))
  /\ (exists st',
        _decrypt_bthome (take 14 example_encrypted ++ [x3c]) example_mac
                        (with_bindkey_verified true (init (Some example_key)))
          = Some (Err ValueError, st')
        /\ bindkey_verified st' = false)
  /\ _decrypt_bthome (take 14 example_encrypted) example_mac
                     (init (Some example_key))
       = Some (Err ValueError,
               with_log [(DEBUG, msg_data_length)] (init (Some example_key))).
Proof.
  split; [vm_compute; reflexivity|].
  split; [eexists; split; [vm_compute; reflexivity|reflexivity]|].
  vm_compute. reflexivity.
Qed.

(** C8: a witness of [parse_uint_rounds]: the factor 0.01 gives two
    places, and with the bytes C4 09 (2500) the value 25.0. *)
Lemma parse_uint_rounds_witness :
  decimal_places float_0_01 = Ok 2
  /\ parse_uint [xc4; x09] float_0_01 = Ok (float_of_Z 25).
Proof.
  destruct (parse_uint_rounds [xc4; x09] float_0_01)
    as (_ & Hp & _ & _ & v & Hv & Hr);
    [reflexivity|reflexivity|vm_compute; discriminate|].
  split; [exact Hp|].
  rewrite Hr, <- Hv. vm_compute. reflexivity.
Defined.

(** C8 as stated fails: on a span of 129 bytes whose last byte is 01
    (the integer [2 ^ 1024]) the conversion of the integer for the
    product raises [OverflowError]. *)
Lemma parse_uint_rounds_counterexample :
  parse_uint (replicate 128 x00 ++ [x01]) float_0_01 = Err OverflowError.
Proof. vm_compute. reflexivity. Qed.

(** The number of places follows the printed exponent, not the decade
    of the factor: [0.00099999999] prints as [1.000000e-03], so the
    product is rounded to 3 places where the floor of the logarithm
    gives 4; with the bytes 80 8D 5B (6000000) the two differ. *)
Example printed_exponent_rounds_up :
  decimal_places float_0_00099999999 = Ok 3
  /\ spec_decimal_places float_0_00099999999 = 4
  /\ parse_uint [x80; x8d; x5b] float_0_00099999999 = Ok (float_of_Z 6000)
  /\ Py.round (float_mul (float_of_Z 6000000) float_0_00099999999) 4
     = Ok (float_of_ratio false 59999999 10000).
Proof. vm_compute. repeat split. Qed.

(** The factors 1 and 0.01 give 0 and 2 places under both rules. *)
Example decimal_places_of_factors :
  decimal_places default_factor = Ok 0
  /\ spec_decimal_places default_factor = 0
  /\ decimal_places float_0_01 = Ok 2
  /\ spec_decimal_places float_0_01 = 2.
Proof. vm_compute. repeat split. Qed.

(** The encrypted example end to end: the plaintext holds the records
    [03 02 C4 09] and [02 02 10]. *)
Example encrypted_scenario :
  exists st',
    _parse_bthome si_enc (name si_enc) example_encrypted
                  (init (Some example_key))
      = Some (Ok true, st')
    /\ sensor_updates st'
       = [(list_ascii_of_string "temperature", float_of_Z 25);
          (list_ascii_of_string "temperature", float_of_ratio false 16 100)]
    /\ bindkey_verified st' = true.
Proof. eexists. split; [vm_compute; reflexivity|split; reflexivity]. Qed.

(** * Further properties *)

(** ** Formatting and reading a MAC address *)

Lemma format_02X_byte b :
  exists hi lo,
    format_02X (byte_val b) = [hi; lo]
    /\ is_hex hi = true /\ is_hex lo = true
    /\ byte_of_Z (16 * default 0 (hex_value hi) + default 0 (hex_value lo)) = b
    /\ upper_char hi = hi /\ upper_char lo = lo
    /\ hi <> "-"%char /\ lo <> "-"%char.
Proof.
  destruct b; eexists _, _; (split; [vm_compute; reflexivity|]);
    repeat split; discriminate.
Qed.

Lemma remove_char_app old s t :
  remove_char old (s ++ t) = remove_char old s ++ remove_char old t.
Proof. unfold remove_char. apply filter_app. Qed.

Lemma to_mac_cons b rest :
  remove_char ":" (to_mac (b :: rest))
  = remove_char ":" (format_02X (byte_val b)) ++ remove_char ":" (to_mac rest).
Proof.
  unfold to_mac. cbn [map join].
  destruct (map _ rest) as [|p ps] eqn:E.
  - cbn [join]. rewrite app_nil_r. reflexivity.
  - rewrite !remove_char_app. f_equal.
Qed.

(** Reading the formatted bytes back gives the bytes. *)
Lemma fromhex_to_mac addr :
  fromhex (remove_char ":" (to_mac addr)) = Ok addr.
Proof.
  induction addr as [|b rest IH]; [reflexivity|].
  rewrite to_mac_cons.
  destruct (format_02X_byte b) as (hi & lo & -> & Hhi & Hlo & Hb & _).
  destruct (is_hex_spec hi Hhi) as (Nhi & _).
  destruct (is_hex_spec lo Hlo) as (Nlo & _).
  rewrite remove_char_keep by assumption.
  rewrite remove_char_keep by assumption.
  change (remove_char ":" []) with (@nil ascii). cbn [app].
  rewrite fromhex_pair by assumption. rewrite IH. cbn [exc_bind].
  now rewrite Hb.
Qed.

Lemma to_mac_is_mac_address mac :
  len mac = 6 -> is_mac_address (to_mac mac) = true.
Proof.
  intros Hlen. unfold len in Hlen.
  do 6 (destruct mac as [|? mac]; [cbn in Hlen; lia|]).
  destruct mac; [|cbn in Hlen; lia].
  unfold to_mac. cbn [map join].
  repeat match goal with
         | |- context [format_02X (byte_val ?b)] =>
             let hi := fresh "hi" in let lo := fresh "lo" in
             let H1 := fresh in let H2 := fresh in
             destruct (format_02X_byte b) as (hi & lo & -> & H1 & H2 & _)
         end.
  cbn [app is_mac_address forallb].
  repeat match goal with H : is_hex _ = true |- _ => rewrite H; clear H end.
  reflexivity.
Qed.





Lemma short_address_to_mac mac :
  len mac = 6 ->
  short_address (to_mac mac)
  = concat (map (fun b => format_02X (byte_val b)) (drop 3 mac)).
Proof.
  intros Hlen. unfold len in Hlen.
  do 6 (destruct mac as [|? mac]; [cbn in Hlen; lia|]).
  destruct mac; [|cbn in Hlen; lia].
  unfold to_mac. cbn [map join drop concat].
  repeat match goal with
         | |- context [format_02X (byte_val ?b)] =>
             let hi := fresh "hi" in let lo := fresh "lo" in
             destruct (format_02X_byte b)
               as (hi & lo & -> & ? & ? & _ & ? & ? & ? & ?)
         end.
  cbn [app]. unfold short_address.
  repeat (first [ rewrite remove_char_drop
                | rewrite remove_char_keep
                    by (first [ assumption
                              | now apply is_hex_spec
                              | discriminate ]) ]).
  change (remove_char "-" []) with (@nil ascii).
  change (remove_char ":" []) with (@nil ascii).
  repeat (first [ rewrite remove_char_drop
                | rewrite remove_char_keep
                    by (first [ now apply is_hex_spec
                              | discriminate ]) ]).
  change (remove_char ":" []) with (@nil ascii).
  match goal with
  | |- upper (Py.slice ?l _ _) = _ =>
      change (Py.slice l (Some (-6)) None) with (drop 6 l)
  end.
  cbn [drop upper map].
  repeat match goal with H : upper_char _ = _ |- _ => rewrite H; clear H end.
  reflexivity.
Qed.

Lemma fromhex_error_bounded n : forall s e,
  (length s <= n)%nat -> fromhex s = Err e -> e = ValueError.
Proof.
  induction n as [|n IH]; intros s e Hn.
  - destruct s; [discriminate|cbn in Hn; lia].
  - destruct s as [|c rest]; [discriminate|]. cbn [fromhex].
    cbn [length] in Hn.
    destruct (is_space c); [apply IH; lia|].
    destruct (hex_value c); [|congruence].
    destruct rest as [|d rest']; [congruence|].
    destruct (hex_value d); [|congruence].
    destruct (fromhex rest') eqn:E; cbn [exc_bind]; [discriminate|].
    intros [= <-]. apply (IH rest'); [cbn [length] in Hn; lia|assumption].
Qed.

Lemma fromhex_error s e : fromhex s = Err e -> e = ValueError.
Proof. apply (fromhex_error_bounded (length s)). lia. Qed.

(** ** Sequences *)

Lemma index_app_r {T} (pre rest : list T) i :
  0 <= i -> Py.index (pre ++ rest) (len pre + i) = Py.index rest i.
Proof.
  intros Hi. pose proof (len_nonneg pre). unfold Py.index. cbv zeta.
  assert ((len pre + i <? 0) = false) as -> by (apply Z.ltb_ge; lia).
  assert ((i <? 0) = false) as E by (apply Z.ltb_ge; lia).
  rewrite E. rewrite E.
  assert ((len pre + i <? 0) = false) as -> by (apply Z.ltb_ge; lia).
  rewrite lookup_app_r by (unfold len in *; lia).
  replace (Z.to_nat (len pre + i) - length pre)%nat with (Z.to_nat i)
    by (unfold len in *; lia).
  reflexivity.
Qed.

Lemma slice_app_r {T} (pre rest : list T) a b :
  0 <= a -> 0 <= b ->
  Py.slice (pre ++ rest) (Some (len pre + a)) (Some (len pre + b))
  = Py.slice rest (Some a) (Some b).
Proof.
  intros Ha Hb. pose proof (len_nonneg pre). pose proof (len_nonneg rest).
  unfold Py.slice, clamp. rewrite len_app.
  destruct (Z.ltb_spec (len pre + a) 0); [lia|].
  destruct (Z.ltb_spec (len pre + b) 0); [lia|].
  destruct (Z.ltb_spec a 0); [lia|].
  destruct (Z.ltb_spec b 0); [lia|].
  rewrite drop_app_ge by (unfold len in *; lia).
  f_equal; [lia|]. f_equal. unfold len in *. lia.
Qed.

Lemma slice_app_l {T} (pre rest : list T) a b :
  0 <= a -> 0 <= b <= len pre ->
  Py.slice (pre ++ rest) (Some a) (Some b) = Py.slice pre (Some a) (Some b).
Proof.
  intros Ha Hb. pose proof (len_nonneg rest).
  unfold Py.slice, clamp. rewrite len_app.
  destruct (Z.ltb_spec a 0); [lia|].
  destruct (Z.ltb_spec b 0); [lia|].
  rewrite (Z.min_l b (len pre + len rest)), (Z.min_l b (len pre)) by lia.
  destruct (Z_le_gt_dec a (len pre)).
  - rewrite (Z.min_l a (len pre + len rest)), (Z.min_l a (len pre)) by lia.
    rewrite drop_app_le by (unfold len in *; lia).
    apply take_app_le. rewrite length_drop. unfold len in *. lia.
  - replace (Z.to_nat (b - Z.min a (len pre + len rest))) with 0%nat by lia.
    replace (Z.to_nat (b - Z.min a (len pre))) with 0%nat by lia.
    reflexivity.
Qed.

(** ** Exact results of the integer codecs *)

(** Rounding the canonical form of a float, also with zero bits
    appended, gives the float back. *)
Lemma binary_round_aux_canonical s M k E :
  0 < M -> fexp prec emax (Zdigits2 M + E) = E -> E <= 971 -> 0 <= k ->
  binary_round_aux prec emax s (M * 2 ^ k) (E - k) loc_Exact
  = S754_finite s (Z.to_pos M) E.
Proof.
  intros HM Hc HE Hk.
  destruct (shr_fexp_exact M k E HM Hk ltac:(lia)) as (j & Hj & Hej & E1).
  assert (j = 0) as -> by lia.
  destruct (shr_fexp_exact M 0 E HM ltac:(lia) ltac:(lia))
    as (j' & Hj' & Hej' & E2).
  assert (j' = 0) as -> by lia.
  unfold binary_round_aux. rewrite E1.
  cbn [shr_m loc_of_shr_record round_nearest_even].
  rewrite E2. cbn [shr_m].
  change (2 ^ 0) with 1. rewrite Z.mul_1_r, Z.sub_0_r.
  destruct M as [|p|p]; try lia.
  destruct (Z.leb_spec E (emax - prec)) as [|Hgt]; [reflexivity|].
  change (emax - prec) with 971 in Hgt. lia.
Qed.

Lemma binary_round_aux_canonical_0 s M E :
  0 < M -> fexp prec emax (Zdigits2 M + E) = E -> E <= 971 ->
  binary_round_aux prec emax s M E loc_Exact = S754_finite s (Z.to_pos M) E.
Proof.
  intros HM Hc HE.
  pose proof (binary_round_aux_canonical s M 0 E HM Hc HE ltac:(lia)) as H.
  change (2 ^ 0) with 1 in H. now rewrite Z.mul_1_r, Z.sub_0_r in H.
Qed.

Lemma Zdigits2_abs n : Zdigits2 (Z.abs n) = Zdigits2 n.
Proof. destruct n; reflexivity. Qed.

Lemma int_canonical n :
  n <> 0 -> Z.abs n < 2 ^ 53 ->
  0 < int_mantissa n
  /\ Zdigits2 (int_mantissa n) = 53
  /\ int_exponent n <= 0
  /\ fexp prec emax (Zdigits2 (int_mantissa n) + int_exponent n)
     = int_exponent n.
Proof.
  intros Hn Hlt. unfold int_mantissa, int_exponent.
  assert (0 < Z.abs n) as Hpos by lia.
  pose proof (Zdigits2_bounds (Z.abs n) Hpos) as Hb.
  rewrite Zdigits2_abs in Hb.
  assert (Zdigits2 n <= 53) as Hd
    by (rewrite <- Zdigits2_abs; apply Zdigits2_le_iff; lia).
  assert (1 <= Zdigits2 n).
  { destruct (Z_le_gt_dec 1 (Zdigits2 n)); [assumption|].
    pose proof (Zdigits2_nonneg n).
    replace (Zdigits2 n) with 0 in Hb by lia. simpl in Hb. lia. }
  pose proof (pow2_pos (53 - Zdigits2 n) ltac:(lia)).
  rewrite Zdigits2_mul_pow2, Zdigits2_abs by lia.
  rewrite fexp_eq. repeat split; try lia; nia.
Qed.

Lemma float_of_Z_canonical n :
  n <> 0 -> Z.abs n < 2 ^ 53 ->
  float_of_Z n
  = S754_finite (n <? 0) (Z.to_pos (int_mantissa n)) (int_exponent n).
Proof.
  intros Hn Hlt.
  destruct (int_canonical n Hn Hlt) as (Hm & Hd & He & Hc).
  assert (forall s p, Z.abs n = Zpos p ->
            binary_round prec emax s p 0
            = S754_finite s (Z.to_pos (int_mantissa n)) (int_exponent n))
    as Hround.
  { intros s p Hp. unfold binary_round.
    pose proof (shl_align_spec p 0
                  (fexp prec emax (Zpos (digits2_pos p) + 0))) as Hs.
    assert (Zpos (digits2_pos p) = Zdigits2 n) as Hdp
      by (rewrite <- Zdigits2_abs, Hp; reflexivity).
    assert (fexp prec emax (Zpos (digits2_pos p) + 0) = int_exponent n) as Hf.
    { rewrite Hdp, fexp_eq. unfold int_exponent.
      unfold int_exponent in He. lia. }
    unfold shl_align in *. rewrite Hf in *.
    destruct (int_exponent n - 0) as [|q|q] eqn:Eq.
    - assert (Zpos p = int_mantissa n) as ->.
      { unfold int_mantissa, int_exponent in *. rewrite Hp.
        replace (53 - Zdigits2 n) with 0 by lia. lia. }
      replace 0 with (int_exponent n) at 1 by lia.
      apply binary_round_aux_canonical_0; lia.
    - pose proof (Pos2Z.is_pos q). lia.
    - destruct Hs as [_ Hs]. rewrite Hs.
      assert (Zpos p * 2 ^ (0 - int_exponent n) = int_mantissa n) as ->.
      { unfold int_mantissa, int_exponent. rewrite Hp. do 2 f_equal. lia. }
      apply binary_round_aux_canonical_0; lia. }
  unfold float_of_Z, binary_normalize.
  destruct n as [|p|p]; [congruence| |]; apply Hround; reflexivity.
Qed.

Lemma default_factor_eq :
  default_factor = S754_finite false 4503599627370496 (-52).
Proof. reflexivity. Qed.

(** Multiplying a float by [1.0] gives the float back. *)
Lemma float_mul_one s m e :
  fexp prec emax (Zdigits2 (Zpos m) + e) = e -> e <= 971 ->
  float_mul (S754_finite s m e) default_factor = S754_finite s m e.
Proof.
  intros Hc He. rewrite default_factor_eq. unfold float_mul, SFmul.
  rewrite xorb_false_r.
  change (Z.pos (m * 4503599627370496)) with (Zpos m * 2 ^ 52).
  change (e + -52) with (e - 52).
  rewrite binary_round_aux_canonical by lia. reflexivity.
Qed.

Lemma SFdiv_core_binary_exact p q :
  0 < p -> 0 < q ->
  let k := - Z.min (fexp prec emax (Zdigits2 p - Zdigits2 q)) 0 in
  SFdiv_core_binary prec emax p 0 q 0
  = (p * 2 ^ k / q, - k, new_location q (p * 2 ^ k mod q)).
Proof.
  intros Hp Hq k. unfold SFdiv_core_binary.
  replace (Zdigits2 p + 0 - (Zdigits2 q + 0)) with (Zdigits2 p - Zdigits2 q)
    by lia.
  change (0 - 0) with 0.
  fold (- k). replace (Z.min (fexp prec emax (Zdigits2 p - Zdigits2 q)) 0)
    with (- k) by (subst k; lia).
  assert (0 <= k) as Hk by (subst k; lia).
  replace (0 - - k) with k by lia.
  assert (match k with
          | 0 => p
          | Z.pos _ => Z.shiftl p k
          | Z.neg _ => 0
          end = p * 2 ^ k) as ->.
  { destruct k as [|k'|k'] eqn:Ek; [simpl; lia| |lia].
    apply Z.shiftl_mul_pow2. lia. }
  unfold Z.div, Z.modulo.
  destruct (Z.div_eucl (p * 2 ^ k) q) as [a b]. reflexivity.
Qed.

(** The quotient of an integer below [2 ^ 53] by one is the float of
    the integer. *)
Lemma float_of_ratio_integer n :
  n <> 0 -> Z.abs n < 2 ^ 53 ->
  float_of_ratio (n <? 0) (Z.abs n) 1 = float_of_Z n.
Proof.
  intros Hn Hlt. rewrite float_of_Z_canonical by assumption.
  destruct (int_canonical n Hn Hlt) as (Hm & Hd & He & Hc).
  unfold float_of_ratio.
  destruct (Z.eqb_spec (Z.abs n) 0); [lia|].
  rewrite SFdiv_core_binary_exact by lia. cbv zeta.
  rewrite Zdigits2_abs. change (Zdigits2 1) with 1.
  assert (1 <= Zdigits2 n <= 53) as Hdn.
  { unfold int_mantissa in Hd.
    pose proof (Zdigits2_nonneg n).
    unfold int_exponent in He. split; [|lia].
    destruct (Z_le_gt_dec 1 (Zdigits2 n)); [assumption|].
    assert (0 < Z.abs n) as Hpos by lia.
    pose proof (Zdigits2_bounds (Z.abs n) Hpos) as Hb.
    rewrite Zdigits2_abs in Hb.
    replace (Zdigits2 n) with 0 in Hb by lia. simpl in Hb. lia. }
  rewrite fexp_eq.
  replace (- Z.min (Z.max (Zdigits2 n - 1 - 53) (-1074)) 0)
    with (54 - Zdigits2 n) by lia.
  rewrite Z.div_1_r, Z.mod_1_r, new_location_0.
  replace (Z.abs n * 2 ^ (54 - Zdigits2 n)) with (int_mantissa n * 2 ^ 1).
  - replace (- (54 - Zdigits2 n)) with (int_exponent n - 1)
      by (unfold int_exponent; lia).
    apply binary_round_aux_canonical; lia.
  - unfold int_mantissa. rewrite <- Z.mul_assoc, <- Z.pow_add_r by lia.
    do 2 f_equal. lia.
Qed.

(** Rounding the float of an integer below [2 ^ 53] to no decimal
    place gives it back. *)
Lemma round_integer n :
  Z.abs n < 2 ^ 53 -> Py.round (float_of_Z n) 0 = Ok (float_of_Z n).
Proof.
  intros Hlt. destruct (Z.eq_dec n 0) as [->|Hn]; [reflexivity|].
  rewrite <- (float_of_ratio_integer n Hn Hlt) at 2.
  rewrite float_of_Z_canonical by assumption.
  destruct (int_canonical n Hn Hlt) as (Hm & Hd & He & Hc).
  unfold Py.round. cbn [Z.ltb Z.compare]. cbv zeta.
  change (Z.max 0 0) with 0. change (Z.max (- 0) 0) with 0.
  change (10 ^ 0) with 1. rewrite !Z.mul_1_r.
  rewrite (Z.max_r (int_exponent n) 0), (Z.max_l (- int_exponent n) 0) by lia.
  change (2 ^ 0) with 1. rewrite Z.mul_1_r.
  rewrite Z2Pos.id by assumption.
  assert (round_half_even (int_mantissa n) (2 ^ (- int_exponent n))
          = Z.abs n) as ->.
  { unfold round_half_even, int_mantissa, int_exponent.
    replace (- (Zdigits2 n - 53)) with (53 - Zdigits2 n) by lia.
    pose proof (pow2_pos (53 - Zdigits2 n)
                  ltac:(unfold int_exponent in He; lia)).
    rewrite Z.mod_mul, Z.div_mul by lia.
    rewrite Z.mul_0_r.
    destruct (Z.compare_spec 0 (2 ^ (53 - Zdigits2 n)));
      [lia|reflexivity|lia]. }
  destruct (float_of_ratio (n <? 0) (Z.abs n) 1) eqn:Er; try reflexivity.
  rewrite float_of_ratio_integer, float_of_Z_canonical in Er by assumption.
  discriminate.
Qed.

Lemma float_of_Z_is_integer n :
  Z.abs n < 2 ^ 53 -> is_integer (float_of_Z n) n.
Proof.
  intros Hlt. destruct (Z.eq_dec n 0) as [->|Hn]; [reflexivity|].
  rewrite float_of_Z_canonical by assumption.
  destruct (int_canonical n Hn Hlt) as (Hm & Hd & He & Hc).
  cbn [is_integer]. rewrite Z2Pos.id by assumption.
  repeat split; [assumption|].
  unfold int_mantissa, int_exponent. do 2 f_equal. lia.
Qed.

Lemma decimal_places_default : decimal_places default_factor = Ok 0.
Proof. reflexivity. Qed.

Lemma scaled_by_one n :
  Z.abs n < 2 ^ 53 ->
  exc_bind (float_of_int n)
           (fun v => Py.round (float_mul v default_factor) 0)
  = Ok (float_of_Z n).
Proof.
  intros Hlt. destruct (Z.eq_dec n 0) as [->|Hn]; [reflexivity|].
  pose proof (round_integer n Hlt) as Hr.
  unfold float_of_int.
  rewrite float_of_Z_canonical in * by assumption.
  destruct (int_canonical n Hn Hlt) as (Hm & Hd & He & Hc).
  cbn [exc_bind].
  rewrite float_mul_one; [exact Hr| |lia].
  rewrite Z2Pos.id by assumption. exact Hc.
Qed.

(** What the rounding of a positive number gives when it neither
    underflows to zero nor overflows: one of the two neighbours of the
    number on the grid of its exponent. *)
Lemma binary_round_aux_near s m e l :
  0 < m ->
  let e1 := Z.max e (fexp prec emax (Zdigits2 m + e)) in
  let q := m / 2 ^ (e1 - e) in
  0 < q -> e1 + 1 <= 971 ->
  exists m' e',
    binary_round_aux prec emax s m e l = S754_finite s m' e'
    /\ e1 <= e' <= e1 + 1
    /\ q * 2 ^ (e1 - e) <= Zpos m' * 2 ^ (e' - e) <= (q + 1) * 2 ^ (e1 - e).
Proof.
  intros Hm e1 q Hq Hmax.
  destruct (shr_fexp_spec m e l ltac:(lia)) as [He1 Hm1].
  pose proof (shr_fexp_digits m e l ltac:(lia)) as Hd1. cbv zeta in Hd1.
  fold e1 in He1, Hm1. fold q in Hm1.
  unfold binary_round_aux.
  destruct (shr_fexp prec emax m e l) as [mrs1 e1'].
  cbn [fst snd] in He1, Hm1, Hd1. subst e1'. rewrite Hm1 in *.
  set (r := round_nearest_even q (loc_of_shr_record mrs1)).
  pose proof (round_nearest_even_bounds q (loc_of_shr_record mrs1)) as Hr.
  fold r in Hr.
  destruct (shr_fexp_spec r e1 loc_Exact ltac:(lia)) as [He2 Hm2].
  destruct (shr_fexp prec emax r e1 loc_Exact) as [mrs2 e2].
  cbn [fst snd] in He2, Hm2.
  rewrite fexp_eq in He2, Hm2.
  destruct Hd1 as (_ & Hdq & He1' & _).
  assert (-1074 <= e1) as Hlow by (rewrite He1'; lia).
  assert (0 <= e1 - e) as Hk by (subst e1; lia).
  assert (q < 2 ^ 53) as Hq53 by (apply Zdigits2_le_iff; lia).
  pose proof (Zdigits2_le r (q + 1) ltac:(lia)) as Hdr.
  pose proof (Zdigits2_succ q ltac:(lia)) as Hdq1.
  pose proof (pow2_pos (e1 - e) Hk) as Hpk.
  assert (shr_m mrs2 * 2 ^ (e2 - e1) = r /\ e1 <= e2 <= e1 + 1) as [Hex He12].
  { destruct (Z_le_gt_dec (Zdigits2 r) 53) as [Hle|Hgt].
    - assert (e2 = e1) as -> by lia.
      rewrite Hm2. rewrite Z.max_l by lia. rewrite Z.sub_diag.
      change (2 ^ 0) with 1. rewrite Z.div_1_r. lia.
    - assert (Zdigits2 r = 54) as Hd54 by lia.
      assert (2 ^ 53 <= r).
      { destruct (Z_le_gt_dec (2 ^ 53) r); [assumption|].
        assert (Zdigits2 r <= 53) by (apply Zdigits2_le_iff; lia). lia. }
      assert (r = 2 ^ 53) as Hr53 by lia.
      assert (e2 = e1 + 1) as -> by lia.
      rewrite Hm2, Hd54.
      replace (Z.max e1 (Z.max (54 + e1 - 53) (-1074)) - e1) with 1 by lia.
      replace (e1 + 1 - e1) with 1 by lia.
      rewrite Hr53. split; [reflexivity|lia]. }
  assert (0 < shr_m mrs2) as Hpos.
  { assert (0 < 2 ^ (e2 - e1)) by (apply pow2_pos; lia). nia. }
  destruct (shr_m mrs2) as [|m'|m'] eqn:Em; try lia.
  destruct (Z.leb_spec e2 (emax - prec)) as [|Hgt];
    [|change (emax - prec) with 971 in Hgt; lia].
  exists m', e2. split; [reflexivity|]. split; [lia|].
  replace (e2 - e) with ((e2 - e1) + (e1 - e)) by lia.
  rewrite Z.pow_add_r by lia. rewrite Z.mul_assoc, Hex. nia.
Qed.

(** The nearest integer of a quotient that is close to an integer. *)
Lemma round_half_even_near num den n :
  0 < den -> 2 * Z.abs (num - n * den) < den ->
  round_half_even num den = n.
Proof.
  intros Hden Hnear. unfold round_half_even.
  pose proof (Z.div_mod num den ltac:(lia)) as Hdm.
  pose proof (Z.mod_pos_bound num den Hden) as Hmod.
  set (q := num / den) in *. set (r := num mod den) in *.
  destruct (Z_le_gt_dec (n * den) num).
  - assert (q = n) as Hqn by nia.
    destruct (Z.compare_spec (2 * r) den); [nia|assumption|nia].
  - assert (q = n - 1) as Hqn by nia.
    destruct (Z.compare_spec (2 * r) den); [nia|nia|lia].
Qed.

(** The product of an integer below [2 ^ 50] and a factor that is
    nearly [10 ^ - K], rounded to [K] places, is the float nearest to
    the integer divided by [10 ^ K]. *)
Lemma scaled_decimal n mc ec K c0 :
  n <> 0 -> Z.abs n < 2 ^ 50 ->
  Zdigits2 (Zpos mc) = 53 -> -1074 <= ec <= -55 -> 0 <= K <= 323 ->
  10 ^ K * Zpos mc = 2 ^ (- ec) + c0 ->
  2 * (Z.abs c0 + 10 ^ K) < 2 ^ (- 50 - ec) ->
  Py.round (float_mul (float_of_Z n) (S754_finite false mc ec)) K
  = Ok (float_of_ratio (n <? 0) (Z.abs n) (10 ^ K)).
Proof.
  intros Hn Hlt Hdc Hec HK Hc0 Hsmall.
  assert (Z.abs n < 2 ^ 53) as Hlt53 by lia.
  rewrite float_of_Z_canonical by assumption.
  destruct (int_canonical n Hn Hlt53) as (HmN & HdN & HeN & _).
  set (a := Z.abs n) in *. set (mN := int_mantissa n) in *.
  set (eN := int_exponent n) in *.
  assert (1 <= Zdigits2 n <= 50) as Hdn.
  { split; [destruct n; [congruence| |]; cbn [Zdigits2]; lia|].
    rewrite <- Zdigits2_abs. apply Zdigits2_le_iff; subst a; lia. }
  assert (mN = a * 2 ^ (53 - Zdigits2 n)) as EmN by reflexivity.
  assert (eN = Zdigits2 n - 53) as EeN by reflexivity.
  pose proof (Zdigits2_bounds mN HmN) as HbN. rewrite HdN in HbN.
  pose proof (Zdigits2_bounds (Zpos mc) ltac:(lia)) as Hbc.
  rewrite Hdc in Hbc.
  change (2 ^ (53 - 1)) with (2 ^ 52) in *.
  unfold float_mul, SFmul. rewrite xorb_false_r.
  rewrite Pos2Z.inj_mul, Z2Pos.id by assumption.
  set (M := mN * Zpos mc). set (E := eN + ec).
  assert (2 ^ 104 <= M < 2 ^ 106) as HM.
  { subst M. change (2 ^ 104) with (2 ^ 52 * 2 ^ 52).
    change (2 ^ 106) with (2 ^ 53 * 2 ^ 53). nia. }
  assert (105 <= Zdigits2 M <= 106) as HdM.
  { split.
    - destruct (Z_le_gt_dec 105 (Zdigits2 M)); [assumption|].
      assert (M < 2 ^ 104) by (apply Zdigits2_le_iff; lia). lia.
    - apply Zdigits2_le_iff; lia. }
  set (k := Zdigits2 M - 53).
  assert (Z.max E (fexp prec emax (Zdigits2 M + E)) = E + k) as He1
    by (rewrite fexp_eq; subst k E; lia).
  pose proof (pow2_pos k ltac:(subst k; lia)) as Hpk.
  assert (2 ^ k <= 2 ^ 53) as Hk53
    by (apply Z.pow_le_mono_r; subst k; lia).
  assert (2 ^ 52 <= M / 2 ^ k) as Hq.
  { apply Z.div_le_lower_bound; [assumption|].
    pose proof (Zdigits2_bounds M ltac:(lia)) as [HMlo _].
    replace (Zdigits2 M - 1) with (k + 52) in HMlo by (subst k; lia).
    rewrite Z.pow_add_r in HMlo by (subst k; lia). lia. }
  destruct (binary_round_aux_near (n <? 0) M E loc_Exact ltac:(lia))
    as (mx & ex & -> & Hex & Hnear).
  { rewrite He1. replace (E + k - E) with k by lia. lia. }
  { rewrite He1. subst k E. lia. }
  rewrite He1 in Hex, Hnear. replace (E + k - E) with k in Hnear by lia.
  pose proof (Z.div_mod M (2 ^ k) ltac:(lia)) as Hdm.
  pose proof (Z.mod_pos_bound M (2 ^ k) Hpk) as Hmod.
  set (q := M / 2 ^ k) in *.
  assert (ex < 0) as Hexneg by (subst k E; lia).
  assert (0 <= ex - E) as Ht by lia.
  pose proof (pow2_pos (ex - E) Ht) as Hpt.
  set (t := 2 ^ (ex - E)) in *.
  assert (Z.abs (Zpos mx * t - M) <= 2 ^ 53) as Hdelta by lia.
  assert (2 ^ (- ex) * t = 2 ^ (- E)) as Hden.
  { subst t. rewrite <- Z.pow_add_r by lia. f_equal. lia. }
  assert (10 ^ K * M = a * 2 ^ (- E) + c0 * mN) as HKM.
  { subst M. rewrite (Z.mul_comm mN), Z.mul_assoc, Hc0.
    rewrite Z.mul_add_distr_r. f_equal.
    rewrite EmN. rewrite (Z.mul_comm (2 ^ (- ec))), <- Z.mul_assoc.
    rewrite <- Z.pow_add_r by lia. do 2 f_equal. subst E. lia. }
  pose proof (pow10_pos K ltac:(lia)) as H10.
  pose proof (pow2_pos (- ex) ltac:(lia)) as Hpex.
  unfold Py.round.
  destruct (Z.ltb_spec 323 K); [lia|].
  destruct (Z.ltb_spec K (-308)); [lia|].
  cbv zeta.
  rewrite (Z.max_r ex 0), (Z.max_l (- ex) 0), (Z.max_l K 0),
    (Z.max_r (- K) 0) by lia.
  change (2 ^ 0) with 1. change (10 ^ 0) with 1. rewrite !Z.mul_1_r.
  rewrite (round_half_even_near _ _ a); [|assumption|].
  - pose proof (float_of_ratio_small (n <? 0) a (10 ^ K) 50
                  ltac:(lia) H10 ltac:(lia) ltac:(nia)) as Hfin.
    destruct (float_of_ratio (n <? 0) a (10 ^ K)); try reflexivity.
    exfalso. eapply Hfin. reflexivity.
  - (* the distance, scaled by [t] *)
    assert (2 ^ (- E) = 2 ^ (- 50 - ec) * 2 ^ (50 - Zdigits2 n) * 2 ^ 53)
      as HE.
    { rewrite <- !Z.pow_add_r by lia. f_equal. subst E. lia. }
    pose proof (pow2_pos (50 - Zdigits2 n) ltac:(lia)) as Hp50.
    pose proof (pow2_pos (- 50 - ec) ltac:(lia)) as Hpec.
    assert ((Zpos mx * 10 ^ K - a * 2 ^ (- ex)) * t
            = c0 * mN + 10 ^ K * (Zpos mx * t - M)) as Hdiff.
    { rewrite Z.mul_sub_distr_r, <- (Z.mul_assoc a), Hden.
      rewrite Z.mul_sub_distr_l, HKM. ring. }
    assert (Z.abs (c0 * mN + 10 ^ K * (Zpos mx * t - M))
            <= (Z.abs c0 + 10 ^ K) * 2 ^ 53) as Hbound.
    { eapply Z.le_trans; [apply Z.abs_triangle|].
      rewrite !Z.abs_mul. rewrite (Z.abs_eq mN), (Z.abs_eq (10 ^ K)) by lia.
      rewrite Z.mul_add_distr_r.
      apply Z.add_le_mono.
      - apply Z.mul_le_mono_nonneg_l; lia.
      - apply Z.mul_le_mono_nonneg_l; lia. }
    rewrite <- Hdiff in Hbound. rewrite Z.abs_mul in Hbound.
    rewrite (Z.abs_eq t) in Hbound by lia.
    apply (Z.mul_lt_mono_pos_r t); [lia|].
    rewrite Hden, HE.
    assert (2 * (Z.abs c0 + 10 ^ K)
            < 2 ^ (-50 - ec) * 2 ^ (50 - Zdigits2 n)) as Hx.
    { eapply Z.lt_le_trans; [exact Hsmall|].
      rewrite <- (Z.mul_1_r (2 ^ (-50 - ec))) at 1.
      apply Z.mul_le_mono_nonneg_l; lia. }
    eapply Z.le_lt_trans.
    + rewrite <- Z.mul_assoc.
      apply Z.mul_le_mono_nonneg_l; [lia|exact Hbound].
    + rewrite Z.mul_assoc.
      apply Z.mul_lt_mono_pos_r; [reflexivity|exact Hx].
Qed.

Lemma decimal_factor_cases K :
  1 <= K <= 3 ->
  exists mc ec c0,
    decimal_factor K = S754_finite false mc ec
    /\ decimal_places (decimal_factor K) = Ok K
    /\ Zdigits2 (Zpos mc) = 53 /\ -1074 <= ec <= -55
    /\ 10 ^ K * Zpos mc = 2 ^ (- ec) + c0
    /\ 2 * (Z.abs c0 + 10 ^ K) < 2 ^ (- 50 - ec).
Proof.
  intros HK.
  assert (K = 1 \/ K = 2 \/ K = 3) as [->|[->| ->]] by lia.
  - exists 7205759403792794%positive, (-56), 4.
    repeat split; try reflexivity; vm_compute; congruence.
  - exists 5764607523034235%positive, (-59), 12.
    repeat split; try reflexivity; vm_compute; congruence.
  - exists 4611686018427388%positive, (-62), 96.
    repeat split; try reflexivity; vm_compute; congruence.
Qed.

Lemma scaled_by_decimal n K :
  1 <= K <= 3 -> Z.abs n < 2 ^ 50 ->
  exc_bind (decimal_places (decimal_factor K)) (fun places =>
  exc_bind (float_of_int n) (fun v =>
  Py.round (float_mul v (decimal_factor K)) places))
  = Ok (quotient n (10 ^ K)).
Proof.
  intros HK Hlt.
  destruct (decimal_factor_cases K HK)
    as (mc & ec & c0 & Hf & Hp & Hd & Hec & Hc0 & Hsmall).
  rewrite Hp. cbn [exc_bind]. rewrite Hf.
  destruct (Z.eq_dec n 0) as [->|Hn]; [reflexivity|].
  assert (float_of_int n = Ok (float_of_Z n)) as ->.
  { unfold float_of_int. rewrite float_of_Z_canonical by lia. reflexivity. }
  cbn [exc_bind]. unfold quotient.
  apply scaled_decimal with (c0 := c0); try assumption; lia.
Qed.

Lemma int_from_bytes_signed_range data :
  Z.abs (int_from_bytes_signed data) <= 256 ^ len data.
Proof.
  pose proof (int_from_bytes_unsigned_range data) as Hu.
  unfold int_from_bytes_signed.
  replace (2 ^ (8 * len data)) with (256 ^ len data)
    by (change 256 with (2 ^ 8); rewrite <- Z.pow_mul_r;
        [reflexivity|lia|apply len_nonneg]).
  destruct (_ && _); lia.
Qed.

Lemma short_span_bound (data : bytes) :
  len data <= 6 -> 256 ^ len data <= 2 ^ 48.
Proof.
  intros Hlen. pose proof (len_nonneg data).
  change (2 ^ 48) with (256 ^ 6). apply Z.pow_le_mono_r; lia.
Qed.

(** X9: with the factor 1.0 the integer codecs are exact on spans of
    at most six bytes: [parse_uint] and [parse_int] raise nothing and
    return the float that is exactly the unsigned, respectively the
    signed, little-endian integer of the span. *)
Theorem parse_integer_exact data :
  len data <= 6 ->
  (exists v, parse_uint data default_factor = Ok v
             /\ is_integer v (int_from_bytes_unsigned data))
  /\ (exists v, parse_int data default_factor = Ok v
                /\ is_integer v (int_from_bytes_signed data)).
Proof.
  intros Hlen.
  pose proof (short_span_bound data Hlen) as Hb.
  pose proof (int_from_bytes_unsigned_range data) as Hu.
  pose proof (int_from_bytes_signed_range data) as Hs.
  split.
  - exists (float_of_Z (int_from_bytes_unsigned data)).
    unfold parse_uint. rewrite decimal_places_default. cbn [exc_bind].
    split; [apply scaled_by_one|apply float_of_Z_is_integer]; lia.
  - exists (float_of_Z (int_from_bytes_signed data)).
    unfold parse_int. rewrite decimal_places_default. cbn [exc_bind].
    split; [apply scaled_by_one|apply float_of_Z_is_integer]; lia.
Qed.

(** X10: with a factor 0.1, 0.01 or 0.001 and a span of at most six
    bytes, [parse_uint] and [parse_int] raise nothing and return the
    float nearest to the integer of the span divided by 10, 100 or
    1000: the product with the inexact factor and the rounding to 1, 2
    or 3 places give what the division of the integers gives. *)
Theorem parse_decimal_factor data K :
  1 <= K <= 3 -> len data <= 6 ->
  parse_uint data (decimal_factor K)
    = Ok (quotient (int_from_bytes_unsigned data) (10 ^ K))
  /\ parse_int data (decimal_factor K)
     = Ok (quotient (int_from_bytes_signed data) (10 ^ K)).
Proof.
  intros HK Hlen.
  pose proof (short_span_bound data Hlen) as Hb.
  pose proof (int_from_bytes_unsigned_range data) as Hu.
  pose proof (int_from_bytes_signed_range data) as Hs.
  split; [unfold parse_uint|unfold parse_int];
    apply scaled_by_decimal; lia.
Qed.

(** X11: with a factor that is an infinity or a NaN the three numeric
    codecs raise [ValueError] whatever the span is; [parse_float] does
    so before it looks at the width of the span, and logs nothing. *)
Theorem non_finite_factor_raises data factor :
  is_finite factor = false ->
  parse_uint data factor = Err ValueError
  /\ parse_int data factor = Err ValueError
  /\ parse_float data factor = (Err ValueError, []).
Proof.
  intros Hfin.
  assert (decimal_places factor = Err ValueError) as Hd.
  { destruct factor as [s|[]| |s m e]; try discriminate; reflexivity. }
  unfold parse_uint, parse_int, parse_float. rewrite Hd. repeat split.
Qed.

Lemma float_mul_non_finite x y :
  is_finite x = false -> is_finite (float_mul x y) = false.
Proof.
  unfold float_mul, SFmul.
  destruct x as [sx|sx| |sx mx ex]; try discriminate; intros _;
    destruct y as [sy|sy| |sy my ey]; reflexivity.
Qed.

Lemma round_non_finite x ndigits :
  is_finite x = false -> Py.round x ndigits = Ok x.
Proof. destruct x; try discriminate; reflexivity. Qed.

(** X12: a float record of 2, 4 or 8 bytes that holds an infinity or a
    NaN is not rejected: with a finite factor [parse_float] returns a
    value that is not finite either, logs nothing, and the value counts
    as true, so that the scan records it as a sensor update. *)
Theorem parse_float_non_finite data factor :
  len data = 2 \/ len data = 4 \/ len data = 8 ->
  is_finite factor = true -> is_finite (unpack data) = false ->
  exists v,
    parse_float data factor = (Ok (Some v), [])
    /\ is_finite v = false /\ float_bool v = true.
Proof.
  intros Hlen Hfin Hval.
  exists (float_mul (unpack data) factor).
  pose proof (float_mul_non_finite (unpack data) factor Hval) as Hm.
  unfold parse_float. rewrite (decimal_places_finite factor Hfin).
  cbv zeta. unfold unpack in *.
  destruct Hlen as [E | [E | E]]; rewrite E in *; cbn [Z.eqb Pos.eqb] in *;
    rewrite round_non_finite by exact Hm; cbn [exc_bind];
    (split; [reflexivity|]); (split; [exact Hm|]);
    destruct (float_mul _ factor); try discriminate; reflexivity.
Qed.

(** X13: [parse_string] accepts every span of ASCII bytes and returns
    its characters, one per byte. *)
Theorem parse_string_ascii data :
  forallb (fun b => byte_val b <? 128) data = true ->
  parse_string data = Ok (map byte_val data).
Proof.
  intros Hascii. unfold parse_string, decode_utf8.
  assert (utf8_decode (map byte_val data) = Some (map byte_val data)) as ->;
    [|reflexivity].
  induction data as [|b rest IH]; [reflexivity|].
  cbn [forallb] in Hascii. apply andb_true_iff in Hascii as [Hb Hrest].
  cbn [map utf8_decode]. rewrite Hb, (IH Hrest). reflexivity.
Qed.

Lemma int_from_bytes_unsigned_app a b :
  int_from_bytes_unsigned (a ++ b)
  = int_from_bytes_unsigned a + 256 ^ len a * int_from_bytes_unsigned b.
Proof.
  induction a as [|x a IH].
  - cbn [app int_from_bytes_unsigned]. change (len []) with 0. lia.
  - cbn [app int_from_bytes_unsigned]. rewrite IH.
    unfold len. cbn [length]. rewrite Nat2Z.inj_succ, Z.pow_succ_r by lia.
    lia.
Qed.

(** X14: the sign of a signed span is the top bit of its last byte:
    when the last byte is below 0x80, [parse_int] reads the span as
    [parse_uint] does, with any factor; when it is 0x80 or more, the
    integer is the unsigned one less [256 ^ len data], a negative
    number. *)
Theorem parse_int_sign (front : bytes) (last : byte) factor :
  let data := front ++ [last] in
  (byte_val last < 128 ->
   int_from_bytes_signed data = int_from_bytes_unsigned data
   /\ parse_int data factor = parse_uint data factor)
  /\ (128 <= byte_val last ->
      int_from_bytes_signed data
      = int_from_bytes_unsigned data - 256 ^ len data
      /\ int_from_bytes_signed data < 0).
Proof.
  intros data.
  pose proof (len_nonneg front) as Hf.
  pose proof (int_from_bytes_unsigned_range front) as Hu.
  pose proof (byte_val_range last) as Hb.
  assert (len data = len front + 1) as Hlen
    by (subst data; rewrite len_app; reflexivity).
  assert (int_from_bytes_unsigned data
          = int_from_bytes_unsigned front + 256 ^ len front * byte_val last)
    as Hval.
  { subst data. rewrite int_from_bytes_unsigned_app.
    cbn [int_from_bytes_unsigned]. lia. }
  assert (2 ^ (8 * len data - 1) = 256 ^ len front * 128) as Hhalf.
  { rewrite Hlen. replace (8 * (len front + 1) - 1) with (8 * len front + 7)
      by lia.
    rewrite Z.pow_add_r, Z.pow_mul_r by lia. reflexivity. }
  assert (2 ^ (8 * len data) = 256 ^ len data) as Hfull.
  { rewrite Z.pow_mul_r by lia. reflexivity. }
  assert (256 ^ len data = 256 ^ len front * 256) as Hfull'.
  { rewrite Hlen, Z.pow_add_r by lia. reflexivity. }
  pose proof (Z.pow_pos_nonneg 256 (len front) ltac:(lia) Hf) as Hp.
  unfold parse_int, parse_uint, int_from_bytes_signed.
  rewrite Hhalf, Hfull.
  destruct (Z.ltb_spec 0 (len data)); [|lia]. cbn [andb].
  split; intros Hlast.
  - destruct (Z.leb_spec (256 ^ len front * 128)
                (int_from_bytes_unsigned data)); [nia|].
    split; reflexivity.
  - destruct (Z.leb_spec (256 ^ len front * 128)
                (int_from_bytes_unsigned data)); [|nia].
    split; [reflexivity|]. nia.
Qed.

Section FurtherProperties.
Context `{C : Const} `{A : Cryptodome}.

Ltac run :=
  cbn [bind ret eval raise get modify LOGGER logging logging_exc
       update_predefined_sensor option_float_bool text_bool fst snd
       negb andb orb].

(** ** The device address *)

(** X1: [to_mac] and the reading of the address in [_parse_bthome] are
    inverse to each other: [bytes.fromhex] of the formatted address
    without its colons gives the bytes back; for six bytes the
    formatted address is a well-formed MAC address, its short address
    is the formatted last three bytes, and [_parse_bthome] reads the
    six bytes from it as the source MAC. *)
Theorem to_mac_round_trip (mac : bytes) :
  fromhex (remove_char ":" (to_mac mac)) = Ok mac
  /\ (len mac = 6 ->
      is_mac_address (to_mac mac) = true
      /\ short_address (to_mac mac)
         = concat (map (fun b => format_02X (byte_val b)) (drop 3 mac))
      /\ forall si st,
           address si = to_mac mac ->
           read_address si st
           = Some (Ok (Some mac), with_mac_known true st)).
Proof.
  split; [apply fromhex_to_mac|]. intros Hlen.
  split; [now apply to_mac_is_mac_address|].
  split; [now apply short_address_to_mac|].
  intros si st Ha.
  destruct (fromhex_mac_address (to_mac mac)
              (to_mac_is_mac_address mac Hlen)) as (H17 & _).
  unfold read_address, bind, eval. rewrite Ha, H17.
  cbn [Z.eqb Pos.eqb negb]. run. now rewrite fromhex_to_mac.
Qed.


(** X3: an address that is not a MAC address (its length is not 17 and
    its third character is not a colon, as for the identifiers that
    macOS reports) makes [_parse_bthome] return [False] at once: the
    device is marked as of unknown MAC, and nothing else is set,
    decrypted, decoded or logged. *)
Theorem foreign_address_rejected si name data st c :
  len (address si) <> 17 ->
  address si !! 2%nat = Some c -> c <> ":"%char ->
  _parse_bthome si name data st = Some (Ok false, with_mac_known false st).
Proof.
  intros Hlen Hc Hne.
  unfold _parse_bthome, read_address, bind, eval.
  destruct (Z.eqb_spec (len (address si)) 17); [contradiction|].
  cbn [negb]. unfold Py.index. cbn [Z.ltb Z.compare].
  change (Z.to_nat 2) with 2%nat. rewrite Hc. cbn [exc_bind].
  destruct (Ascii.eqb_spec c ":"); [contradiction|]. reflexivity.
Qed.

(** X4: an address that cannot be read makes [_parse_bthome] raise
    before anything is named or decoded: [IndexError] when the address
    has fewer than three characters (the test of its third character),
    and [ValueError] when it has 17 characters that [bytes.fromhex]
    does not accept once the colons are removed. *)
Theorem unreadable_address_raises si name data st :
  (len (address si) < 3 ->
   _parse_bthome si name data st = Some (Err IndexError, st))
  /\ (forall e,
        len (address si) = 17 ->
        fromhex (remove_char ":" (address si)) = Err e ->
        _parse_bthome si name data st
          = Some (Err ValueError, with_mac_known true st)).
Proof.
  split.
  - intros Hlen. unfold _parse_bthome, read_address, bind, eval.
    destruct (Z.eqb_spec (len (address si)) 17); [lia|].
    cbn [negb]. rewrite index_past_end by lia. reflexivity.
  - intros e Hlen He. unfold _parse_bthome, read_address, bind, eval.
    rewrite Hlen. cbn [Z.eqb Pos.eqb negb]. run.
    rewrite He. now rewrite (fromhex_error _ _ He).
Qed.

(** ** What the decryptor leaves alone *)

Lemma decrypt_bthome_log data mac st :
  exists r st' l,
    _decrypt_bthome data mac st = Some (r, st')
    /\ (forall e, r = Err e -> e = ValueError)
    /\ bindkey st' = bindkey st
    /\ sensor_updates st' = sensor_updates st
    /\ log st' = log st ++ l.
Proof.
  assert (forall l : list log_record, l = l ++ []) as Hnil
    by (intros; now rewrite app_nil_r).
  unfold _decrypt_bthome. run.
  destruct (negb (bindkey_bool (bindkey st)));
    [eexists _, _, [(DEBUG, msg_key_not_set)]; split; [reflexivity|]; cbn;
     repeat split; congruence|].
  destruct (_ || _);
    [eexists _, _, [(ERROR, msg_key_length)]; split; [reflexivity|]; cbn;
     repeat split; congruence|].
  destruct (len data <? 15);
    [eexists _, _, [(DEBUG, msg_data_length)]; split; [reflexivity|]; cbn;
     repeat split; congruence|].
  cbv zeta.
  destruct (AES_new _ _ 4) as [c|];
    [|exists (Err ValueError), st, []; split; [reflexivity|];
      repeat split; first [congruence | apply Hnil]].
  destruct (decrypt_and_verify _ _ _) as [p| |]; run.
  - exists (Ok p), (with_bindkey_verified true st), [].
    split; [reflexivity|]. cbn.
    repeat split; first [discriminate | apply Hnil].
  - eexists _, _, [(ERROR, msg_payload_none)]. split; [reflexivity|]. cbn.
    repeat split; congruence.
  - eexists _, _, [(WARNING, msg_decryption_failed); (DEBUG, msg_mic);
                   (DEBUG, msg_nonce); (DEBUG, msg_encrypted_payload)].
    split; [reflexivity|]. cbn.
    repeat split; first [congruence | rewrite <- !app_assoc; reflexivity].
Qed.

(** X5: [_decrypt_bthome] always returns or raises [ValueError], and
    nothing else; it changes nothing of the device but the key-verified
    flag and the log: the key, the encryption scheme, the names and the
    sensor updates are as before, and the log is only appended to.
    When it returns the plaintext it has logged nothing and the flag is
    set.  A payload shorter than 15 bytes, with a 16-byte key, is
    refused without the flag being touched. *)
Theorem decrypt_bthome_frame data mac st :
  exists r st' l,
    _decrypt_bthome data mac st = Some (r, st')
    /\ (forall e, r = Err e -> e = ValueError)
    /\ bindkey st' = bindkey st
    /\ encryption_scheme st' = encryption_scheme st
    /\ mac_known st' = mac_known st
    /\ device_name st' = device_name st
    /\ title st' = title st
    /\ sw_version st' = sw_version st
    /\ sensor_updates st' = sensor_updates st
    /\ log st' = log st ++ l
    /\ (forall p, r = Ok p -> l = [] /\ bindkey_verified st' = true)
    /\ (bindkey_bool (bindkey st) = true ->
        bindkey_len (bindkey st) = 16 -> len data < 15 ->
        bindkey_verified st' = bindkey_verified st).
Proof.
  assert (forall l : list log_record, l = l ++ []) as Hnil
    by (intros; now rewrite app_nil_r).
  unfold _decrypt_bthome. run.
  destruct (bindkey_bool (bindkey st)) eqn:Hb; cbn [negb orb];
    [|eexists _, _, [(DEBUG, msg_key_not_set)]; split; [reflexivity|]; cbn;
      repeat split; discriminate || congruence].
  destruct (Z.eqb_spec (bindkey_len (bindkey st)) 16) as [Hl|Hl]; cbn [negb];
    [|eexists _, _, [(ERROR, msg_key_length)]; split; [reflexivity|]; cbn;
      repeat split; discriminate || congruence].
  destruct (Z.ltb_spec (len data) 15) as [Hd|Hd];
    [eexists _, _, [(DEBUG, msg_data_length)]; split; [reflexivity|]; cbn;
     repeat split; discriminate || congruence|].
  cbv zeta.
  destruct (AES_new _ _ 4) as [c|];
    [|exists (Err ValueError), st, []; split; [reflexivity|];
      repeat split; first [discriminate | congruence | lia | apply Hnil]].
  destruct (decrypt_and_verify _ _ _) as [p| |]; run.
  - exists (Ok p), (with_bindkey_verified true st), [].
    split; [reflexivity|]. cbn.
    repeat split; first [discriminate | congruence | lia | apply Hnil].
  - eexists _, _, [(ERROR, msg_payload_none)]. split; [reflexivity|]. cbn.
    repeat split; first [discriminate | congruence | lia].
  - eexists _, _, [(WARNING, msg_decryption_failed); (DEBUG, msg_mic);
                   (DEBUG, msg_nonce); (DEBUG, msg_encrypted_payload)].
    split; [reflexivity|]. cbn.
    repeat split;
      first [discriminate | congruence | lia
            | rewrite <- !app_assoc; reflexivity].
Qed.

(** ** The effect of a scan *)

Lemma grow_nil st : grow [] [] st = st.
Proof. destruct st. unfold grow. cbn. now rewrite !app_nil_r. Qed.

Lemma grow_grow u1 l1 u2 l2 st :
  grow u2 l2 (grow u1 l1 st) = grow (u1 ++ u2) (l1 ++ l2) st.
Proof. unfold grow. cbn. now rewrite !app_assoc. Qed.

Lemma with_log_grow l st : with_log l st = grow [] l st.
Proof. unfold with_log, grow. now rewrite app_nil_r. Qed.

Lemma with_sensor_update_grow d v st :
  with_sensor_update d v st = grow [(d, v)] [] st.
Proof. unfold with_sensor_update, grow. now rewrite app_nil_r. Qed.

Ltac to_grow :=
  rewrite ?with_log_grow, ?with_sensor_update_grow, ?grow_grow;
  cbn [app].

Lemma object_scan_error x : object_error x -> scan_error x.
Proof. unfold object_error, numeric_error, scan_error. tauto. Qed.

(** Decoding one object does the same whatever the state and the
    result so far. *)
Lemma decode_object_uniform payload dl fmt mt start next :
  exists e u l,
    (forall x, e = Some x -> u = [] /\ object_error x)
    /\ forall result st,
         decode_object payload dl fmt mt start next result st
         = Some (scan_outcome e u result, grow u l st).
Proof.
  assert (Hok : forall l : list log_record,
    exists e u l',
      (forall x, e = Some x -> u = [] /\ object_error x)
      /\ forall (result : bool) st,
           Some (Ok result, grow [] l st)
           = Some (scan_outcome e u result, grow u l' st)).
  { intros l. exists None, [], l. split; [discriminate|].
    intros result st. unfold scan_outcome.
    rewrite bool_decide_eq_true_2 by reflexivity.
    now rewrite orb_false_r. }
  assert (Hup : forall d v,
    exists e u l',
      (forall x, e = Some x -> u = [] /\ object_error x)
      /\ forall (result : bool) st,
           Some (Ok true, grow [(d, v)] [] st)
           = Some (scan_outcome e u result, grow u l' st)).
  { intros d v. exists None, [(d, v)], []. split; [discriminate|].
    intros result st. unfold scan_outcome.
    rewrite bool_decide_eq_false_2 by discriminate.
    now rewrite orb_true_r. }
  assert (Herr : forall x, object_error x ->
    exists e u l',
      (forall x, e = Some x -> u = [] /\ object_error x)
      /\ forall (result : bool) st,
           Some (@Err bool x, st)
           = Some (scan_outcome e u result, grow u l' st)).
  { intros x Hx. exists (Some x), [], []. split.
    - intros ? [= <-]. split; [reflexivity|assumption].
    - intros result st. now rewrite grow_nil. }
  unfold decode_object.
  destruct (negb (dl =? 0));
    [|destruct (Hok []) as (e & u & l & He & Heq); exists e, u, l;
      split; [exact He|]; intros result st; run;
      rewrite <- Heq, grow_nil; reflexivity].
  destruct (fmt <=? 3).
  - destruct (MEAS_TYPES !! mt) as [meas_type|].
    2:{ destruct (Hok [(DEBUG, msg_unknown_meas_type)])
          as (e & u & l & He & Heq).
        exists e, u, l. split; [exact He|]. intros result st. run.
        to_grow. apply Heq. }
    cbv zeta.
    set (meas_data := Py.slice payload (Some (start + 2)) (Some next)).
    assert (Hnum : forall (p : exc float),
      (forall x, p = Err x -> numeric_error x) ->
      exists e u l,
        (forall x, e = Some x -> u = [] /\ object_error x)
        /\ forall result st,
             bind (bind (eval p) (fun v => ret (Some v, @None text)))
               (fun '(meas_float, meas_str) =>
                  if option_float_bool meas_float
                  then bind (update_predefined_sensor (meas_format meas_type)
                                                      meas_float)
                            (fun _ => ret true)
                  else if text_bool meas_str
                       then bind (LOGGER DEBUG msg_string_unsupported)
                                 (fun _ => ret result)
                       else bind (LOGGER DEBUG msg_unknown_dataobject)
                                 (fun _ => ret result)) st
             = Some (scan_outcome e u result, grow u l st)).
    { intros [v|x] Hp.
      - destruct (float_bool v) eqn:Ev.
        + destruct (Hup (meas_format meas_type) v) as (e & u & l & He & Heq).
          exists e, u, l. split; [exact He|]. intros result st. run.
          rewrite Ev. run. to_grow. apply Heq.
        + destruct (Hok [(DEBUG, msg_unknown_dataobject)])
            as (e & u & l & He & Heq).
          exists e, u, l. split; [exact He|]. intros result st. run.
          rewrite Ev. run. to_grow. apply Heq.
      - destruct (Herr x) as (e & u & l & He & Heq).
        { left. apply Hp. reflexivity. }
        exists e, u, l. split; [exact He|]. intros result st. run.
        apply Heq. }
    destruct (fmt =? 0); [apply Hnum; intros x; apply parse_uint_error|].
    destruct (fmt =? 1); [apply Hnum; intros x; apply parse_int_error|].
    destruct (fmt =? 2).
    { destruct (parse_float meas_data (factor meas_type))
        as [[[v|]|x] lf] eqn:E.
      - destruct (float_bool v) eqn:Ev.
        + destruct (Hup (meas_format meas_type) v) as (e & u & l & He & Heq).
          exists e, u, (lf ++ l). split; [exact He|]. intros result st. run.
          rewrite Ev. run. to_grow.
          specialize (Heq result (grow [] lf st)).
          rewrite !grow_grow in Heq. cbn [app] in Heq. exact Heq.
        + exists None, [], (lf ++ [(DEBUG, msg_unknown_dataobject)]).
          split; [discriminate|]. intros result st. run.
          rewrite Ev. run. to_grow. unfold scan_outcome.
          rewrite bool_decide_eq_true_2 by reflexivity.
          now rewrite orb_false_r.
      - exists None, [], (lf ++ [(DEBUG, msg_unknown_dataobject)]).
        split; [discriminate|]. intros result st. run. to_grow.
        unfold scan_outcome.
        rewrite bool_decide_eq_true_2 by reflexivity.
        now rewrite orb_false_r.
      - exists (Some x), [], lf. split.
        + intros ? [= <-]. split; [reflexivity|]. left.
          apply (parse_float_error meas_data (factor meas_type)).
          now rewrite E.
        + intros result st. run. to_grow. reflexivity. }
    destruct (fmt =? 3).
    { destruct (parse_string meas_data) as [[|c t]|x] eqn:E.
      - destruct (Hok [(DEBUG, msg_unknown_dataobject)])
          as (e & u & l & He & Heq).
        exists e, u, l. split; [exact He|]. intros result st. run.
        to_grow. apply Heq.
      - destruct (Hok [(DEBUG, msg_string_unsupported)])
          as (e & u & l & He & Heq).
        exists e, u, l. split; [exact He|]. intros result st. run.
        to_grow. apply Heq.
      - destruct (Herr x) as (e & u & l & He & Heq).
        { right. now apply parse_string_error in E. }
        exists e, u, l. split; [exact He|]. intros result st. run.
        apply Heq. }
    destruct (Hok [(DEBUG, msg_unknown_dataobject)]) as (e & u & l & He & Heq).
    exists e, u, l. split; [exact He|]. intros result st. run.
    to_grow. apply Heq.
  - destruct (fmt =? 4).
    + destruct (Hok (snd (parse_mac (Py.slice payload (Some (start + 1))
                                              (Some next)))))
        as (e & u & l & He & Heq).
      exists e, u, l. split; [exact He|]. intros result st. run.
      to_grow. apply Heq.
    + destruct (Hok [(ERROR, msg_unknown_dataobject)])
        as (e & u & l & He & Heq).
      exists e, u, l. split; [exact He|]. intros result st. run.
      to_grow. apply Heq.
Qed.

Lemma loop_body_eq payload start result st :
  loop_body payload start result st
  = match Py.index payload start with
    | Err x => Some (Err x, st)
    | Ok cb =>
        match Py.index payload (start + 1) with
        | Err x => Some (Err x, st)
        | Ok mt =>
            let dl := Z.land (Z.shiftr (byte_val cb) 0) 31 in
            if len payload <? start + 1 + dl
            then Some (Ok Break, with_log [(DEBUG, msg_invalid_length)] st)
            else
              match decode_object payload dl
                      (Z.land (Z.shiftr (byte_val cb) 5) 7) (byte_val mt)
                      start (start + 1 + dl) result st with
              | Some (Ok r, st') => Some (Ok (Continue (start + 1 + dl) r), st')
              | Some (Err e, st') => Some (Err e, st')
              | None => None
              end
        end
    end.
Proof.
  unfold loop_body, bind, eval.
  destruct (Py.index payload start); [|reflexivity].
  destruct (Py.index payload (start + 1)); [|reflexivity].
  cbv zeta. destruct (len payload <? _); reflexivity.
Qed.

Lemma loop_body_uniform payload start :
  exists k u l,
    (forall x, k = Raised x -> u = [] /\ scan_error x)
    /\ (k = Broke -> u = [])
    /\ forall result st,
         loop_body payload start result st
         = Some (pass_outcome k u result, grow u l st).
Proof.
  assert (Hindex : forall i (x : exn) (T : Type),
            Py.index payload i = Err x -> x = IndexError).
  { intros i x _. unfold Py.index.
    destruct (_ <? 0); [congruence|].
    destruct (payload !! _); congruence. }
  pose proof (fun result st => loop_body_eq payload start result st) as Hlb.
  destruct (Py.index payload start) as [cb|x] eqn:E0.
  2:{ exists (Raised x), [], []. split; [|split; [discriminate|]].
      - intros ? [= <-]. split; [reflexivity|]. left.
        now apply (Hindex start x unit).
      - intros result st. rewrite Hlb. now rewrite grow_nil. }
  destruct (Py.index payload (start + 1)) as [mt|x] eqn:E1.
  2:{ exists (Raised x), [], []. split; [|split; [discriminate|]].
      - intros ? [= <-]. split; [reflexivity|]. left.
        now apply (Hindex (start + 1) x unit).
      - intros result st. rewrite Hlb. now rewrite grow_nil. }
  cbv zeta in Hlb.
  destruct (len payload <? start + 1 + Z.land (Z.shiftr (byte_val cb) 0) 31)
    eqn:Elen.
  { exists Broke, [], [(DEBUG, msg_invalid_length)].
    split; [discriminate|]. split; [reflexivity|].
    intros result st. rewrite Hlb. now rewrite with_log_grow. }
  destruct (decode_object_uniform payload
              (Z.land (Z.shiftr (byte_val cb) 0) 31)
              (Z.land (Z.shiftr (byte_val cb) 5) 7) (byte_val mt)
              start (start + 1 + Z.land (Z.shiftr (byte_val cb) 0) 31))
    as ([x|] & u & l & He & Heq).
  - exists (Raised x), u, l. split; [|split; [discriminate|]].
    + intros ? [= <-]. destruct (He x eq_refl) as [Hu Hx].
      split; [assumption|]. now apply object_scan_error.
    + intros result st. rewrite Hlb, Heq. reflexivity.
  - eexists (Went _), u, l. split; [discriminate|]. split; [discriminate|].
    intros result st. rewrite Hlb, Heq. reflexivity.
Qed.

Lemma nonempty_app {T} (u1 u2 : list T) (result : bool) :
  (result || negb (bool_decide (u1 = []))) || negb (bool_decide (u2 = []))
  = result || negb (bool_decide (u1 ++ u2 = [])).
Proof.
  destruct u1, u2, result; reflexivity.
Qed.

(** The scan does the same whatever the state and the result it starts
    with: it raises or not, it makes the same sensor updates and logs
    the same records. *)
Lemma while_loop_uniform fuel : forall payload start,
  exists o u l,
    (forall x, o = Some (Some x) -> scan_error x)
    /\ forall result st,
         while_loop fuel payload start result st
         = match o with
           | Some e => Some (scan_outcome e u result, grow u l st)
           | None => None
           end.
Proof.
  induction fuel as [|fuel IH]; intros payload start; cbn [while_loop].
  - destruct (len payload >=? start + 1).
    + exists None, [], []. split; [discriminate|]. reflexivity.
    + exists (Some None), [], []. split; [discriminate|].
      intros result st. unfold ret, scan_outcome.
      rewrite bool_decide_eq_true_2 by reflexivity.
      now rewrite orb_false_r, grow_nil.
  - destruct (len payload >=? start + 1).
    2:{ exists (Some None), [], []. split; [discriminate|].
        intros result st. unfold ret, scan_outcome.
        rewrite bool_decide_eq_true_2 by reflexivity.
        now rewrite orb_false_r, grow_nil. }
    destruct (loop_body_uniform payload start)
      as ([x| |n] & u1 & l1 & Hx & Hb & Heq).
    + exists (Some (Some x)), u1, l1. split.
      * intros ? [= <-]. now apply Hx.
      * intros result st. unfold bind. rewrite Heq. reflexivity.
    + exists (Some None), u1, l1. split; [discriminate|].
      intros result st. unfold bind. rewrite Heq. cbn [pass_outcome].
      unfold ret, scan_outcome. rewrite (Hb eq_refl).
      rewrite bool_decide_eq_true_2 by reflexivity.
      now rewrite orb_false_r.
    + destruct (IH payload n) as ([e|] & u2 & l2 & He & Heq2).
      * exists (Some e), (u1 ++ u2), (l1 ++ l2). split.
        { intros ? [= ->]. now apply He. }
        intros result st. unfold bind. rewrite Heq. cbn [pass_outcome].
        rewrite Heq2, grow_grow. f_equal. f_equal.
        destruct e; [reflexivity|]. cbn [scan_outcome]. f_equal.
        apply nonempty_app.
      * exists None, [], []. split; [discriminate|].
        intros result st. unfold bind. rewrite Heq. cbn [pass_outcome].
        now rewrite Heq2.
Qed.

Lemma scan_payload_uniform payload :
  exists e u l,
    (forall x, e = Some x -> scan_error x)
    /\ forall st,
         scan_payload payload st
         = Some (scan_outcome e u false, grow u l st).
Proof.
  destruct (while_loop_uniform (Z.to_nat (len payload)) payload 0)
    as (o & u & l & Ho & Heq).
  destruct o as [e|].
  - exists e, u, l. split; [intros x ->; now apply Ho|].
    intros st. unfold scan_payload, bind. cbv zeta. rewrite Heq.
    destruct e as [x|]; cbn [scan_outcome]; [reflexivity|].
    cbn [orb]. destruct (negb (bool_decide (u = []))); reflexivity.
  - exfalso.
    destruct (while_loop_budget (Z.to_nat (len payload)) payload 0 false
                (init None)) as (r & st' & Hr); [lia|lia|].
    rewrite Heq in Hr. discriminate.
Qed.

Lemma read_address_error si st e s :
  read_address si st = Some (Err e, s) -> e = IndexError \/ e = ValueError.
Proof.
  unfold read_address, bind, eval.
  destruct (negb (len (address si) =? 17)).
  - unfold Py.index. destruct (_ <? 0); [cbn; intros [= <- _]; auto|].
    destruct (address si !! _); cbn [exc_bind].
    + destruct (negb _); run; [discriminate|].
      destruct (fromhex _) eqn:E; [discriminate|].
      intros [= <- _]. right. now apply fromhex_error in E.
    + intros [= <- _]. auto.
  - run. destruct (fromhex _) eqn:E; [discriminate|].
    intros [= <- _]. right. now apply fromhex_error in E.
Qed.

Lemma select_payload_effect si data mac st :
  exists r s l,
    select_payload si data mac st = Some (r, s)
    /\ bindkey s = bindkey st
    /\ sensor_updates s = sensor_updates st
    /\ log s = log st ++ l
    /\ (forall e, r = Err e -> numeric_error e).
Proof.
  unfold select_payload. cbv zeta.
  destruct (bool_decide (service_uuids si = [uuid_plain])).
  { run. eexists _, _, []. split; [reflexivity|]. cbn.
    rewrite app_nil_r. repeat split. discriminate. }
  destruct (bool_decide (service_uuids si = [uuid_encrypted]));
    [|eexists _, _, []; split; [reflexivity|]; rewrite app_nil_r;
      repeat split; discriminate].
  unfold bind at 1, modify at 1. unfold bind at 1, modify at 1.
  set (st2 := with_sw_version _ _).
  destruct (decrypt_bthome_log data mac st2)
    as (r & s & l & Hd & He & Hk & Hs & Hl).
  unfold bind at 1, try_except_ValueError_TypeError, bind at 1.
  rewrite Hd.
  destruct r as [p|e].
  - run. unfold bind, eval.
    destruct (parse_uint _ default_factor) as [v|x] eqn:E.
    + exists (Ok (Some p)), s, l. split; [reflexivity|].
      rewrite Hk, Hs, Hl. repeat split. discriminate.
    + exists (Err x), s, l. split; [reflexivity|].
      rewrite Hk, Hs, Hl. repeat split.
      intros ? [= <-]. now apply parse_uint_error in E.
  - rewrite (He e eq_refl). cbn [is_ValueError orb]. run.
    exists (Ok None), s, l. split; [reflexivity|].
    rewrite Hk, Hs, Hl. repeat split. discriminate.
Qed.

(** X7: what a call of [_parse_bthome] does to the device, for every
    input: it ends (the loop budget of one pass per byte is enough); it
    leaves the key alone; it only appends to the sensor updates and to
    the log; when it returns, it returns [True] exactly if it has
    recorded at least one sensor update; and it raises nothing but
    [IndexError], [ValueError], [OverflowError] and
    [UnicodeDecodeError]. *)
Theorem parse_bthome_effect si name data st :
  exists r st' u l,
    _parse_bthome si name data st = Some (r, st')
    /\ bindkey st' = bindkey st
    /\ sensor_updates st' = sensor_updates st ++ u
    /\ log st' = log st ++ l
    /\ (forall b, r = Ok b -> (b = true <-> u <> []))
    /\ (forall e, r = Err e ->
          e = IndexError \/ e = ValueError \/ e = OverflowError
          \/ e = UnicodeDecodeError).
Proof.
  assert (Hfalse : forall b : bool,
            Ok false = Ok b -> (b = true <-> @nil (sensor * float) <> [])).
  { intros b [= <-]. split; [discriminate|congruence]. }
  unfold _parse_bthome. unfold bind at 1.
  destruct (read_address_state si st) as (r0 & b0 & Hread).
  rewrite Hread.
  destruct r0 as [[mac|]|e].
  2:{ run. exists (Ok false), (with_mac_known b0 st), [], [].
      split; [reflexivity|]. cbn. rewrite !app_nil_r.
      repeat split; try discriminate; apply Hfalse; assumption. }
  2:{ exists (Err e), (with_mac_known b0 st), [], [].
      split; [reflexivity|]. cbn. rewrite !app_nil_r.
      repeat split; try discriminate.
      intros ? [= <-]. apply read_address_error in Hread. tauto. }
  unfold bind at 1.
  destruct (set_names_state si name (with_mac_known b0 st))
    as (st1 & -> & Hs1 & _ & Hk1 & Hl1).
  unfold bind at 1.
  destruct (select_payload_effect si data mac st1)
    as (r & s2 & l2 & -> & Hk2 & Hs2 & Hl2 & He2).
  destruct r as [[payload|]|e].
  2:{ run. exists (Ok false), s2, [], l2. split; [reflexivity|].
      rewrite Hk2, Hk1, Hs2, Hs1, Hl2, Hl1. cbn. rewrite app_nil_r.
      repeat split; try discriminate; apply Hfalse; assumption. }
  2:{ exists (Err e), s2, [], l2. split; [reflexivity|].
      rewrite Hk2, Hk1, Hs2, Hs1, Hl2, Hl1. cbn. rewrite app_nil_r.
      repeat split; try discriminate.
      intros ? [= <-]. destruct (He2 e eq_refl); auto. }
  destruct (scan_payload_uniform payload) as (e & u & l & He & Heq).
  rewrite Heq.
  exists (scan_outcome e u false), (grow u l s2), u, (l2 ++ l).
  split; [reflexivity|]. cbn.
  rewrite Hk2, Hk1, Hs2, Hs1, Hl2, Hl1. cbn. rewrite app_assoc.
  split; [reflexivity|]. split; [reflexivity|]. split; [reflexivity|].
  split.
  - intros b Hb. destruct e; [discriminate|]. cbn in Hb.
    injection Hb as <-. destruct u; [|split; [discriminate|reflexivity]].
    split; [discriminate|congruence].
  - intros x Hx. destruct e as [y|]; [|discriminate].
    injection Hx as <-. exact (He y eq_refl).
Qed.

(** ** Records are decoded one after the other *)

(** Decoding an object looks at the payload through two slices only. *)
Lemma decode_object_ext p p' s s' n n' dl fmt mt result st :
  Py.slice p (Some (s + 2)) (Some n) = Py.slice p' (Some (s' + 2)) (Some n') ->
  Py.slice p (Some (s + 1)) (Some n) = Py.slice p' (Some (s' + 1)) (Some n') ->
  decode_object p dl fmt mt s n result st
  = decode_object p' dl fmt mt s' n' result st.
Proof.
  intros H2 H1. unfold decode_object. cbv zeta. rewrite H2, H1. reflexivity.
Qed.

Lemma scan_payload_eq payload st :
  scan_payload payload st
  = while_loop (Z.to_nat (len payload)) payload 0 false st.
Proof.
  unfold scan_payload, bind. cbv zeta.
  destruct (while_loop _ payload 0 false st) as [[[[]|e] s]|]; reflexivity.
Qed.

(** The scan of the bytes after a prefix does not look at the prefix. *)
Lemma loop_body_shift pre rest i result st :
  0 <= i ->
  loop_body (pre ++ rest) (len pre + i) result st
  = match loop_body rest i result st with
    | Some (Ok (Continue n r), s) => Some (Ok (Continue (len pre + n) r), s)
    | other => other
    end.
Proof.
  intros Hi. pose proof (len_nonneg pre) as Hp.
  rewrite !loop_body_eq.
  rewrite index_app_r by lia.
  destruct (Py.index rest i) as [cb|x]; [|reflexivity].
  replace (len pre + i + 1) with (len pre + (i + 1)) by lia.
  rewrite index_app_r by lia.
  destruct (Py.index rest (i + 1)) as [mt|x]; [|reflexivity].
  cbv zeta. rewrite len_app.
  set (dl := Z.land (Z.shiftr (byte_val cb) 0) 31).
  assert (0 <= dl) by (apply Z.land_nonneg; right; lia).
  destruct (Z.ltb_spec (len pre + len rest) (len pre + (i + 1) + dl));
    destruct (Z.ltb_spec (len rest) (i + 1 + dl)); try lia; [reflexivity|].
  rewrite (decode_object_ext (pre ++ rest) rest (len pre + i) i
             (len pre + (i + 1) + dl) (i + 1 + dl)).
  - assert (len pre + (i + 1) + dl = len pre + (i + 1 + dl)) as -> by lia.
    destruct (decode_object rest _ _ _ _ _ _ st) as [[[r|e] s]|];
      reflexivity.
  - replace (len pre + i + 2) with (len pre + (i + 2)) by lia.
    replace (len pre + (i + 1) + dl) with (len pre + (i + 1 + dl)) by lia.
    apply slice_app_r; lia.
  - replace (len pre + i + 1) with (len pre + (i + 1)) by lia.
    replace (len pre + (i + 1) + dl) with (len pre + (i + 1 + dl)) by lia.
    apply slice_app_r; lia.
Qed.

Lemma while_loop_shift fuel : forall pre rest i result st,
  0 <= i ->
  while_loop fuel (pre ++ rest) (len pre + i) result st
  = while_loop fuel rest i result st.
Proof.
  induction fuel as [|fuel IH]; intros pre rest i result st Hi;
    cbn [while_loop]; rewrite len_app.
  - destruct (Z.geb_spec (len pre + len rest) (len pre + i + 1));
      destruct (Z.geb_spec (len rest) (i + 1)); try lia; reflexivity.
  - destruct (Z.geb_spec (len pre + len rest) (len pre + i + 1));
      destruct (Z.geb_spec (len rest) (i + 1)); try lia; [|reflexivity].
    unfold bind. rewrite loop_body_shift by lia.
    destruct (loop_body rest i result st) as [[[[n r|]|e] s]|] eqn:E;
      try reflexivity.
    apply loop_body_continue in E as [_ Hn]; [|lia].
    apply IH. lia.
Qed.

(** A budget that is large enough is as good as any other. *)
Lemma while_loop_fuel f1 : forall f2 payload start result st,
  0 <= start ->
  (Z.to_nat (len payload - start) <= f1)%nat ->
  (Z.to_nat (len payload - start) <= f2)%nat ->
  while_loop f1 payload start result st
  = while_loop f2 payload start result st.
Proof.
  induction f1 as [|f1 IH]; intros f2 payload start result st H0 H1 H2.
  - destruct f2; cbn [while_loop];
      destruct (Z.geb_spec (len payload) (start + 1)); try lia; reflexivity.
  - destruct f2; cbn [while_loop];
      destruct (Z.geb_spec (len payload) (start + 1)); try lia;
      try reflexivity.
    unfold bind.
    destruct (loop_body payload start result st) as [[[[n r|]|e] s]|] eqn:E;
      try reflexivity.
    apply loop_body_continue in E as [_ Hn]; [|lia].
    apply IH; lia.
Qed.

Lemma byte_at_app_l (pre rest : bytes) i :
  0 <= i < len pre -> byte_at (pre ++ rest) i = byte_at pre i.
Proof.
  intros Hi. unfold byte_at.
  rewrite lookup_app_l by (unfold len in *; lia). reflexivity.
Qed.

(** X8: records are decoded one after the other.  The scan of a
    complete record (its length is one more than the data length of
    its control byte, and it holds the measurement type) followed by
    any bytes is the scan of the record, then, unless that raised, the
    scan of the bytes after it from the state the record left; the
    result is [True] if either scan found a sensor update. *)
Theorem scan_payload_app record rest st :
  2 <= len record -> len record = 1 + data_length_at record 0 ->
  scan_payload (record ++ rest) st
  = match scan_payload record st with
    | Some (Ok b, st1) =>
        match scan_payload rest st1 with
        | Some (Ok b', st2) => Some (Ok (b || b'), st2)
        | other => other
        end
    | other => other
    end.
Proof.
  intros H2 Hlen. pose proof (len_nonneg rest) as Hr.
  rewrite !scan_payload_eq, len_app.
  destruct (Z.to_nat (len record + len rest)) as [|k] eqn:Ek; [lia|].
  destruct (Z.to_nat (len record)) as [|k'] eqn:Ek'; [lia|].
  cbn [while_loop]. rewrite len_app.
  destruct (Z.geb_spec (len record + len rest) (0 + 1)); [|lia].
  destruct (Z.geb_spec (len record) (0 + 1)); [|lia].
  unfold bind.
  rewrite (loop_body_header (record ++ rest)) by (rewrite ?len_app; lia).
  rewrite (loop_body_header record) by lia.
  cbv zeta.
  assert (data_length_at (record ++ rest) 0 = data_length_at record 0) as ->
    by (unfold data_length_at; now rewrite byte_at_app_l by lia).
  assert (data_format_at (record ++ rest) 0 = data_format_at record 0) as ->
    by (unfold data_format_at; now rewrite byte_at_app_l by lia).
  assert (meas_type_at (record ++ rest) 0 = meas_type_at record 0) as ->
    by (unfold meas_type_at; now rewrite byte_at_app_l by lia).
  replace (0 + 1 + data_length_at record 0) with (len record) by lia.
  rewrite len_app.
  destruct (Z.ltb_spec (len record + len rest) (len record)); [lia|].
  destruct (Z.ltb_spec (len record) (len record)); [lia|].
  rewrite (decode_object_ext (record ++ rest) record 0 0
             (len record) (len record))
    by (apply slice_app_l; lia).
  destruct (decode_object record _ _ _ _ _ _ st) as [[[r|e] st1]|];
    [|reflexivity|reflexivity].
  destruct k' as [|k']; cbn [while_loop];
    (destruct (Z.geb_spec (len record) (len record + 1)); [lia|]).
  - unfold ret.
    replace (while_loop k (record ++ rest) (len record) r st1)
      with (while_loop k (record ++ rest) (len record + 0) r st1)
      by (f_equal; lia).
    rewrite while_loop_shift by lia.
    rewrite (while_loop_fuel k (Z.to_nat (len rest))) by lia.
    rewrite scan_payload_eq.
    destruct (while_loop_uniform (Z.to_nat (len rest)) rest 0)
      as ([e|] & u & l & _ & Hu); rewrite !Hu; [|reflexivity].
    destruct e; reflexivity.
  - unfold ret.
    replace (while_loop k (record ++ rest) (len record) r st1)
      with (while_loop k (record ++ rest) (len record + 0) r st1)
      by (f_equal; lia).
    rewrite while_loop_shift by lia.
    rewrite (while_loop_fuel k (Z.to_nat (len rest))) by lia.
    rewrite scan_payload_eq.
    destruct (while_loop_uniform (Z.to_nat (len rest)) rest 0)
      as ([e|] & u & l & _ & Hu); rewrite !Hu; [|reflexivity].
    destruct e; reflexivity.
Qed.

(** ** Padding, and what a recognised advertisement leaves behind *)


Lemma decrypt_bthome_fields data mac st :
  exists r st',
    _decrypt_bthome data mac st = Some (r, st')
    /\ (forall e, r = Err e -> e = ValueError)
    /\ encryption_scheme st' = encryption_scheme st
    /\ mac_known st' = mac_known st
    /\ sw_version st' = sw_version st.
Proof.
  unfold _decrypt_bthome. run.
  destruct (negb (bindkey_bool (bindkey st)));
    [eexists _, _; split; [reflexivity|]; cbn; repeat split; congruence|].
  destruct (_ || _);
    [eexists _, _; split; [reflexivity|]; cbn; repeat split; congruence|].
  destruct (len data <? 15);
    [eexists _, _; split; [reflexivity|]; cbn; repeat split; congruence|].
  cbv zeta.
  destruct (AES_new _ _ 4) as [c|];
    [|eexists _, _; split; [reflexivity|]; repeat split; congruence].
  destruct (decrypt_and_verify _ _ _) as [p| |]; run;
    eexists _, _; (split; [reflexivity|]); cbn; repeat split;
    congruence || discriminate.
Qed.

(** X17: a recognised advertisement from a well-formed address leaves
    the device marked with what its service UUID says, however the
    call ends. *)
Theorem recognised_uuid_marks_device si name data st :
  is_mac_address (address si) = true ->
  service_uuids si = [uuid_plain] \/ service_uuids si = [uuid_encrypted] ->
  exists r st',
    _parse_bthome si name data st = Some (r, st')
    /\ mac_known st' = true
    /\ (service_uuids si = [uuid_plain] ->
        encryption_scheme st' = NONE
        /\ sw_version st' = Some (list_ascii_of_string "BThome BLE")
        /\ bindkey_verified st' = bindkey_verified st)
    /\ (service_uuids si = [uuid_encrypted] ->
        encryption_scheme st' = BTHOME_BINDKEY
        /\ sw_version st'
           = Some (list_ascii_of_string "BThome BLE (encrypted)")).
Proof.
  intros Hmac Huuid.
  assert ([uuid_plain] <> [uuid_encrypted]) as Hne by discriminate.
  destruct (read_address_mac si st Hmac) as (mac & _ & Hread).
  unfold _parse_bthome. unfold bind at 1. rewrite Hread.
  unfold bind at 1.
  assert (exists t, set_names si name (with_mac_known true st)
                    = Some (Ok tt, with_title t (with_device_name t
                                                   (with_mac_known true st))))
    as [t ->] by (unfold set_names; run; eexists; reflexivity).
  set (st1 := with_title t _).
  unfold bind at 1, select_payload. cbv zeta.
  destruct Huuid as [Hu|Hu]; rewrite Hu.
  - rewrite bool_decide_eq_true_2 by reflexivity. run.
    destruct (scan_payload_uniform data) as (e & u & l & _ & ->).
    eexists _, _. split; [reflexivity|]. cbn.
    repeat split; congruence.
  - rewrite bool_decide_eq_false_2 by congruence.
    rewrite bool_decide_eq_true_2 by reflexivity.
    unfold bind at 1, modify at 1. unfold bind at 1, modify at 1.
    set (st2 := with_sw_version _ _).
    destruct (decrypt_bthome_fields data mac st2)
      as (r & s & Hd & He & Hs1 & Hs2 & Hs3).
    unfold bind at 1, try_except_ValueError_TypeError, bind at 1.
    rewrite Hd.
    destruct r as [p|e].
    + run. unfold bind, eval.
      destruct (parse_uint _ default_factor) as [v|x].
      * unfold ret.
        destruct (scan_payload_uniform p) as (e & u & l & _ & ->).
        eexists _, _. split; [reflexivity|]. cbn.
        rewrite Hs1, Hs2, Hs3. repeat split; congruence.
      * eexists _, _. split; [reflexivity|].
        rewrite Hs1, Hs2, Hs3. repeat split; congruence.
    + rewrite (He e eq_refl). cbn [is_ValueError orb]. run.
      eexists _, _. split; [reflexivity|].
      rewrite Hs1, Hs2, Hs3. repeat split; congruence.
Qed.

End FurtherProperties.

(** ** Closed instances of the further properties *)


(** The address of the examples is the formatted example MAC. *)
Example to_mac_example :
  to_mac example_mac = list_ascii_of_string "A4:C1:38:8D:18:B2"
  /\ short_address (to_mac example_mac) = list_ascii_of_string "8D18B2".
Proof. split; reflexivity. Qed.


(** X3: a witness of [foreign_address_rejected]. *)
Lemma foreign_address_rejected_witness :
  _parse_bthome si_foreign (name si_foreign) [x03; x02; xc4; x09] (init None)
  = Some (Ok false, with_mac_known false (init None)).
Proof.
  apply (foreign_address_rejected si_foreign (name si_foreign)
           [x03; x02; xc4; x09] (init None) "2"%char);
    [vm_compute; discriminate|reflexivity|discriminate].
Defined.

(** The two raising cases of an address: an empty one, and 17
    characters that are not hexadecimal. *)
Example unreadable_address_examples :
  _parse_bthome {| name := []; address := []; service_uuids := [uuid_plain] |}
                [] [x03; x02; xc4; x09] (init None)
  = Some (Err IndexError, init None)
  /\ _parse_bthome
       {| name := []; address := list_ascii_of_string "A4:C1:38:8D:18:ZZ";
          service_uuids := [uuid_plain] |}
       [] [x03; x02; xc4; x09] (init None)
     = Some (Err ValueError, with_mac_known true (init None)).
Proof. split; reflexivity. Qed.

(** X6: a witness of [encrypted_payload_scanned] with the stand-in
    cipher. *)
Lemma encrypted_payload_scanned_witness :
  exists mac st1,
    fromhex (remove_char ":" (address si_enc)) = Ok mac
    /\ match verified_plaintext example_key example_encrypted mac with
       | Some p =>
           bindkey_verified st1 = true
           /\ _parse_bthome si_enc (name si_enc) example_encrypted
                            (init (Some example_key))
              = scan_payload p st1
       | None =>
           bindkey_verified st1 = false
           /\ _parse_bthome si_enc (name si_enc) example_encrypted
                            (init (Some example_key))
              = Some (Ok false, st1)
       end.
Proof.
  apply (encrypted_payload_scanned si_enc (name si_enc) example_encrypted
           example_key (init (Some example_key)));
    [reflexivity|reflexivity|reflexivity|reflexivity|vm_compute; discriminate].
Defined.

(** X8: a witness of [scan_payload_app]: the record [03 02 C4 09]
    followed by the record [02 02 10]. *)
Lemma scan_payload_app_witness :
  scan_payload ([x03; x02; xc4; x09] ++ [x02; x02; x10]) (init None)
  = match scan_payload [x03; x02; xc4; x09] (init None) with
    | Some (Ok b, st1) =>
        match scan_payload [x02; x02; x10] st1 with
        | Some (Ok b', st2) => Some (Ok (b || b'), st2)
        | other => other
        end
    | other => other
    end.
Proof.
  apply (scan_payload_app [x03; x02; xc4; x09] [x02; x02; x10] (init None));
    [vm_compute; discriminate|reflexivity].
Defined.

(** X9: a witness of [parse_integer_exact]: the span [FF FF] is 65535
    unsigned and -1 signed. *)
Lemma parse_integer_exact_witness :
  (exists v, parse_uint [xff; xff] default_factor = Ok v
             /\ is_integer v (int_from_bytes_unsigned [xff; xff]))
  /\ (exists v, parse_int [xff; xff] default_factor = Ok v
                /\ is_integer v (int_from_bytes_signed [xff; xff])).
Proof.
  apply (parse_integer_exact [xff; xff]). vm_compute. discriminate.
Defined.

(** X10: a witness of [parse_decimal_factor]: the span [18 FC] with
    the factor 0.01 is 645.36 unsigned and -10.0 signed. *)
Lemma parse_decimal_factor_witness :
  parse_uint [x18; xfc] (decimal_factor 2)
    = Ok (quotient (int_from_bytes_unsigned [x18; xfc]) (10 ^ 2))
  /\ parse_int [x18; xfc] (decimal_factor 2)
     = Ok (quotient (int_from_bytes_signed [x18; xfc]) (10 ^ 2)).
Proof.
  apply (parse_decimal_factor [x18; xfc] 2);
    [lia|vm_compute; discriminate].
Defined.

Example quotient_examples :
  quotient (int_from_bytes_unsigned [x18; xfc]) (10 ^ 2)
    = float_of_ratio false 64536 100
  /\ quotient (int_from_bytes_signed [x18; xfc]) (10 ^ 2) = float_of_Z (-10)
  /\ quotient 2500 100 = float_of_Z 25
  /\ decimal_factor 2 = float_0_01.
Proof. repeat split; reflexivity. Qed.

(** X11: a witness of [non_finite_factor_raises]. *)
Lemma non_finite_factor_raises_witness :
  parse_uint [xc4; x09] S754_nan = Err ValueError
  /\ parse_int [xc4; x09] S754_nan = Err ValueError
  /\ parse_float [xc4; x09] S754_nan = (Err ValueError, []).
Proof.
  apply (non_finite_factor_raises [xc4; x09] S754_nan). reflexivity.
Defined.

(** X12: a witness of [parse_float_non_finite]: the half-precision
    infinity [00 7C]. *)
Lemma parse_float_non_finite_witness :
  exists v,
    parse_float [x00; x7c] float_0_01 = (Ok (Some v), [])
    /\ is_finite v = false /\ float_bool v = true.
Proof.
  apply (parse_float_non_finite [x00; x7c] float_0_01);
    [left; reflexivity|reflexivity|reflexivity].
Defined.

(** X13: a witness of [parse_string_ascii]: the text [Hi]. *)
Lemma parse_string_ascii_witness :
  parse_string [x48; x69] = Ok (map byte_val [x48; x69]).
Proof. apply (parse_string_ascii [x48; x69]). reflexivity. Defined.

(** X15: a witness of [other_failures_nonfatal]: an object of
    dataFormat 5. *)
Lemma other_failures_nonfatal_witness :
  exists st',
    decode_object [xa2; x02; x00] 2 5 2 0 3 false (init None)
      = Some (Ok false, st')
    /\ sensor_updates st' = sensor_updates (init None)
    /\ log st' <> log (init None).
Proof.
  apply (other_failures_nonfatal [xa2; x02; x00] 2 5 2 0 3 false (init None));
    [discriminate|right; left; lia].
Defined.


(** X17: a witness of [recognised_uuid_marks_device]: an encrypted
    advertisement and no key. *)
Lemma recognised_uuid_marks_device_witness :
  exists r st',
    _parse_bthome si_enc (name si_enc) example_encrypted (init None)
      = Some (r, st')
    /\ mac_known st' = true
    /\ (service_uuids si_enc = [uuid_plain] ->
        encryption_scheme st' = NONE
        /\ sw_version st' = Some (list_ascii_of_string "BThome BLE")
        /\ bindkey_verified st' = bindkey_verified (init None))
    /\ (service_uuids si_enc = [uuid_encrypted] ->
        encryption_scheme st' = BTHOME_BINDKEY
        /\ sw_version st'
           = Some (list_ascii_of_string "BThome BLE (encrypted)")).
Proof.
  apply (recognised_uuid_marks_device si_enc (name si_enc) example_encrypted
           (init None)); [reflexivity|right; reflexivity].
Defined.
